(** * Teky-timemark: the watermark compositor of [PhotoWatermarker.tsx]

    A shallow embedding of the [img.onload] handler of
    [src/components/PhotoWatermarker.tsx]: the layout parameters derived from
    the image width, the greedy word wrapper [wrapText], the bottom-up stack
    of text lines and the gradient panel behind them; and, of the page
    around it ([App.tsx]), the record a capture stores, the location
    state fed by [watchPosition], the handler that stores the processed
    image and the address built by [fetchAddress].

    JavaScript numbers are IEEE 754 binary64 values; they are modelled by
    the [spec_float] type of the Standard Library with [prec = 53] and
    [emax = 1024], whose operations are defined on integers and round to
    nearest, ties to even, exactly as the double operations of the source
    do. *)

From Stdlib Require Import ZArith List String Ascii Bool Lia SpecFloat.
From Stdlib Require Import DecimalString.
Import ListNotations.

Local Open Scope Z_scope.

(** ** JavaScript numbers *)

Module Num.

Definition prec : Z := 53.
Definition emax : Z := 1024.

Definition num : Type := spec_float.

Definition add : num -> num -> num := SFadd prec emax.
Definition sub : num -> num -> num := SFsub prec emax.
Definition mul : num -> num -> num := SFmul prec emax.
Definition div : num -> num -> num := SFdiv prec emax.

(** [a < b] and [a <= b] of the source; both are false on NaN. *)
Definition ltb (a b : num) : bool := SFltb a b.
Definition leb (a b : num) : bool := SFleb a b.

(** An integer as a number: the nearest double, which is the integer
    itself below [2^53]. *)
Definition of_Z (n : Z) : num := binary_normalize prec emax n 0 false.

(** A decimal literal [n / d] of the source text, such as [0.035] =
    [35 / 1000]: the double nearest to the quotient, which the correctly
    rounded division of two exact integers gives. *)
Definition lit (n d : Z) : num := div (of_Z n) (of_Z d).

(** [Math.floor]. A finite number with a non-negative exponent is an
    integer already. *)
Definition floor (x : num) : num :=
  match x with
  | S754_finite s m e =>
      if 0 <=? e then x
      else
        let k := - e in
        if s then of_Z (- ((Zpos m + 2 ^ k - 1) / 2 ^ k))
        else of_Z (Zpos m / 2 ^ k)
  | _ => x
  end.

(** [Math.max] of two arguments: NaN if either is NaN, and [+0] is
    larger than [-0]. *)
Definition max (a b : num) : num :=
  match SFcompare a b with
  | None => S754_nan
  | Some Lt => b
  | Some Gt => a
  | Some Eq => match a with S754_zero true => b | _ => a end
  end.

(** The integer value of a number that holds one ([None] otherwise). *)
Definition to_Z (x : num) : option Z :=
  match x with
  | S754_zero _ => Some 0
  | S754_finite s m e =>
      if 0 <=? e then Some (cond_Zopp s (Zpos m * 2 ^ e))
      else if (Zpos m mod 2 ^ (- e)) =? 0
           then Some (cond_Zopp s (Zpos m / 2 ^ (- e)))
           else None
  | _ => None
  end.

End Num.

Abbreviation num := Num.num.

(** Finite numbers as integers: the unit is [2^-1074], the spacing of
    the smallest doubles, so that every finite double is a whole number
    of units. *)
Definition K : Z := 2 ^ 1074.

(** [2^-11] in these units: the error one operation can make on a value
    below [2^41]. *)
Definition eps : Z := 2 ^ 1063.

Definition iv (x : spec_float) : Z :=
  match x with
  | S754_finite s m e => cond_Zopp s (Zpos m * 2 ^ (e + 1074))
  | _ => 0
  end.

Definition canon_me (m : positive) (e : Z) : Prop :=
  -1074 <= e <= 971
  /\ (Zpos (digits2_pos m) = 53
      \/ (e = -1074 /\ Zpos (digits2_pos m) <= 53)).

(** Zero or a finite number in canonical form. *)
Definition fin (x : num) : Prop :=
  match x with
  | S754_zero _ => True
  | S754_finite _ m e => canon_me m e
  | _ => False
  end.



(** The numeric literals of the source. *)
Definition c0_035 : num := Eval vm_compute in Num.lit 35 1000.
Definition c1_5 : num := Eval vm_compute in Num.lit 15 10.
Definition c0_7 : num := Eval vm_compute in Num.lit 7 10.
Definition c1_0 : num := Eval vm_compute in Num.lit 10 10.
Definition c0_9 : num := Eval vm_compute in Num.lit 9 10.
Definition c1_3 : num := Eval vm_compute in Num.lit 13 10.
Definition c1_4 : num := Eval vm_compute in Num.lit 14 10.
Definition c0_2 : num := Eval vm_compute in Num.lit 2 10.
Definition c0_85 : num := Eval vm_compute in Num.lit 85 100.
Definition c24 : num := Eval vm_compute in Num.of_Z 24.
Definition c2 : num := Eval vm_compute in Num.of_Z 2.
Definition c0 : num := Eval vm_compute in Num.of_Z 0.

(** ** JavaScript strings *)

Local Open Scope string_scope.

(** [text.split(' ')]: the pieces between single spaces. Two spaces in a
    row give an empty piece, and the empty string gives one empty piece. *)
Fixpoint split_space (s : string) : list string :=
  match s with
  | EmptyString => [EmptyString]
  | String c s' =>
      if Ascii.eqb c " "%char then EmptyString :: split_space s'
      else match split_space s' with
           | w :: ws => String c w :: ws
           | [] => [String c EmptyString]
           end
  end.

(** [lines.join(' ')]. *)
Fixpoint join_space (ws : list string) : string :=
  match ws with
  | [] => EmptyString
  | [w] => w
  | w :: ws' => w ++ " " ++ join_space ws'
  end.

(** The decimal digits of a non-negative integer, and a run of zeros. *)
Definition digits_of_Z (n : Z) : string :=
  NilZero.string_of_uint (N.to_uint (Z.to_N n)).

Fixpoint zeros (n : nat) : string :=
  match n with
  | O => EmptyString
  | S n' => String "0"%char (zeros n')
  end.

(** ** The rendering engine

    What the browser provides and the source only calls: text
    measurement, the locale formatting of dates, the number-to-string
    conversion behind [toFixed] for huge values, and the JPEG encoder. *)

(** [ctx.font]: the default of a fresh context, or one of the
    [`bold? Npx Inter, sans-serif`] fonts the source builds. *)
Inductive Font : Type :=
| DefaultFont
| Inter (bold : bool) (px : num).

(** [ctx.fillStyle]: a CSS colour or the linear gradient of step 6. *)
Inductive FillStyle : Type :=
| Color (css : string)
| LinearGradient (x0 y0 x1 y1 : num) (stops : list (num * string)).

(** The decoded source image [img]. *)
Record Bitmap : Type := {
  bm_width : Z;
  bm_height : Z;
  bm_pixels : list Z
}.

(** One painting call on the canvas, with the context state it used. *)
Inductive DrawOp : Type :=
| OpDrawImage (img : Bitmap) (x y : num)
| OpFillRect (style : FillStyle) (x y w h : num)
| OpFillText (text : string) (x y : num) (font : Font) (style : FillStyle)
             (align baseline : string).

(** The canvas and its 2D context. [cv_ops] is what has been painted
    since the canvas was last reset, oldest first. *)
Record Canvas : Type := {
  cv_width : num;
  cv_height : num;
  cv_font : Font;
  cv_fillStyle : FillStyle;
  cv_textAlign : string;
  cv_textBaseline : string;
  cv_ops : list DrawOp
}.

Record Engine : Type := {
  measureText : Font -> string -> num;
  toLocaleDateString : Z -> string;
  toLocaleTimeString : Z -> string;
  numberToString : num -> string;
  toDataURL : Canvas -> string -> num -> string
}.

(** ** The metadata record ([types.ts]) *)

Record GeoLocation : Type := {
  lat : num;
  lng : num;
  accuracy : num;
  loc_timestamp : num;
  address : option string
}.

Record CapturedImage : Type := {
  originalDataUrl : string;
  processedDataUrl : option string;
  location : option GeoLocation;
  timestamp : Z;
  personnelName : string;
  deviceName : string
}.

(** ** A small state monad over the canvas *)

Definition Draw (A : Type) : Type := Canvas -> A * Canvas.

Definition ret {A : Type} (a : A) : Draw A := fun cv => (a, cv).

Definition bind {A B : Type} (c : Draw A) (k : A -> Draw B) : Draw B :=
  fun cv => let (a, cv') := c cv in k a cv'.

Declare Scope draw_scope.
Delimit Scope draw_scope with draw.
Notation "x <- c ;; k" := (bind c (fun x => k))
  (at level 61, c at next level, right associativity) : draw_scope.
Notation "c ;; k" := (bind c (fun _ => k))
  (at level 61, right associativity) : draw_scope.
Local Open Scope draw_scope.

(** [canvas.width = w; canvas.height = h]: assigning a dimension clears
    the bitmap and puts the context back to its defaults. *)
Definition resetCanvas (w h : num) : Draw unit :=
  fun _ => (tt, {| cv_width := w; cv_height := h;
                   cv_font := DefaultFont;
                   cv_fillStyle := Color "#000000";
                   cv_textAlign := "start";
                   cv_textBaseline := "alphabetic";
                   cv_ops := [] |}).

Definition setFont (f : Font) : Draw unit :=
  fun cv => (tt, {| cv_width := cv_width cv; cv_height := cv_height cv;
                    cv_font := f;
                    cv_fillStyle := cv_fillStyle cv;
                    cv_textAlign := cv_textAlign cv;
                    cv_textBaseline := cv_textBaseline cv;
                    cv_ops := cv_ops cv |}).

Definition setFillStyle (s : FillStyle) : Draw unit :=
  fun cv => (tt, {| cv_width := cv_width cv; cv_height := cv_height cv;
                    cv_font := cv_font cv;
                    cv_fillStyle := s;
                    cv_textAlign := cv_textAlign cv;
                    cv_textBaseline := cv_textBaseline cv;
                    cv_ops := cv_ops cv |}).

Definition setTextAlign (a : string) : Draw unit :=
  fun cv => (tt, {| cv_width := cv_width cv; cv_height := cv_height cv;
                    cv_font := cv_font cv;
                    cv_fillStyle := cv_fillStyle cv;
                    cv_textAlign := a;
                    cv_textBaseline := cv_textBaseline cv;
                    cv_ops := cv_ops cv |}).

Definition setTextBaseline (b : string) : Draw unit :=
  fun cv => (tt, {| cv_width := cv_width cv; cv_height := cv_height cv;
                    cv_font := cv_font cv;
                    cv_fillStyle := cv_fillStyle cv;
                    cv_textAlign := cv_textAlign cv;
                    cv_textBaseline := b;
                    cv_ops := cv_ops cv |}).

Definition paint (op : DrawOp) : Draw unit :=
  fun cv => (tt, {| cv_width := cv_width cv; cv_height := cv_height cv;
                    cv_font := cv_font cv;
                    cv_fillStyle := cv_fillStyle cv;
                    cv_textAlign := cv_textAlign cv;
                    cv_textBaseline := cv_textBaseline cv;
                    cv_ops := (cv_ops cv ++ [op])%list |}).

Definition drawImage (img : Bitmap) (x y : num) : Draw unit :=
  paint (OpDrawImage img x y).

Definition fillRect (x y w h : num) : Draw unit :=
  fun cv => paint (OpFillRect (cv_fillStyle cv) x y w h) cv.

Definition fillText (text : string) (x y : num) : Draw unit :=
  fun cv => paint (OpFillText text x y (cv_font cv) (cv_fillStyle cv)
                              (cv_textAlign cv) (cv_textBaseline cv)) cv.

Definition canvasWidth : Draw num := fun cv => (cv_width cv, cv).
Definition canvasHeight : Draw num := fun cv => (cv_height cv, cv).

(** ** The compositor *)

Section Compositor.

Context (E : Engine).

(** [ctx.measureText(text).width] with the font the context holds. *)
Definition measure (text : string) : Draw num :=
  fun cv => (measureText E (cv_font cv) text, cv).

(** [x.toFixed(f)]: the integer [n] nearest to [|x| * 10^f] (the larger
    one on a tie), printed with [f] digits after the point. Values of
    magnitude [10^21] and more go through the number-to-string
    conversion of the engine. *)
Definition toFixed (x : num) (f : nat) : string :=
  match x with
  | S754_nan => "NaN"
  | S754_infinity false => "Infinity"
  | S754_infinity true => "-Infinity"
  | S754_zero _ =>
      if Nat.eqb f 0 then "0" else "0." ++ zeros f
  | S754_finite s m e =>
      let big :=
        if (0 <=? e)%Z then (10 ^ 21 <=? Zpos m * 2 ^ e)%Z
        else (10 ^ 21 * 2 ^ (- e) <=? Zpos m)%Z in
      if big then numberToString E x
      else
        let scaled := Zpos m * 10 ^ Z.of_nat f in
        let n :=
          if (0 <=? e)%Z then scaled * 2 ^ e
          else (2 * scaled + 2 ^ (- e)) / 2 ^ (- e + 1) in
        let ds := digits_of_Z n in
        let ds := zeros (S f - String.length ds) ++ ds in
        let k := (String.length ds - f)%nat in
        (if s then "-" else "")
        ++ (if Nat.eqb f 0 then ds
            else substring 0 k ds ++ "." ++ substring k f ds)
  end.

(** Step 3: the texts. *)
Definition fullTimeStr (image : CapturedImage) : string :=
  toLocaleTimeString E (timestamp image) ++ " - "
  ++ toLocaleDateString E (timestamp image).

Definition coordsStr (image : CapturedImage) : string :=
  match location image with
  | Some loc => toFixed (lat loc) 6 ++ ", " ++ toFixed (lng loc) 6
  | None => ""
  end.

Definition placeholder : string := "Đang cập nhật địa chỉ...".

(** [image.location?.address || placeholder]: a missing location, a
    missing address and the empty address are all falsy. *)
Definition addressStr (image : CapturedImage) : string :=
  match location image with
  | Some loc =>
      match address loc with
      | Some a => if String.eqb a "" then placeholder else a
      | None => placeholder
      end
  | None => placeholder
  end.

Definition personStr (image : CapturedImage) : string :=
  "Người chụp: " ++ personnelName image.

Definition deviceStr (image : CapturedImage) : string :=
  "Thiết bị: " ++ deviceName image.

(** Step 4: the sizes, from the width of the image. *)
Definition baseFontSize (width : num) : num :=
  Num.max c24 (Num.floor (Num.mul width c0_035)).

Definition timeFontSize (width : num) : num :=
  Num.floor (Num.mul (baseFontSize width) c1_5).

Definition smallFontSize (width : num) : num :=
  Num.floor (Num.mul (baseFontSize width) c0_7).

Definition padding (width : num) : num :=
  Num.floor (Num.mul (baseFontSize width) c1_0).

(** Step 5: [canvas.width * 0.9]. *)
Definition maxWidth (width : num) : num := Num.mul width c0_9.

(** The loop of [wrapText] from [i = 1] on: [words] are the words still
    to place, [lines] the closed lines, [currentLine] the open one. *)
Fixpoint wrapLoop (maxW : num) (words lines : list string)
         (currentLine : string) : Draw (list string) :=
  match words with
  | [] => ret (lines ++ [currentLine])%list
  | w :: rest =>
      width <- measure (currentLine ++ " " ++ w) ;;
      if Num.ltb width maxW
      then wrapLoop maxW rest lines (currentLine ++ " " ++ w)
      else wrapLoop maxW rest (lines ++ [currentLine])%list w
  end.

(** [wrapText]; [maxW] is the [maxWidth] it closes over. [split] never
    returns an empty array, so [words[0]] is always a string. *)
Definition wrapText (maxW : num) (text : string) (fontSize : num)
           (isBold : bool) : Draw (list string) :=
  setFont (Inter isBold fontSize) ;;
  match split_space text with
  | [] => ret []
  | w0 :: rest => wrapLoop maxW rest [] w0
  end.

(** The box. *)
Definition lineHeight (width : num) : num :=
  Num.mul (baseFontSize width) c1_3.

Definition smallLineHeight (width : num) : num :=
  Num.mul (smallFontSize width) c1_4.

Definition totalTextHeight (width : num) (nLines : nat) : num :=
  Num.add
    (Num.add
       (Num.add
          (Num.add (Num.mul (timeFontSize width) c1_4)
                   (smallLineHeight width))
          (Num.mul (Num.of_Z (Z.of_nat nLines)) (lineHeight width)))
       (smallLineHeight width))
    (Num.mul (padding width) c2).

(** Step 6. *)
Definition gradientHeight (width : num) (nLines : nat) : num :=
  Num.add (totalTextHeight width nLines) (padding width).

Definition gradient (width height : num) (nLines : nat) : FillStyle :=
  LinearGradient c0 (Num.sub height (gradientHeight width nLines))
                 c0 height
                 [(c0, "rgba(0, 0, 0, 0)");
                  (c0_2, "rgba(0, 0, 0, 0.5)");
                  (Num.of_Z 1, "rgba(0, 0, 0, 0.9)")].

(** The address loop of step 7, from the last line up; it returns the
    [currentY] it leaves. [revLines] is [addressLines] reversed. *)
Fixpoint drawAddress (revLines : list string) (rightAnchor currentY lh : num)
  : Draw num :=
  match revLines with
  | [] => ret currentY
  | l :: rest =>
      fillText l rightAnchor currentY ;;
      drawAddress rest rightAnchor (Num.sub currentY lh) lh
  end.

(** [img.onload]; the value is the data URL handed to [onProcessed]. *)
Definition onload (img : Bitmap) (image : CapturedImage) : Draw string :=
  let w := Num.of_Z (bm_width img) in
  let h := Num.of_Z (bm_height img) in
  (* 1 *)
  resetCanvas w c0 ;;
  resetCanvas w h ;;
  (* 2 *)
  drawImage img c0 c0 ;;
  (* 5 *)
  setTextAlign "right" ;;
  setTextBaseline "bottom" ;;
  cw <- canvasWidth ;;
  let maxW := maxWidth cw in
  setFont (Inter true (baseFontSize w)) ;;
  addressLines <- wrapText maxW (addressStr image) (baseFontSize w) true ;;
  let n := List.length addressLines in
  (* 6 *)
  ch <- canvasHeight ;;
  setFillStyle (gradient w ch n) ;;
  fillRect c0 (Num.sub ch (gradientHeight w n)) cw (gradientHeight w n) ;;
  (* 7 *)
  let rightAnchor := Num.sub cw (padding w) in
  let currentY := Num.sub ch (padding w) in
  setFont (Inter false (smallFontSize w)) ;;
  setFillStyle (Color "#cbd5e1") ;;
  fillText (coordsStr image) rightAnchor currentY ;;
  let currentY := Num.sub currentY (smallLineHeight w) in
  setFont (Inter true (baseFontSize w)) ;;
  setFillStyle (Color "#ffffff") ;;
  currentY <- drawAddress (rev addressLines) rightAnchor currentY
                          (lineHeight w) ;;
  setFont (Inter false (smallFontSize w)) ;;
  setFillStyle (Color "#fbbf24") ;;
  fillText (personStr image ++ " | " ++ deviceStr image)
           rightAnchor currentY ;;
  let currentY := Num.sub currentY (smallLineHeight w) in
  let currentY := Num.sub currentY (Num.mul (baseFontSize w) c0_2) in
  setFont (Inter true (timeFontSize w)) ;;
  setFillStyle (Color "#38bdf8") ;;
  fillText (fullTimeStr image) rightAnchor currentY ;;
  (* 8 *)
  fun cv => (toDataURL E cv "image/jpeg" c0_85, cv).

End Compositor.

(** ** A sample engine

    A fixed-pitch font in which every byte is half an em wide, and fixed
    strings for the date and time. *)
Definition sampleEngine : Engine := {|
  measureText := fun f s =>
    match f with
    | DefaultFont => Num.mul (Num.of_Z 5) (Num.of_Z (Z.of_nat (String.length s)))
    | Inter _ px =>
        Num.mul (Num.div px c2) (Num.of_Z (Z.of_nat (String.length s)))
    end;
  toLocaleDateString := fun _ => "01/03/2024";
  toLocaleTimeString := fun _ => "14:05";
  numberToString := fun _ => "";
  toDataURL := fun _ _ _ => "data:image/jpeg;base64,"
|}.

Definition scenarioA : CapturedImage := {|
  originalDataUrl := "data:image/jpeg;base64,";
  processedDataUrl := None;
  location := Some {| lat := Num.lit 10762622 1000000;
                      lng := Num.lit 106660172 1000000;
                      accuracy := Num.of_Z 5;
                      loc_timestamp := Num.of_Z 1709276700000;
                      address := Some "123 Nguyen Hue, District 1, Ho Chi Minh City" |};
  timestamp := 1709276700000;
  personnelName := "An";
  deviceName := "iPhone"
|}.

Definition img1000 : Bitmap :=
  {| bm_width := 1000; bm_height := 750; bm_pixels := [] |}.

(** A canvas as the page creates it. *)
Definition blank : Canvas :=
  {| cv_width := Num.of_Z 300; cv_height := Num.of_Z 150;
     cv_font := DefaultFont;
     cv_fillStyle := Color "#000000";
     cv_textAlign := "start";
     cv_textBaseline := "alphabetic";
     cv_ops := [] |}.

(** ** What an invocation leaves behind *)

(** The wrapped address lines of an invocation: what [wrapText] returns
    for the address text, whatever canvas it runs on. *)
Definition addressLines (E : Engine) (img : Bitmap) (image : CapturedImage)
  : list string :=
  let w := Num.of_Z (bm_width img) in
  fst (wrapText E (maxWidth w) (addressStr image) (baseFontSize w) true blank).

(** The texts painted, oldest first, each with its anchor and baseline. *)
Fixpoint textCalls (ops : list DrawOp) : list (string * num * num) :=
  match ops with
  | [] => []
  | OpFillText text x y _ _ _ _ :: rest => (text, x, y) :: textCalls rest
  | _ :: rest => textCalls rest
  end.

(** The rectangles painted, oldest first: top edge and height. *)
Fixpoint rectCalls (ops : list DrawOp) : list (num * num) :=
  match ops with
  | [] => []
  | OpFillRect _ _ y _ h :: rest => (y, h) :: rectCalls rest
  | _ :: rest => rectCalls rest
  end.

(** [y] after [k] steps of [currentY -= lh]. *)
Fixpoint stepUp (y lh : num) (k : nat) : num :=
  match k with
  | O => y
  | S k' => stepUp (Num.sub y lh) lh k'
  end.

(** A run of lines painted from [y] upwards, [lh] apart. *)
Fixpoint stack (lines : list string) (x y lh : num)
  : list (string * num * num) :=
  match lines with
  | [] => []
  | l :: rest => (l, x, y) :: stack rest x (Num.sub y lh) lh
  end.

(** A painted text with the style of step 7 (right-aligned, anchored at
    its bottom edge). *)
Definition textOp (font : Font) (css : string) (c : string * num * num)
  : DrawOp :=
  OpFillText (fst (fst c)) (snd (fst c)) (snd c) font (Color css)
             "right" "bottom".

(** The canvas an invocation leaves, written out. *)
Definition composite (E : Engine) (img : Bitmap) (image : CapturedImage)
  : Canvas :=
  let w := Num.of_Z (bm_width img) in
  let h := Num.of_Z (bm_height img) in
  let lines := addressLines E img image in
  let n := List.length lines in
  let x := Num.sub w (padding w) in
  let y0 := Num.sub h (padding w) in
  let y1 := Num.sub y0 (smallLineHeight w) in
  let yP := stepUp y1 (lineHeight w) n in
  let yT := Num.sub (Num.sub yP (smallLineHeight w))
                    (Num.mul (baseFontSize w) c0_2) in
  {| cv_width := w;
     cv_height := h;
     cv_font := Inter true (timeFontSize w);
     cv_fillStyle := Color "#38bdf8";
     cv_textAlign := "right";
     cv_textBaseline := "bottom";
     cv_ops :=
       ([OpDrawImage img c0 c0;
         OpFillRect (gradient w h n) c0 (Num.sub h (gradientHeight w n))
                    w (gradientHeight w n);
         textOp (Inter false (smallFontSize w)) "#cbd5e1"
                (coordsStr E image, x, y0)]
        ++ map (textOp (Inter true (baseFontSize w)) "#ffffff")
               (stack (rev lines) x y1 (lineHeight w))
        ++ [textOp (Inter false (smallFontSize w)) "#fbbf24"
                   ((personStr image ++ " | " ++ deviceStr image)%string,
                    x, yP);
            textOp (Inter true (timeFontSize w)) "#38bdf8"
                   (fullTimeStr E image, x, yT)])%list |}.

(** The panel height the handler computes ([totalTextHeight]) and the
    height of the gradient rectangle it paints ([gradientHeight]). *)
Definition panelHeight (E : Engine) (img : Bitmap) (image : CapturedImage)
  : num :=
  totalTextHeight (Num.of_Z (bm_width img))
                  (List.length (addressLines E img image)).

Definition paintedHeight (E : Engine) (img : Bitmap) (image : CapturedImage)
  : num :=
  gradientHeight (Num.of_Z (bm_width img))
                 (List.length (addressLines E img image)).

(** The baseline of the time line, the topmost one. *)
Definition timeBaseline (E : Engine) (img : Bitmap) (image : CapturedImage)
  : num :=
  let w := Num.of_Z (bm_width img) in
  let h := Num.of_Z (bm_height img) in
  let y1 := Num.sub (Num.sub h (padding w)) (smallLineHeight w) in
  let yP := stepUp y1 (lineHeight w) (List.length (addressLines E img image)) in
  Num.sub (Num.sub yP (smallLineHeight w)) (Num.mul (baseFontSize w) c0_2).

(** The vertical span the drawn lines take: from the lowest baseline,
    [H - padding], up to the top of the slot of the time line, which
    reserves [timeFontSize * 1.4] above its baseline. *)
Definition drawnSpan (E : Engine) (img : Bitmap) (image : CapturedImage)
  : num :=
  let w := Num.of_Z (bm_width img) in
  let h := Num.of_Z (bm_height img) in
  Num.sub (Num.sub h (padding w))
          (Num.sub (timeBaseline E img image)
                   (Num.mul (timeFontSize w) c1_4)).

(** The stack of texts as the specification words it: the coordinates
    at [H - padding], every address line one [lineHeight] above the line
    before it, the person line one [smallLineHeight] above the topmost
    address line, and the time line above the [baseFontSize * 0.2]
    margin. *)
Definition wordedStack (E : Engine) (img : Bitmap) (image : CapturedImage)
  : list (string * num * num) :=
  let w := Num.of_Z (bm_width img) in
  let h := Num.of_Z (bm_height img) in
  let lines := addressLines E img image in
  let n := List.length lines in
  let x := Num.sub w (padding w) in
  let y0 := Num.sub h (padding w) in
  let yP := Num.sub (stepUp y0 (lineHeight w) n) (smallLineHeight w) in
  ((coordsStr E image, x, y0)
   :: stack (rev lines) x (Num.sub y0 (lineHeight w)) (lineHeight w)
   ++ [((personStr image ++ " | " ++ deviceStr image)%string, x, yP);
       (fullTimeStr E image, x,
        Num.sub yP (Num.mul (baseFontSize w) c0_2))])%list.

(** The same record with another address, and with no location. *)
Definition withAddress (image : CapturedImage) (a : option string)
  : CapturedImage :=
  {| originalDataUrl := originalDataUrl image;
     processedDataUrl := processedDataUrl image;
     location :=
       match location image with
       | Some loc => Some {| lat := lat loc; lng := lng loc;
                             accuracy := accuracy loc;
                             loc_timestamp := loc_timestamp loc;
                             address := a |}
       | None => None
       end;
     timestamp := timestamp image;
     personnelName := personnelName image;
     deviceName := deviceName image |}.

Definition withoutLocation (image : CapturedImage) : CapturedImage :=
  {| originalDataUrl := originalDataUrl image;
     processedDataUrl := processedDataUrl image;
     location := None;
     timestamp := timestamp image;
     personnelName := personnelName image;
     deviceName := deviceName image |}.

Definition img500 : Bitmap :=
  {| bm_width := 500; bm_height := 375; bm_pixels := [] |}.

(** The page around one invocation: the decoded image and the metadata
    record the handler reads, the canvas it paints on, and the data URLs
    it has handed to [onProcessed]. *)
Record Page : Type := {
  pg_img : Bitmap;
  pg_image : CapturedImage;
  pg_canvas : Canvas;
  pg_processed : list string
}.

Definition invoke (E : Engine) (pg : Page) : Page :=
  let (url, cv) := onload E (pg_img pg) (pg_image pg) (pg_canvas pg) in
  {| pg_img := pg_img pg;
     pg_image := pg_image pg;
     pg_canvas := cv;
     pg_processed := (pg_processed pg ++ [url])%list |}.

(** The whitespace-normalized form of a string, in the sense the
    specification uses for the wrapper's input: runs of spaces collapse
    to one space and spaces at either end are dropped. *)
Definition normalize_space (s : string) : string :=
  join_space (filter (fun w => negb (String.eqb w "")) (split_space s)).

(** ** Wrapped lines and baselines, observed *)

(** Consecutive lines of a wrapped text each end where the next word
    did not fit: the earlier line, a space and the first word of the
    later line do not measure below [maxW]. *)
Fixpoint forcedBreaks (E : Engine) (font : Font) (maxW : num)
         (lines : list string) : Prop :=
  match lines with
  | l :: ((l' :: _) as rest) =>
      Num.ltb (measureText E font (l ++ " " ++ hd "" (split_space l'))) maxW
      = false
      /\ forcedBreaks E font maxW rest
  | _ => True
  end.

(** A string that holds no space. *)
Fixpoint noSpace (s : string) : bool :=
  match s with
  | EmptyString => true
  | String c s' => negb (Ascii.eqb c " "%char) && noSpace s'
  end.

(** A run of baselines in paint order, each strictly above (smaller
    than) the one painted before it. *)
Fixpoint descendingFrom (y : num) (ys : list num) : bool :=
  match ys with
  | [] => true
  | y' :: rest => Num.ltb y' y && descendingFrom y' rest
  end.

Definition descending (ys : list num) : bool :=
  match ys with
  | [] => true
  | y :: rest => descendingFrom y rest
  end.

(** A wide, low image. *)
Definition imgStrip : Bitmap :=
  {| bm_width := 4000; bm_height := 800; bm_pixels := [] |}.

(** ** The page state (App.tsx) *)

(** [handleProcessedImage]: the updater it hands to [setCurrentImage],
    applied to the stored record ([None] is [null]). *)
Definition handleProcessedImage (url : string) (prev : option CapturedImage)
  : option CapturedImage :=
  match prev with
  | Some p =>
      Some {| originalDataUrl := originalDataUrl p;
              processedDataUrl := Some url;
              location := location p;
              timestamp := timestamp p;
              personnelName := personnelName p;
              deviceName := deviceName p |}
  | None => None
  end.

(** Two records that carry the same photo, time, names, coordinates
    and address. *)
Definition sameStamp (a b : CapturedImage) : Prop :=
  originalDataUrl a = originalDataUrl b
  /\ timestamp a = timestamp b
  /\ personnelName a = personnelName b
  /\ deviceName a = deviceName b
  /\ match location a, location b with
     | Some la, Some lb =>
         lat la = lat lb /\ lng la = lng lb /\ address la = address lb
     | None, None => True
     | _, _ => False
     end.

(** A fix as [watchPosition] reports it: [pos.coords] and
    [pos.timestamp]. *)
Record Position : Type := {
  latitude : num;
  longitude : num;
  pos_accuracy : num;
  pos_timestamp : num
}.

(** The success callback of [watchPosition] in [startGeolocation]: the
    updater it hands to [setLocation], applied to the stored location
    ([None] is [undefined]). *)
Definition onPosition (pos : Position) (prev : option GeoLocation)
  : option GeoLocation :=
  Some {| lat := latitude pos;
          lng := longitude pos;
          accuracy := pos_accuracy pos;
          loc_timestamp := pos_timestamp pos;
          address := match prev with
                     | Some p => address p
                     | None => None
                     end |}.

(** The [location] state after a run of fixes, from its initial
    [undefined]; nothing else sets it. *)
Definition watched (fixes : list Position) : option GeoLocation :=
  fold_left (fun st pos => onPosition pos st) fixes None.

(** [capturePhoto]: the record of its first [setCurrentImage], from the
    frame's data URL, the [location] and [personnelName] states, the
    clock and [getDeviceName()]. *)
Definition capturePhoto (dataUrl : string) (loc : option GeoLocation)
           (now : Z) (name device : string) : CapturedImage :=
  {| originalDataUrl := dataUrl;
     processedDataUrl := None;
     location := loc;
     timestamp := now;
     personnelName := name;
     deviceName := device |}.

(** ** Reverse geocoding (App.tsx) *)

(** The fields [fetchAddress] reads of the answer of the geocoder, each
    a string as the geocoder sends it; a field that is missing is
    [None]. *)
Record GeoAddress : Type := {
  house_number : option string;
  road : option string;
  suburb : option string;
  neighbourhood : option string;
  city : option string;
  town : option string
}.

Record GeoData : Type := {
  data_address : option GeoAddress;
  display_name : option string
}.

(** What [fetch] and [response.json()] come to: an exception, or the
    parsed body ([None] is [null]). *)
Inductive Fetched : Type :=
| FetchError
| FetchJson (data : option GeoData).

(** Truthiness of an optional string, [a || b], and [parts.join(sep)]. *)
Definition truthy (o : option string) : bool :=
  match o with
  | Some s => negb (String.eqb s "")
  | None => false
  end.

Definition orElse (a b : option string) : option string :=
  if truthy a then a else b.

Fixpoint join (sep : string) (parts : list string) : string :=
  match parts with
  | [] => ""
  | [p] => p
  | p :: rest => p ++ sep ++ join sep rest
  end.

(** [if (field) parts.push(field)]. *)
Definition pushIf (field : option string) (parts : list string)
  : list string :=
  match field with
  | Some s => if String.eqb s "" then parts else (parts ++ [s])%list
  | None => parts
  end.

(** The parts [fetchAddress] collects, in order. *)
Definition addressParts (a : GeoAddress) : list string :=
  let parts := [] in
  let parts := pushIf (house_number a) parts in
  let parts := pushIf (road a) parts in
  let parts := if truthy (suburb a) then pushIf (suburb a) parts
               else pushIf (neighbourhood a) parts in
  pushIf (orElse (city a) (town a)) parts.

(** [fetchAddress], on what the request came to; [None] is the
    [undefined] it returns when nothing was collected and the answer has
    no [display_name]. *)
Definition fetchAddress (r : Fetched) : option string :=
  match r with
  | FetchError => Some ""
  | FetchJson None => Some ""
  | FetchJson (Some data) =>
      match data_address data with
      | None => Some ""
      | Some a =>
          orElse (Some (join ", " (addressParts a))) (display_name data)
      end
  end.

(** Some part of the address is there to collect. *)
Definition anyPart (a : GeoAddress) : bool :=
  truthy (house_number a) || truthy (road a) || truthy (suburb a)
  || truthy (neighbourhood a) || truthy (city a) || truthy (town a).

(** The answer of the geocoder with the given address and name. *)
Definition answer (a : GeoAddress) (name : option string) : Fetched :=
  FetchJson (Some {| data_address := Some a; display_name := name |}).

Definition withNeighbourhood (a : GeoAddress) (x : option string)
  : GeoAddress :=
  {| house_number := house_number a; road := road a; suburb := suburb a;
     neighbourhood := x; city := city a; town := town a |}.

Definition withTown (a : GeoAddress) (x : option string) : GeoAddress :=
  {| house_number := house_number a; road := road a; suburb := suburb a;
     neighbourhood := neighbourhood a; city := city a; town := x |}.

(** ** Closed forms and further observations *)

(** Rounding [m / 2^n] to the nearest integer, ties to even. *)
Definition nearest_even (m n : Z) : Z :=
  let q := m / 2 ^ n in
  match (2 * (m mod 2 ^ n) ?= 2 ^ n)%Z with
  | Lt => q
  | Eq => if Z.even q then q else q + 1
  | Gt => q + 1
  end.

(** The value of [Math.floor(b * 0.7)] on doubles, in closed form: the
    double nearest to 0.7 lies below 0.7, so on a multiple of ten the
    product lies below the integer [7 * b / 10], and it is rounded up to
    that integer only when the integer is less than a quarter of a
    binade above the power of two below it. *)
Definition floor_0_7 (b : Z) : Z :=
  if ((b mod 10 =? 0) && (2 ^ Z.log2 (7 * b / 10) <? 4 * (b / 10)))%Z
  then 7 * b / 10 - 1
  else 7 * b / 10.

(** The small size as the specification words it, in exact
    arithmetic: [floor(baseFontSize * 0.7)]. *)
Definition wordedSmallFontSize (W : Z) : Z :=
  7 * Z.max 24 (35 * W / 1000) / 10.

(** The alignment and the baseline mode of each painted text, oldest
    first. *)
Fixpoint textAligns (ops : list DrawOp) : list (string * string) :=
  match ops with
  | [] => []
  | OpFillText _ _ _ _ _ align baseline :: rest =>
      (align, baseline) :: textAligns rest
  | _ :: rest => textAligns rest
  end.

(** * Properties *)

(** ** Strings *)

Lemma append_assoc (a b c : string) : (a ++ b) ++ c = a ++ (b ++ c).
Proof.
  induction a as [|x a IH]; simpl; [reflexivity | now rewrite IH].
Qed.

Lemma append_empty_r (a : string) : a ++ "" = a.
Proof.
  induction a as [|x a IH]; simpl; [reflexivity | now rewrite IH].
Qed.

Lemma split_space_not_nil (s : string) : split_space s <> [].
Proof.
  induction s as [|c s IH]; simpl; [discriminate|].
  destruct (Ascii.eqb c " "); [discriminate|].
  destruct (split_space s); discriminate.
Qed.

Lemma join_space_cons (w : string) (ws : list string) :
  ws <> [] -> join_space (w :: ws) = w ++ " " ++ join_space ws.
Proof.
  destruct ws; [congruence | reflexivity].
Qed.

Lemma join_split (s : string) : join_space (split_space s) = s.
Proof.
  induction s as [|c s IH]; [reflexivity|].
  simpl split_space.
  destruct (Ascii.eqb c " ") eqn:Hc.
  - apply Ascii.eqb_eq in Hc; subst c.
    rewrite join_space_cons by apply split_space_not_nil.
    now rewrite IH.
  - pose proof (split_space_not_nil s) as Hne.
    destruct (split_space s) as [|w ws]; [congruence|].
    destruct ws as [|w' ws].
    + simpl in *. now rewrite IH.
    + change (join_space (w :: w' :: ws))
        with (w ++ " " ++ join_space (w' :: ws)) in IH.
      change (join_space (String c w :: w' :: ws))
        with (String c (w ++ " " ++ join_space (w' :: ws))).
      now rewrite IH.
Qed.

(** Merging two neighbours of a list with a space does not change what
    the list joins to. *)
Lemma join_space_merge (l1 l2 : list string) (a b : string) :
  join_space (l1 ++ (a ++ " " ++ b) :: l2)
  = join_space (l1 ++ a :: b :: l2).
Proof.
  induction l1 as [|x l1 IH].
  - rewrite !app_nil_l. rewrite (join_space_cons a) by discriminate.
    destruct l2 as [|c l2].
    + reflexivity.
    + rewrite !join_space_cons by discriminate.
      now rewrite !append_assoc.
  - rewrite <- !app_comm_cons.
    rewrite (join_space_cons x (l1 ++ (a ++ " " ++ b) :: l2))
      by (destruct l1; discriminate).
    rewrite (join_space_cons x (l1 ++ a :: b :: l2))
      by (destruct l1; discriminate).
    now rewrite IH.
Qed.

Lemma join_space_snoc (g : list string) (w : string) :
  g <> [] -> join_space (g ++ [w]) = join_space g ++ " " ++ w.
Proof.
  induction g as [|x g IH]; [congruence|]. intros _.
  destruct g as [|y g].
  - reflexivity.
  - change ((x :: y :: g) ++ [w])%list with (x :: ((y :: g) ++ [w]))%list.
    rewrite join_space_cons by discriminate.
    rewrite IH by discriminate.
    rewrite (join_space_cons x) by discriminate.
    now rewrite !append_assoc.
Qed.

(** ** The wrapper *)

Section Wrapper.

Context (E : Engine).

Lemma wrapLoop_cons (maxW : num) (w : string) (rest lines : list string)
      (cur : string) (cv : Canvas) :
  wrapLoop E maxW (w :: rest) lines cur cv
  = if Num.ltb (measureText E (cv_font cv) (cur ++ " " ++ w)) maxW
    then wrapLoop E maxW rest lines (cur ++ " " ++ w) cv
    else wrapLoop E maxW rest (lines ++ [cur])%list w cv.
Proof.
  cbn [wrapLoop]. unfold bind, measure.
  destruct (Num.ltb _ maxW); reflexivity.
Qed.

(** Measuring does not touch the canvas, so the loop leaves it as it
    found it. *)
Lemma wrapLoop_canvas (maxW : num) (words lines : list string)
      (cur : string) (cv : Canvas) :
  snd (wrapLoop E maxW words lines cur cv) = cv.
Proof.
  revert lines cur.
  induction words as [|w rest IH]; intros lines cur; [reflexivity|].
  rewrite wrapLoop_cons.
  destruct (Num.ltb _ maxW); apply IH.
Qed.

Lemma wrapLoop_join (maxW : num) (words lines : list string)
      (cur : string) (cv : Canvas) :
  join_space (fst (wrapLoop E maxW words lines cur cv))
  = join_space (lines ++ cur :: words).
Proof.
  revert lines cur.
  induction words as [|w rest IH]; intros lines cur; [reflexivity|].
  rewrite wrapLoop_cons.
  destruct (Num.ltb _ maxW).
  - rewrite IH. apply join_space_merge.
  - rewrite IH. now rewrite <- app_assoc.
Qed.

(** The lines are consecutive groups of whole words. *)
Lemma wrapLoop_groups (maxW : num) (words : list string) (cv : Canvas) :
  forall (gs : list (list string)) (g : list string),
    g <> [] -> Forall (fun g' => g' <> []) gs ->
    exists gs',
      fst (wrapLoop E maxW words (map join_space gs) (join_space g) cv)
      = map join_space gs'
      /\ List.concat gs' = (List.concat gs ++ g ++ words)%list
      /\ Forall (fun g' => g' <> []) gs'.
Proof.
  induction words as [|w rest IH]; intros gs g Hg Hgs.
  - exists (gs ++ [g])%list. simpl. rewrite map_app. split; [reflexivity|].
    split.
    + rewrite concat_app. simpl. now rewrite !app_nil_r.
    + apply Forall_app. split; [assumption | now constructor].
  - rewrite wrapLoop_cons.
    destruct (Num.ltb _ maxW).
    + rewrite <- join_space_snoc by assumption.
      destruct (IH gs (g ++ [w])%list) as (gs' & H1 & H2 & H3);
        [now destruct g | assumption |].
      exists gs'. split; [assumption|]. split; [|assumption].
      rewrite H2. now rewrite <- !app_assoc.
    + change [join_space g] with (map join_space [g]).
      rewrite <- map_app.
      destruct (IH (gs ++ [g])%list [w]) as (gs' & H1 & H2 & H3);
        [discriminate | |].
      { apply Forall_app. split; [assumption | now constructor]. }
      exists gs'. split; [exact H1|]. split; [|assumption].
      rewrite H2, concat_app. simpl. now rewrite app_nil_r, <- !app_assoc.
Qed.

(** Whatever is returned is a word of the text or was measured below
    the limit before it was kept. *)
Lemma wrapLoop_width (maxW : num) (all : list string) (cv : Canvas)
      (words : list string) :
  let ok line :=
    Num.ltb (measureText E (cv_font cv) line) maxW = true \/ In line all in
  forall (lines : list string) (cur : string),
    incl words all -> Forall ok lines -> ok cur ->
    Forall ok (fst (wrapLoop E maxW words lines cur cv)).
Proof.
  intros ok. induction words as [|w rest IH]; intros lines cur Hin Hl Hc.
  - simpl. apply Forall_app. split; [assumption | now constructor].
  - rewrite wrapLoop_cons.
    assert (incl rest all) by (intros x Hx; apply Hin; now right).
    destruct (Num.ltb _ maxW) eqn:Hlt.
    + apply IH; [assumption | assumption | now left].
    + apply IH; [assumption | | right; apply Hin; now left].
      apply Forall_app. split; [assumption | now constructor].
Qed.

End Wrapper.

(** ** Numbers: order *)

Lemma ltb_leb (a b : num) : Num.ltb a b = true -> Num.leb a b = true.
Proof.
  unfold Num.ltb, Num.leb, SFltb, SFleb.
  destruct (SFcompare a b) as [[]|]; congruence.
Qed.

(** ** Numbers: rounding *)

Lemma digits2_pos_bounds (p : positive) :
  2 ^ (Zpos (digits2_pos p) - 1) <= Zpos p < 2 ^ Zpos (digits2_pos p).
Proof.
  induction p as [p IH|p IH|]; cbn [digits2_pos].
  - rewrite Pos2Z.inj_succ, (Pos2Z.inj_xI p).
    replace (Z.succ (Zpos (digits2_pos p)) - 1)
      with (Z.succ (Zpos (digits2_pos p) - 1)) by lia.
    rewrite !Z.pow_succ_r by lia.
    set (A := 2 ^ (Zpos (digits2_pos p) - 1)) in *.
    set (B := 2 ^ Zpos (digits2_pos p)) in *. lia.
  - rewrite Pos2Z.inj_succ, (Pos2Z.inj_xO p).
    replace (Z.succ (Zpos (digits2_pos p)) - 1)
      with (Z.succ (Zpos (digits2_pos p) - 1)) by lia.
    rewrite !Z.pow_succ_r by lia.
    set (A := 2 ^ (Zpos (digits2_pos p) - 1)) in *.
    set (B := 2 ^ Zpos (digits2_pos p)) in *. lia.
  - simpl. lia.
Qed.

Lemma digits2_pos_unique (p : positive) (k : Z) :
  2 ^ (k - 1) <= Zpos p < 2 ^ k -> Zpos (digits2_pos p) = k.
Proof.
  intros [Hlo Hhi].
  pose proof (digits2_pos_bounds p) as [Blo Bhi].
  set (d := Zpos (digits2_pos p)) in *.
  assert (0 < d) by (unfold d; lia).
  assert (0 < k).
  { destruct (Z_lt_le_dec 0 k) as [|Hk]; [assumption|].
    assert (2 ^ k <= 1).
    { destruct (Z.eq_dec k 0) as [->|]; [simpl; lia|].
      rewrite Z.pow_neg_r by lia. lia. }
    lia. }
  destruct (Z_lt_le_dec d k) as [Hlt|Hge].
  - assert (2 ^ d <= 2 ^ (k - 1)) by (apply Z.pow_le_mono_r; lia). lia.
  - destruct (Z_lt_le_dec k d) as [Hlt'|]; [|lia].
    assert (2 ^ k <= 2 ^ (d - 1)) by (apply Z.pow_le_mono_r; lia). lia.
Qed.

(** One step of the right shift. *)
Lemma shr_1_spec (r : shr_record) :
  0 <= shr_m r ->
  shr_m (shr_1 r) = shr_m r / 2
  /\ shr_r (shr_1 r) = Z.odd (shr_m r)
  /\ shr_s (shr_1 r) = shr_r r || shr_s r.
Proof.
  destruct r as [m r s]. cbn [shr_m shr_r shr_s]. intros Hm.
  rewrite <- Z.div2_div.
  destruct m as [|[p|p|]|p]; try lia; cbn; auto.
Qed.

Lemma iter_pos_inv {A : Type} (f : A -> A) (I : Z -> A -> Prop) :
  (forall k x, 0 <= k -> I k x -> I (k + 1) (f x)) ->
  forall (p : positive) (k : Z) (x : A),
    0 <= k -> I k x -> I (k + Zpos p) (iter_pos f p x).
Proof.
  intros step. induction p as [p IH|p IH|]; intros k x Hk Hx; cbn [iter_pos].
  - replace (k + Zpos p~1) with (((k + 1) + Zpos p) + Zpos p) by lia.
    apply IH; [lia|]. apply IH; [lia|]. now apply step.
  - replace (k + Zpos p~0) with ((k + Zpos p) + Zpos p) by lia.
    apply IH; [lia|]. now apply IH.
  - now apply step.
Qed.

(** [n] steps of the right shift divide by [2^n]; nothing is recorded as
    lost when the division is exact. *)
Lemma shr_iter_spec (m : Z) (p : positive) :
  0 <= m ->
  let r := iter_pos shr_1 p (Build_shr_record m false false) in
  shr_m r = m / 2 ^ Zpos p
  /\ (m mod 2 ^ Zpos p = 0 -> shr_r r = false /\ shr_s r = false).
Proof.
  intros Hm r.
  pose (I := fun (k : Z) (x : shr_record) =>
               shr_m x = m / 2 ^ k
               /\ (m mod 2 ^ k = 0 -> shr_r x = false /\ shr_s x = false)).
  assert (HI : I (0 + Zpos p) r).
  { apply (iter_pos_inv shr_1 I); [|lia|].
    - intros k x Hk [Hx1 Hx2].
      assert (Hpos : 0 <= shr_m x).
      { rewrite Hx1. apply Z.div_pos; [assumption|]. apply Z.pow_pos_nonneg; lia. }
      destruct (shr_1_spec x Hpos) as (H1 & H2 & H3).
      assert (Hpow : 2 ^ (k + 1) = 2 ^ k * 2) by (rewrite Z.pow_add_r; lia).
      assert (H2k : 0 < 2 ^ k) by (apply Z.pow_pos_nonneg; lia).
      split.
      + rewrite H1, Hx1, Hpow. rewrite Z.div_div by lia. reflexivity.
      + intros Hex. rewrite H2, H3, Hx1.
        assert (Hm0 : m mod 2 ^ k = 0 /\ Z.odd (m / 2 ^ k) = false).
        { rewrite Hpow in Hex.
          rewrite Z.rem_mul_r in Hex by lia.
          pose proof (Z.mod_pos_bound m (2 ^ k) H2k).
          pose proof (Z.mod_pos_bound (m / 2 ^ k) 2 ltac:(lia)).
          assert (m mod 2 ^ k = 0) by nia.
          assert ((m / 2 ^ k) mod 2 = 0) by nia.
          split; [assumption|].
          rewrite Zmod_odd in H5. destruct (Z.odd (m / 2 ^ k)); [lia | reflexivity]. }
        destruct Hm0 as [Hm0 Hodd]. destruct (Hx2 Hm0) as [-> ->].
        now rewrite Hodd.
    - split; [simpl; now rewrite Z.div_1_r|]. intros _. now split. }
  exact HI.
Qed.

Lemma round_nearest_even_spec (q : Z) (l : SpecFloat.location) :
  (round_nearest_even q l = q \/ round_nearest_even q l = q + 1)
  /\ (l = loc_Exact -> round_nearest_even q l = q).
Proof.
  split; [|intros ->; reflexivity].
  destruct l as [|[]]; cbn; auto. destruct (Z.even q); auto.
Qed.

Lemma pow2_pos (k : Z) : 0 <= k -> 0 < 2 ^ k.
Proof. intros. apply Z.pow_pos_nonneg; lia. Qed.

Lemma pow2_split (a b : Z) : 0 <= a -> 0 <= b -> 2 ^ (a + b) = 2 ^ a * 2 ^ b.
Proof. intros. now rewrite Z.pow_add_r. Qed.

(** A mantissa of at most 53 digits is kept as it is. *)
Lemma binary_round_aux_exact (s : bool) (P : positive) (e : Z) :
  Zpos (digits2_pos P) <= 53 -> -1074 <= e <= 971 ->
  binary_round_aux 53 1024 s (Zpos P) e loc_Exact = S754_finite s P e.
Proof.
  intros Hd He.
  assert (Hshr : shr_fexp 53 1024 (Zpos P) e loc_Exact
                 = (Build_shr_record (Zpos P) false false, e)).
  { unfold shr_fexp, fexp, emin. cbn [Zdigits2 shr_record_of_loc].
    destruct (Z.max (Zpos (digits2_pos P) + e - 53) (3 - 1024 - 53) - e)
      as [|p|p] eqn:Hn; try reflexivity. lia. }
  unfold binary_round_aux. rewrite Hshr.
  cbn [shr_m loc_of_shr_record round_nearest_even]. rewrite Hshr.
  cbn [shr_m].
  destruct (Z.leb_spec e (1024 - 53)); [reflexivity | lia].
Qed.

(** A longer mantissa is cut to 53 digits: the result is the quotient
    [q] of the cut or [q + 1], and [q] when nothing is cut off. *)
Lemma binary_round_aux_round (s : bool) (P : positive) (e : Z) :
  let d := Zpos (digits2_pos P) in
  let n := d - 53 in
  let q := Zpos P / 2 ^ n in
  53 <= d -> -1074 <= e + n -> e + d <= 1023 ->
  exists m' e',
    binary_round_aux 53 1024 s (Zpos P) e loc_Exact = S754_finite s m' e'
    /\ Zpos (digits2_pos m') = 53
    /\ e + n <= e' <= e + n + 1
    /\ (Zpos m' * 2 ^ (e' - e - n) = q \/ Zpos m' * 2 ^ (e' - e - n) = q + 1)
    /\ (Zpos P mod 2 ^ n = 0 -> Zpos m' = q /\ e' = e + n).
Proof.
  intros d n q Hd Hlo Hhi.
  destruct (Z.eq_dec n 0) as [Hn0|Hn0].
  { assert (d = 53) by (unfold n in Hn0; lia).
    exists P, e. rewrite binary_round_aux_exact by (fold d; lia).
    assert (Hq : q = Zpos P) by (unfold q; rewrite Hn0; apply Z.div_1_r).
    rewrite Hq, Hn0. replace (e - e - 0) with 0 by lia.
    repeat split; lia. }
  assert (Hn : 0 < n) by (unfold n in *; lia).
  set (p := Z.to_pos n).
  assert (En : Zpos p = n) by (unfold p; rewrite Z2Pos.id; lia).
  pose proof (digits2_pos_bounds P) as [Blo Bhi]. fold d in Blo, Bhi.
  assert (H2n : 0 < 2 ^ n) by (apply pow2_pos; lia).
  assert (Hq : 2 ^ 52 <= q < 2 ^ 53).
  { unfold q. split.
    - apply Z.div_le_lower_bound; [lia|].
      replace (d - 1) with (n + 52) in Blo by (unfold n; lia).
      rewrite pow2_split in Blo by lia. lia.
    - apply Z.div_lt_upper_bound; [lia|].
      replace d with (n + 53) in Bhi by (unfold n; lia).
      rewrite pow2_split in Bhi by lia. lia. }
  (* the first shift *)
  destruct (shr_iter_spec (Zpos P) p ltac:(lia)) as [Hm Hex].
  rewrite En in Hm, Hex. fold q in Hm.
  set (r1 := iter_pos shr_1 p (Build_shr_record (Zpos P) false false)) in *.
  assert (Hshr1 : shr_fexp 53 1024 (Zpos P) e loc_Exact = (r1, e + n)).
  { unfold shr_fexp, fexp, emin. cbn [Zdigits2 shr_record_of_loc]. fold d.
    replace (Z.max (d + e - 53) (3 - 1024 - 53) - e) with (Zpos p)
      by (rewrite En; unfold n in *; lia).
    cbn [shr]. now rewrite En. }
  (* the rounded mantissa *)
  set (m1 := round_nearest_even (shr_m r1) (loc_of_shr_record r1)).
  assert (Hm1 : (m1 = q \/ m1 = q + 1)
                /\ (Zpos P mod 2 ^ n = 0 -> m1 = q)).
  { unfold m1. rewrite Hm. split.
    - apply round_nearest_even_spec.
    - intros H0. destruct (Hex H0) as [Hr Hs].
      destruct r1 as [mm rr ss]. cbn in Hr, Hs. subst rr ss. reflexivity. }
  destruct Hm1 as [Hm1 Hm1ex].
  unfold binary_round_aux. rewrite Hshr1. fold m1.
  destruct (Z_lt_le_dec m1 (2 ^ 53)) as [Hsmall|Hbig].
  - (* no carry *)
    destruct m1 as [|m1p|m1p] eqn:Em1; try lia.
    assert (Hd1 : Zpos (digits2_pos m1p) = 53)
      by (apply digits2_pos_unique; lia).
    assert (Hshr2 : shr_fexp 53 1024 (Zpos m1p) (e + n) loc_Exact
                    = (Build_shr_record (Zpos m1p) false false, e + n)).
    { unfold shr_fexp, fexp, emin. cbn [Zdigits2 shr_record_of_loc].
      rewrite Hd1.
      destruct (Z.max (53 + (e + n) - 53) (3 - 1024 - 53) - (e + n))
        as [|p'|p'] eqn:Hn'; try reflexivity. lia. }
    rewrite Hshr2. cbn [shr_m].
    destruct (Z.leb_spec (e + n) (1024 - 53)); [|unfold n in *; lia].
    exists m1p, (e + n). split; [reflexivity|]. split; [exact Hd1|].
    split; [lia|]. replace (e + n - e - n) with 0 by lia.
    rewrite Z.mul_1_r. split; [lia|].
    intros H0. split; [now apply Hm1ex | reflexivity].
  - (* carry: the mantissa is 2^53 *)
    assert (Em1 : m1 = 2 ^ 53) by lia.
    assert (Hq1 : q + 1 = 2 ^ 53) by lia.
    rewrite Em1.
    assert (Hshr2 : shr_fexp 53 1024 (2 ^ 53) (e + n) loc_Exact
                    = (Build_shr_record (2 ^ 52) false false, e + n + 1)).
    { unfold shr_fexp, fexp, emin.
      change (Zdigits2 (2 ^ 53)) with 54.
      replace (Z.max (54 + (e + n) - 53) (3 - 1024 - 53) - (e + n)) with 1
        by lia.
      reflexivity. }
    rewrite Hshr2. cbn [shr_m].
    change (2 ^ 52) with (Zpos (2 ^ 52)%positive).
    cbv iota beta.
    destruct (Z.leb_spec (e + n + 1) (1024 - 53)); [|unfold n in *; lia].
    exists (2 ^ 52)%positive, (e + n + 1).
    split; [reflexivity|]. split; [reflexivity|]. split; [lia|].
    replace (e + n + 1 - e - n) with 1 by lia.
    split.
    + right. rewrite Hq1. reflexivity.
    + intros H0. specialize (Hm1ex H0). lia.
Qed.

Lemma iter_xO_spec (m d : positive) :
  Zpos (Pos.iter xO m d) = Zpos m * 2 ^ Zpos d
  /\ Zpos (digits2_pos (Pos.iter xO m d)) = Zpos (digits2_pos m) + Zpos d.
Proof.
  apply (Pos.iter_ind positive xO m
           (fun d r => Zpos r = Zpos m * 2 ^ Zpos d
                       /\ Zpos (digits2_pos r) = Zpos (digits2_pos m) + Zpos d)).
  - split; [rewrite (Pos2Z.inj_xO m); simpl; lia|].
    cbn [digits2_pos]. lia.
  - intros p r [H1 H2]. split.
    + rewrite (Pos2Z.inj_xO r), H1, Pos2Z.inj_succ, Z.pow_succ_r by lia. lia.
    + cbn [digits2_pos]. lia.
Qed.

Lemma binary_round_spec (s : bool) (P : positive) (e : Z) :
  let d := Zpos (digits2_pos P) in
  let f := Z.max (d + e - 53) (-1074) in
  let X := Zpos P * 2 ^ (e + 1074) in
  let g := 2 ^ (f + 1074) in
  -1074 <= e -> d + e <= 1023 ->
  exists m' e',
    binary_round 53 1024 s P e = S754_finite s m' e'
    /\ canon_me m' e'
    /\ (Zpos m' * 2 ^ (e' + 1074) = X / g * g
        \/ Zpos m' * 2 ^ (e' + 1074) = X / g * g + g)
    /\ (X mod g = 0 -> Zpos m' * 2 ^ (e' + 1074) = X).
Proof.
  intros d f X g He Hhi.
  assert (Hd : 1 <= d) by (unfold d; lia).
  assert (Hg : 0 < g) by (apply pow2_pos; unfold f; lia).
  unfold binary_round, fexp, emin. fold d.
  replace (Z.max (d + e - 53) (3 - 1024 - 53)) with f by (unfold f; lia).
  destruct (Z_lt_le_dec f e) as [Hfe|Hfe].
  - (* the mantissa is shifted left to the exponent [f] *)
    set (k := Z.to_pos (e - f)).
    assert (Ek : Zpos k = e - f) by (unfold k; rewrite Z2Pos.id; lia).
    assert (Hal : shl_align P e f = (Pos.iter xO P k, f)).
    { unfold shl_align. replace (f - e) with (Zneg k) by lia. reflexivity. }
    rewrite Hal.
    destruct (iter_xO_spec P k) as [Hv Hdig]. fold d in Hdig.
    rewrite binary_round_aux_exact by (unfold f in *; lia).
    exists (Pos.iter xO P k), f.
    assert (HX : X = Zpos (Pos.iter xO P k) * g).
    { unfold X, g. rewrite Hv, Ek.
      replace (e + 1074) with ((e - f) + (f + 1074)) by lia.
      rewrite pow2_split by (unfold f; lia). lia. }
    split; [reflexivity|]. split.
    { unfold canon_me. split; [unfold f in *; lia|].
      unfold f in *. destruct (Z.max_spec (d + e - 53) (-1074)) as [[? ?]|[? ?]].
      - right. lia.
      - left. lia. }
    fold g. rewrite HX, Z.div_mul by lia. split; [now left | reflexivity].
  - assert (Hal : shl_align P e f = (P, e)).
    { unfold shl_align. destruct (f - e) eqn:Hfe'; try reflexivity. lia. }
    rewrite Hal.
    destruct (Z_le_gt_dec d 53) as [Hd53|Hd53].
    + (* nothing to cut *)
      rewrite binary_round_aux_exact by (fold d; unfold f in *; lia).
      exists P, e. split; [reflexivity|].
      assert (Hf : f = e) by (unfold f in *; lia).
      split.
      { unfold canon_me. fold d. split; [lia|]. unfold f in *. lia. }
      fold X. unfold g. rewrite Hf.
      assert (HX : X = Zpos P * 2 ^ (e + 1074)) by reflexivity.
      rewrite HX, Z.div_mul by (apply Z.neq_sym, Z.lt_neq, pow2_pos; lia).
      split; [now left | reflexivity].
    + (* the mantissa is cut to 53 digits *)
      destruct (binary_round_aux_round s P e) as (m' & e' & H1 & H2 & H3 & H4 & H5);
        fold d; try lia.
      fold d in H3, H4, H5.
      set (n := d - 53) in *.
      assert (Hf : f = e + n) by (unfold f, n; lia).
      assert (H2n : 0 < 2 ^ n) by (apply pow2_pos; unfold n; lia).
      assert (Hgn : g = 2 ^ n * 2 ^ (e + 1074)).
      { unfold g. rewrite Hf. replace (e + n + 1074) with (n + (e + 1074)) by lia.
        apply pow2_split; lia. }
      assert (H2e : 0 < 2 ^ (e + 1074)) by (apply pow2_pos; lia).
      assert (HXg : X / g = Zpos P / 2 ^ n).
      { unfold X. rewrite Hgn. rewrite Z.div_mul_cancel_r by lia. reflexivity. }
      assert (Hval : Zpos m' * 2 ^ (e' + 1074)
                     = Zpos m' * 2 ^ (e' - e - n) * g).
      { unfold g. rewrite Hf.
        replace (e' + 1074) with ((e' - e - n) + (e + n + 1074)) by lia.
        rewrite pow2_split by lia. lia. }
      exists m', e'. split; [exact H1|]. split.
      { unfold canon_me. split; [lia | now left]. }
      rewrite Hval, HXg. split.
      * destruct H4 as [-> | ->]; [now left | right; lia].
      * intros Hex.
        assert (HP : Zpos P mod 2 ^ n = 0).
        { unfold X in Hex. rewrite Hgn in Hex.
          rewrite Z.mul_mod_distr_r in Hex by lia. nia. }
        destruct (H5 HP) as [Hq He'].
        replace (e' - e - n) with 0 by lia. rewrite Z.mul_1_r, Hq.
        unfold X. rewrite Hgn.
        pose proof (Z.div_mod (Zpos P) (2 ^ n) ltac:(lia)) as Hdm.
        rewrite HP in Hdm. nia.
Qed.

(** An integer below [2^53] is held exactly, with a full mantissa. *)
Lemma of_Z_pos (n : Z) :
  0 < n < 2 ^ 53 ->
  exists (m : positive) (d : Z),
    Num.of_Z n = S754_finite false m (d - 53)
    /\ Zpos (digits2_pos m) = 53
    /\ 1 <= d <= 53
    /\ 2 ^ (d - 1) <= n < 2 ^ d
    /\ Zpos m = n * 2 ^ (53 - d).
Proof.
  intros Hn. destruct n as [|P|P]; try lia.
  pose proof (digits2_pos_bounds P) as HB.
  set (d := Zpos (digits2_pos P)) in *.
  assert (Hd : 1 <= d <= 53).
  { split; [unfold d; lia|].
    destruct (Z_le_gt_dec d 53) as [|Hgt]; [assumption|].
    assert (2 ^ 53 <= 2 ^ (d - 1)) by (apply Z.pow_le_mono_r; lia). lia. }
  unfold Num.of_Z, binary_normalize, binary_round, fexp, emin, Num.prec, Num.emax.
  fold d.
  replace (Z.max (d + 0 - 53) (3 - 1024 - 53)) with (d - 53) by lia.
  destruct (Z.eq_dec d 53) as [E53|N53].
  - assert (Hal : shl_align P 0 (d - 53) = (P, 0)).
    { unfold shl_align. rewrite E53. reflexivity. }
    rewrite Hal, binary_round_aux_exact by (fold d; lia).
    exists P, d. split; [now rewrite E53|]. split; [exact E53|].
    split; [lia|]. split; [exact HB|].
    rewrite E53. change (2 ^ (53 - 53)) with 1. lia.
  - set (k := Z.to_pos (53 - d)).
    assert (Ek : Zpos k = 53 - d) by (unfold k; rewrite Z2Pos.id; lia).
    assert (Hal : shl_align P 0 (d - 53) = (Pos.iter xO P k, d - 53)).
    { unfold shl_align. replace (d - 53 - 0) with (Zneg k) by lia. reflexivity. }
    destruct (iter_xO_spec P k) as [Hv Hdig]. fold d in Hdig.
    rewrite Hal, binary_round_aux_exact by lia.
    exists (Pos.iter xO P k), d. split; [reflexivity|]. split; [lia|].
    split; [lia|]. split; [exact HB|].
    rewrite Hv, Ek. reflexivity.
Qed.

Lemma of_Z_iv (n : Z) :
  0 <= n < 2 ^ 53 -> iv (Num.of_Z n) = n * K.
Proof.
  intros Hn. destruct (Z.eq_dec n 0) as [->|Hn0]; [reflexivity|].
  destruct (of_Z_pos n ltac:(lia)) as (m & d & -> & _ & Hd & _ & Hm).
  cbn [iv cond_Zopp]. rewrite Hm. unfold K.
  assert (E : 2 ^ 1074 = 2 ^ (53 - d) * 2 ^ (d - 53 + 1074)).
  { rewrite <- pow2_split by lia. f_equal. lia. }
  rewrite E. ring.
Qed.

(** The product of two positive numbers with full mantissas, away from
    underflow and overflow: with [2^j] the spacing of the doubles around
    the exact product [X], the result is [X] cut down to a multiple of
    [2^j] or the next multiple, and [X] itself when [X] is a multiple. *)
Lemma mul_spec (m1 m2 : positive) (e1 e2 : Z) :
  Zpos (digits2_pos m1) = 53 -> Zpos (digits2_pos m2) = 53 ->
  -1074 <= e1 + e2 -> e1 + e2 <= 917 ->
  let X := Zpos m1 * Zpos m2 * 2 ^ (e1 + e2 + 1074) in
  exists (m' : positive) (e' j : Z),
    Num.mul (S754_finite false m1 e1) (S754_finite false m2 e2)
    = S754_finite false m' e'
    /\ Zpos (digits2_pos m') = 53
    /\ -1074 <= e' <= 971
    /\ 0 <= j /\ j <= e' + 1074 <= j + 1
    /\ 2 ^ (j + 52) <= X < 2 ^ (j + 53)
    /\ (Zpos m' * 2 ^ (e' + 1074) = X / 2 ^ j * 2 ^ j
        \/ Zpos m' * 2 ^ (e' + 1074) = X / 2 ^ j * 2 ^ j + 2 ^ j)
    /\ (X mod 2 ^ j = 0 -> Zpos m' * 2 ^ (e' + 1074) = X).
Proof.
  intros D1 D2 Hlo Hhi X.
  pose proof (digits2_pos_bounds m1) as B1. rewrite D1 in B1.
  pose proof (digits2_pos_bounds m2) as B2. rewrite D2 in B2.
  pose proof (digits2_pos_bounds (m1 * m2)) as BP.
  set (d := Zpos (digits2_pos (m1 * m2))) in *.
  rewrite Pos2Z.inj_mul in BP.
  assert (Hd : 105 <= d <= 106).
  { change (2 ^ (53 - 1)) with (2 ^ 52) in *.
    assert (L : 2 ^ 104 <= Zpos m1 * Zpos m2).
    { change (2 ^ 104) with (2 ^ 52 * 2 ^ 52). nia. }
    assert (U : Zpos m1 * Zpos m2 < 2 ^ 106).
    { change (2 ^ 106) with (2 ^ 53 * 2 ^ 53). nia. }
    split.
    - destruct (Z_le_gt_dec 105 d); [assumption|].
      assert (2 ^ d <= 2 ^ 104) by (apply Z.pow_le_mono_r; lia). lia.
    - destruct (Z_le_gt_dec d 106); [assumption|].
      assert (2 ^ 106 <= 2 ^ (d - 1)) by (apply Z.pow_le_mono_r; lia). lia. }
  destruct (binary_round_aux_round false (m1 * m2) (e1 + e2))
    as (m' & e' & H1 & H2 & H3 & H4 & H5); fold d; try lia.
  fold d in H3, H4, H5. rewrite Pos2Z.inj_mul in H4, H5.
  set (n := d - 53) in *. set (e := e1 + e2) in *.
  set (j := e + n + 1074).
  assert (H2n : 0 < 2 ^ n) by (apply pow2_pos; unfold n; lia).
  assert (H2e : 0 < 2 ^ (e + 1074)) by (apply pow2_pos; lia).
  assert (Hj : 2 ^ j = 2 ^ n * 2 ^ (e + 1074)).
  { unfold j. replace (e + n + 1074) with (n + (e + 1074)) by lia.
    apply pow2_split; unfold n; lia. }
  assert (HXj : X / 2 ^ j = Zpos m1 * Zpos m2 / 2 ^ n).
  { unfold X. rewrite Hj, Z.div_mul_cancel_r by lia. reflexivity. }
  assert (Hval : Zpos m' * 2 ^ (e' + 1074)
                 = Zpos m' * 2 ^ (e' - e - n) * 2 ^ j).
  { unfold j. replace (e' + 1074) with ((e' - e - n) + (e + n + 1074)) by lia.
    rewrite pow2_split by (unfold n; lia). lia. }
  exists m', e', j. split; [exact H1|]. split; [exact H2|].
  split; [unfold n in *; lia|]. split; [unfold j, n; lia|].
  split; [unfold j; lia|]. split.
  { unfold X. fold e.
    replace (j + 52) with ((d - 1) + (e + 1074)) by (unfold j, n; lia).
    replace (j + 53) with (d + (e + 1074)) by (unfold j, n; lia).
    rewrite (pow2_split (d - 1) (e + 1074)), (pow2_split d (e + 1074)) by lia.
    split.
    - apply Z.mul_le_mono_nonneg_r; lia.
    - apply Z.mul_lt_mono_pos_r; lia. }
  rewrite Hval, HXj. split.
  - destruct H4 as [-> | ->]; [now left | right; lia].
  - intros Hex.
    assert (HP : (Zpos m1 * Zpos m2) mod 2 ^ n = 0).
    { unfold X in Hex. fold e in Hex. rewrite Hj in Hex.
      rewrite Z.mul_mod_distr_r in Hex by lia. nia. }
    destruct (H5 HP) as [Hq He'].
    replace (e' - e - n) with 0 by lia. rewrite Z.mul_1_r, Hq.
    unfold X. fold e. rewrite Hj.
    pose proof (Z.div_mod (Zpos m1 * Zpos m2) (2 ^ n) ltac:(lia)) as Hdm.
    rewrite HP in Hdm. nia.
Qed.

Lemma of_Z_compare (a b : Z) :
  0 <= a < 2 ^ 53 -> 0 <= b < 2 ^ 53 ->
  SFcompare (Num.of_Z a) (Num.of_Z b) = Some (a ?= b)%Z.
Proof.
  intros Ha Hb.
  destruct (Z.eq_dec a 0) as [->|Ha0]; destruct (Z.eq_dec b 0) as [->|Hb0].
  - reflexivity.
  - destruct (of_Z_pos b ltac:(lia)) as (mb & db & -> & _).
    cbn. destruct b; try lia. reflexivity.
  - destruct (of_Z_pos a ltac:(lia)) as (ma & da & -> & _).
    cbn. destruct a; try lia. reflexivity.
  - destruct (of_Z_pos a ltac:(lia)) as (ma & da & -> & _ & Hda & Ba & Hma).
    destruct (of_Z_pos b ltac:(lia)) as (mb & db & -> & _ & Hdb & Bb & Hmb).
    cbn [SFcompare]. f_equal.
    destruct (Z.compare_spec (da - 53) (db - 53)) as [E|L|G].
    + assert (da = db) by lia. subst db.
      change (Pos.compare_cont Eq ma mb) with (Z.compare (Zpos ma) (Zpos mb)).
      rewrite Hma, Hmb.
      symmetry. apply Zmult_compare_compat_r.
      apply Z.lt_gt, pow2_pos. lia.
    + symmetry. apply Z.compare_lt_iff.
      assert (2 ^ da <= 2 ^ (db - 1)) by (apply Z.pow_le_mono_r; lia). lia.
    + symmetry. apply Z.compare_gt_iff.
      assert (2 ^ db <= 2 ^ (da - 1)) by (apply Z.pow_le_mono_r; lia). lia.
Qed.

Lemma of_Z_leb (a b : Z) :
  0 <= a < 2 ^ 53 -> 0 <= b < 2 ^ 53 ->
  Num.leb (Num.of_Z a) (Num.of_Z b) = (a <=? b)%Z.
Proof.
  intros Ha Hb. unfold Num.leb, SFleb. rewrite of_Z_compare by assumption.
  unfold Z.leb. destruct (a ?= b)%Z; reflexivity.
Qed.

Lemma of_Z_max (a b : Z) :
  0 < a < 2 ^ 53 -> 0 <= b < 2 ^ 53 ->
  Num.max (Num.of_Z a) (Num.of_Z b) = Num.of_Z (Z.max a b).
Proof.
  intros Ha Hb. unfold Num.max. rewrite of_Z_compare by lia.
  destruct (Z.compare_spec a b) as [E|L|G].
  - subst b. rewrite Z.max_id.
    destruct (of_Z_pos a Ha) as (ma & da & -> & _). reflexivity.
  - now rewrite Z.max_r by lia.
  - now rewrite Z.max_l by lia.
Qed.

(** [Math.floor] of a positive number below [2^53]. *)
Lemma floor_spec (m : positive) (e : Z) :
  Zpos (digits2_pos m) = 53 -> -1074 <= e ->
  Zpos m * 2 ^ (e + 1074) < 2 ^ 53 * K ->
  Num.floor (S754_finite false m e)
  = Num.of_Z (Zpos m * 2 ^ (e + 1074) / K).
Proof.
  intros Hd He Hlt.
  pose proof (digits2_pos_bounds m) as B. rewrite Hd in B.
  change (2 ^ (53 - 1)) with (2 ^ 52) in B.
  assert (HK : 0 < K) by (apply pow2_pos; lia).
  assert (He0 : e <= 0).
  { destruct (Z_le_gt_dec e 0) as [|Hg]; [assumption|].
    assert (2 * K <= 2 ^ (e + 1074)).
    { unfold K. change (2 * 2 ^ 1074) with (2 ^ 1075).
      apply Z.pow_le_mono_r; lia. }
    change (2 ^ 53) with (2 * 2 ^ 52) in Hlt. nia. }
  unfold Num.floor.
  destruct (Z.leb_spec 0 e) as [H0|H0].
  - assert (e = 0) by lia. subst e.
    change (2 ^ (0 + 1074)) with K. rewrite Z.div_mul by lia.
    destruct (of_Z_pos (Zpos m) ltac:(lia)) as (m' & d' & E & D' & Hd' & B' & Hm').
    assert (d' = 53).
    { destruct (Z.eq_dec d' 53) as [|N]; [assumption|].
      assert (2 ^ d' <= 2 ^ 52) by (apply Z.pow_le_mono_r; lia). lia. }
    subst d'. change (2 ^ (53 - 53)) with 1 in Hm'.
    rewrite E. f_equal. lia.
  - f_equal.
    assert (EK : K = 2 ^ (- e) * 2 ^ (e + 1074)).
    { unfold K. rewrite <- pow2_split by lia. f_equal. lia. }
    rewrite EK. rewrite Z.div_mul_cancel_r; [reflexivity| |].
    + apply Z.neq_sym, Z.lt_neq, pow2_pos. lia.
    + apply Z.neq_sym, Z.lt_neq, pow2_pos. lia.
Qed.

Lemma div_floor_unique (V k a : Z) :
  0 < k -> a * k <= V < (a + 1) * k -> V / k = a.
Proof.
  intros Hk H. symmetry. apply (Z.div_unique V k a (V - a * k)); lia.
Qed.

(** The largest multiple of [g] below [X] is above every multiple of
    [k] below [X], when [g] divides [k]. *)
Lemma grid_floor_le (X g k : Z) :
  0 < g -> 0 < k -> k mod g = 0 -> 0 <= X -> X / k * k <= X / g * g.
Proof.
  intros Hg Hk Hdiv HX.
  pose proof (Z.div_mod k g ltac:(lia)) as Ek. rewrite Hdiv, Z.add_0_r in Ek.
  set (c := k / g) in *.
  assert (Hc : 0 < c) by nia.
  assert (H1 : X / k * c <= X / g).
  { apply Z.div_le_lower_bound; [lia|].
    pose proof (Z.mul_div_le X k Hk). nia. }
  nia.
Qed.

(** An integer times a positive constant with a full mantissa, the
    product staying below [2^52]. [X] is the exact product, [V] the
    product the double multiplication gives, both in units of [2^-1074],
    and [2^j] the spacing of the doubles around [X]: [V] is [X] cut down
    to a multiple of [2^j] or the next multiple, and [X] itself when [X]
    is a multiple. *)
Lemma mul_int_spec (n : Z) (mc : positive) (ec : Z) :
  0 < n < 2 ^ 53 -> Zpos (digits2_pos mc) = 53 -> -1022 <= ec <= 900 ->
  let X := n * (Zpos mc * 2 ^ (ec + 1074)) in
  X < 2 ^ 52 * K ->
  exists (m' : positive) (e' j : Z),
    let V := Zpos m' * 2 ^ (e' + 1074) in
    Num.mul (Num.of_Z n) (S754_finite false mc ec) = S754_finite false m' e'
    /\ Zpos (digits2_pos m') = 53 /\ -1074 <= e' <= 971
    /\ 0 <= j < 1074 /\ 2 ^ (j + 52) <= X < 2 ^ (j + 53)
    /\ (V = X / 2 ^ j * 2 ^ j \/ V = X / 2 ^ j * 2 ^ j + 2 ^ j)
    /\ (X mod 2 ^ j = 0 -> V = X)
    /\ X / K * K <= V
    /\ Num.floor (Num.mul (Num.of_Z n) (S754_finite false mc ec))
       = Num.of_Z (V / K).
Proof.
  intros Hn Dc Hec X HX.
  destruct (of_Z_pos n Hn) as (mn & dn & En & Dn & Hdn & Bn & Hmn).
  destruct (mul_spec mn mc (dn - 53) ec Dn Dc ltac:(lia) ltac:(lia))
    as (m' & e' & j & Emul & D' & He' & Hj0 & Hje & HjX & Hbr & Hex).
  assert (EX : Zpos mn * Zpos mc * 2 ^ (dn - 53 + ec + 1074) = X).
  { unfold X. rewrite Hmn.
    replace (ec + 1074) with ((53 - dn) + (dn - 53 + ec + 1074)) by lia.
    rewrite (pow2_split (53 - dn) (dn - 53 + ec + 1074)) by lia. ring. }
  rewrite EX in HjX, Hbr, Hex.
  assert (HK : 0 < K) by (apply pow2_pos; lia).
  assert (Hg : 0 < 2 ^ j) by (apply pow2_pos; lia).
  assert (Hj : j < 1074).
  { destruct (Z_lt_le_dec j 1074) as [|Hge]; [assumption|].
    assert (2 ^ (52 + 1074) <= 2 ^ (j + 52)) by (apply Z.pow_le_mono_r; lia).
    unfold K in HX. rewrite pow2_split in H by lia. lia. }
  assert (Hdiv : K mod 2 ^ j = 0).
  { unfold K. replace 1074 with ((1074 - j) + j) by lia.
    rewrite pow2_split by lia. apply Z.mod_mul. lia. }
  assert (HX0 : 0 <= X) by (destruct HjX; lia).
  exists m', e', j. intros V.
  assert (HV : X / K * K <= V <= X + 2 ^ j).
  { pose proof (grid_floor_le X (2 ^ j) K Hg HK Hdiv HX0).
    pose proof (Z.mul_div_le X (2 ^ j) Hg).
    destruct Hbr as [Hb | Hb]; fold V in Hb; lia. }
  rewrite En, Emul.
  split; [reflexivity|]. split; [exact D'|]. split; [exact He'|].
  split; [lia|]. split; [exact HjX|]. split; [exact Hbr|].
  split; [exact Hex|]. split; [apply HV|].
  apply floor_spec; [exact D' | lia |]. fold V.
  rewrite pow2_split in HjX by lia.
  change (2 ^ 53) with (2 * 2 ^ 52). nia.
Qed.

Lemma pow2_lt_inv (a b : Z) : 0 <= b -> 2 ^ a < 2 ^ b -> a < b.
Proof. intros Hb H. apply (Z.pow_lt_mono_r_iff 2); lia. Qed.

Lemma floor_mul_035 (W : Z) :
  0 < W < 2 ^ 32 ->
  Num.floor (Num.mul (Num.of_Z W) c0_035) = Num.of_Z (35 * W / 1000).
Proof.
  intros HW. unfold c0_035.
  destruct (mul_int_spec W 5044031582654956 (-57))
    as (m' & e' & j & _ & _ & _ & Hj & HjX & Hbr & _ & HV & Hfl).
  - lia.
  - reflexivity.
  - lia.
  - unfold K. change (-57 + 1074) with 1017. lia.
  - rewrite Hfl. f_equal.
    change (-57 + 1074) with 1017 in *.
    set (V := Zpos m' * 2 ^ (e' + 1074)) in *.
    set (X := W * (5044031582654956 * 2 ^ 1017)) in *.
    assert (Hg : 0 < 2 ^ j) by (apply pow2_pos; lia).
    assert (HVu : V <= X + 2 ^ j).
    { pose proof (Z.mul_div_le X (2 ^ j) Hg). destruct Hbr; lia. }
    rewrite pow2_split in HjX by lia.
    pose proof (Z.div_mod (35 * W) 1000 ltac:(lia)) as Hdm.
    pose proof (Z.mod_pos_bound (35 * W) 1000 ltac:(lia)) as Hr.
    set (a := 35 * W / 1000) in *. set (r := (35 * W) mod 1000) in *.
    assert (HK : 0 < K) by (apply pow2_pos; lia).
    assert (HaX : a * K <= X) by (unfold X, K; lia).
    assert (Hlow : a <= X / K) by (apply Z.div_le_lower_bound; lia).
    apply div_floor_unique; [exact HK|]. split.
    + nia.
    + unfold X, K in *. lia.
Qed.

Lemma floor_mul_1_5 (b : Z) :
  0 < b < 2 ^ 32 ->
  Num.floor (Num.mul (Num.of_Z b) c1_5) = Num.of_Z (3 * b / 2).
Proof.
  intros Hb. unfold c1_5.
  destruct (mul_int_spec b 6755399441055744 (-52))
    as (m' & e' & j & _ & _ & _ & Hj & HjX & _ & Hex & _ & Hfl).
  - lia.
  - reflexivity.
  - lia.
  - unfold K. change (-52 + 1074) with 1022. lia.
  - rewrite Hfl. f_equal.
    change (-52 + 1074) with 1022 in *.
    set (V := Zpos m' * 2 ^ (e' + 1074)) in *.
    assert (EX : b * (6755399441055744 * 2 ^ 1022) = 3 * b * 2 ^ 1073) by lia.
    rewrite EX in *.
    assert (Hj' : j + 52 < 1107).
    { apply pow2_lt_inv; [lia|]. change (2 ^ 1107) with (2 ^ 34 * 2 ^ 1073). lia. }
    assert (E2 : 2 ^ 1073 = 2 ^ (1073 - j) * 2 ^ j).
    { rewrite <- pow2_split by lia. f_equal. lia. }
    assert (HVX : V = 3 * b * 2 ^ 1073).
    { apply Hex. rewrite E2, Z.mul_assoc. apply Z.mod_mul.
      apply Z.neq_sym, Z.lt_neq, pow2_pos. lia. }
    rewrite HVX. unfold K. change (2 ^ 1074) with (2 * 2 ^ 1073).
    rewrite Z.div_mul_cancel_r by lia. reflexivity.
Qed.

Lemma floor_mul_1_0 (b : Z) :
  0 < b < 2 ^ 32 ->
  Num.floor (Num.mul (Num.of_Z b) c1_0) = Num.of_Z b.
Proof.
  intros Hb. unfold c1_0.
  destruct (mul_int_spec b 4503599627370496 (-52))
    as (m' & e' & j & _ & _ & _ & Hj & HjX & _ & Hex & _ & Hfl).
  - lia.
  - reflexivity.
  - lia.
  - unfold K. change (-52 + 1074) with 1022. lia.
  - rewrite Hfl. f_equal.
    change (-52 + 1074) with 1022 in *.
    set (V := Zpos m' * 2 ^ (e' + 1074)) in *.
    assert (EX : b * (4503599627370496 * 2 ^ 1022) = b * 2 ^ 1074) by lia.
    rewrite EX in *.
    assert (Hj' : j + 52 < 1107).
    { apply pow2_lt_inv; [lia|]. change (2 ^ 1107) with (2 ^ 33 * 2 ^ 1074). lia. }
    assert (E2 : 2 ^ 1074 = 2 ^ (1074 - j) * 2 ^ j).
    { rewrite <- pow2_split by lia. f_equal. lia. }
    assert (HVX : V = b * 2 ^ 1074).
    { apply Hex. rewrite E2, Z.mul_assoc. apply Z.mod_mul.
      apply Z.neq_sym, Z.lt_neq, pow2_pos. lia. }
    rewrite HVX. unfold K. apply Z.div_mul. lia.
Qed.

(** [floor(b * 0.7)]: the double product is within [2^1053] units of the
    exact one and not below the whole part of it. *)
Lemma floor_mul_0_7 (b : Z) :
  0 < b < 2 ^ 32 ->
  let X := b * (6305039478318694 * 2 ^ 1021) in
  exists V : Z,
    Num.floor (Num.mul (Num.of_Z b) c0_7) = Num.of_Z (V / K)
    /\ X - 2 ^ 1053 <= V <= X + 2 ^ 1053
    /\ X / K * K <= V.
Proof.
  intros Hb X. unfold c0_7.
  destruct (mul_int_spec b 6305039478318694 (-53))
    as (m' & e' & j & _ & _ & _ & Hj & HjX & Hbr & _ & HV & Hfl).
  - lia.
  - reflexivity.
  - lia.
  - unfold K. change (-53 + 1074) with 1021. lia.
  - change (-53 + 1074) with 1021 in *. fold X in HjX, Hbr, HV.
    set (V := Zpos m' * 2 ^ (e' + 1074)) in *.
    exists V. split; [exact Hfl|]. split; [|exact HV].
    assert (Hj' : j + 52 < 1106).
    { apply pow2_lt_inv; [lia|]. unfold X in HjX.
      change (2 ^ 1106) with (2 ^ 85 * 2 ^ 1021). lia. }
    assert (Hg : 0 < 2 ^ j) by (apply pow2_pos; lia).
    assert (Hg' : 2 ^ j <= 2 ^ 1053) by (apply Z.pow_le_mono_r; lia).
    pose proof (Z.mul_div_le X (2 ^ j) Hg).
    pose proof (Z.mod_pos_bound X (2 ^ j) Hg).
    pose proof (Z.div_mod X (2 ^ j) ltac:(lia)).
    destruct Hbr; lia.
Qed.

(** ** Numbers: order, sums and differences *)

Lemma canon_mantissa_lt (m : positive) (e : Z) :
  canon_me m e -> Zpos m < 2 ^ 53.
Proof.
  intros [_ Hd]. pose proof (digits2_pos_bounds m) as [_ B].
  assert (Zpos (digits2_pos m) <= 53) by lia.
  assert (2 ^ Zpos (digits2_pos m) <= 2 ^ 53) by (apply Z.pow_le_mono_r; lia).
  lia.
Qed.

Lemma canon_mantissa_ge (m : positive) (e : Z) :
  canon_me m e -> -1074 < e -> 2 ^ 52 <= Zpos m.
Proof.
  intros [_ Hd] He. pose proof (digits2_pos_bounds m) as [B _].
  destruct Hd as [Hd|[Hd _]]; [|lia].
  rewrite Hd in B. exact B.
Qed.

(** Canonical mantissas and exponents are ordered as their values. *)
Lemma canon_compare (m1 m2 : positive) (e1 e2 : Z) :
  canon_me m1 e1 -> canon_me m2 e2 ->
  match Z.compare e1 e2 with
  | Lt => Lt
  | Gt => Gt
  | Eq => Pos.compare_cont Eq m1 m2
  end
  = (Zpos m1 * 2 ^ (e1 + 1074) ?= Zpos m2 * 2 ^ (e2 + 1074))%Z.
Proof.
  intros C1 C2.
  pose proof (canon_mantissa_lt _ _ C1) as U1.
  pose proof (canon_mantissa_lt _ _ C2) as U2.
  assert (E1 : -1074 <= e1) by (destruct C1; lia).
  assert (E2 : -1074 <= e2) by (destruct C2; lia).
  destruct (Z.compare_spec e1 e2) as [E|L|G].
  - subst e2.
    change (Pos.compare_cont Eq m1 m2) with (Z.compare (Zpos m1) (Zpos m2)).
    apply Zmult_compare_compat_r. apply Z.lt_gt, pow2_pos. lia.
  - symmetry. apply Z.compare_lt_iff.
    pose proof (canon_mantissa_ge _ _ C2 ltac:(lia)) as L2.
    assert (P1 : 0 < 2 ^ (e1 + 1074)) by (apply pow2_pos; lia).
    assert (P2 : 2 * 2 ^ (e1 + 1074) <= 2 ^ (e2 + 1074)).
    { replace (2 * 2 ^ (e1 + 1074)) with (2 ^ (e1 + 1074 + 1))
        by (rewrite pow2_split by lia; lia).
      apply Z.pow_le_mono_r; lia. }
    change (2 ^ 53) with (2 * 2 ^ 52) in U1. nia.
  - symmetry. apply Z.compare_gt_iff.
    pose proof (canon_mantissa_ge _ _ C1 ltac:(lia)) as L1.
    assert (P1 : 0 < 2 ^ (e2 + 1074)) by (apply pow2_pos; lia).
    assert (P2 : 2 * 2 ^ (e2 + 1074) <= 2 ^ (e1 + 1074)).
    { replace (2 * 2 ^ (e2 + 1074)) with (2 ^ (e2 + 1074 + 1))
        by (rewrite pow2_split by lia; lia).
      apply Z.pow_le_mono_r; lia. }
    change (2 ^ 53) with (2 * 2 ^ 52) in U2. nia.
Qed.

Lemma mag_pos (m : positive) (e : Z) :
  -1074 <= e -> 0 < Zpos m * 2 ^ (e + 1074).
Proof.
  intros He. apply Z.mul_pos_pos; [lia | apply pow2_pos; lia].
Qed.

(** On such numbers the comparison of the source is the comparison of
    the values. *)
Lemma fin_compare (x y : num) :
  fin x -> fin y -> SFcompare x y = Some (iv x ?= iv y)%Z.
Proof.
  intros Fx Fy.
  destruct x as [sx|sx| |sx mx ex]; try contradiction;
    destruct y as [sy|sy| |sy my ey]; try contradiction.
  - reflexivity.
  - cbn [SFcompare iv]. pose proof (mag_pos my ey ltac:(destruct Fy; lia)).
    destruct sy; cbn [cond_Zopp]; f_equal; symmetry.
    + apply Z.compare_gt_iff. lia.
    + apply Z.compare_lt_iff. lia.
  - cbn [SFcompare iv]. pose proof (mag_pos mx ex ltac:(destruct Fx; lia)).
    destruct sx; cbn [cond_Zopp]; f_equal; symmetry.
    + apply Z.compare_lt_iff. lia.
    + apply Z.compare_gt_iff. lia.
  - cbn [SFcompare iv fin] in *.
    pose proof (mag_pos mx ex ltac:(destruct Fx; lia)).
    pose proof (mag_pos my ey ltac:(destruct Fy; lia)).
    destruct sx, sy; cbn [cond_Zopp]; f_equal.
    + rewrite Z.compare_opp.
      rewrite <- (canon_compare my mx ey ex Fy Fx).
      rewrite (Z.compare_antisym ey ex).
      destruct (ey ?= ex)%Z; cbn [CompOpp]; try reflexivity.
      change (Pos.compare_cont Eq mx my) with (Pos.compare mx my).
      change (Pos.compare_cont Eq my mx) with (Pos.compare my mx).
      now rewrite (Pos.compare_antisym my mx), CompOpp_involutive.
    + symmetry. apply Z.compare_lt_iff. lia.
    + symmetry. apply Z.compare_gt_iff. lia.
    + apply canon_compare; assumption.
Qed.

Lemma fin_leb (x y : num) :
  fin x -> fin y -> Num.leb x y = (iv x <=? iv y)%Z.
Proof.
  intros Fx Fy. unfold Num.leb, SFleb. rewrite fin_compare by assumption.
  unfold Z.leb. destruct (iv x ?= iv y)%Z; reflexivity.
Qed.

Lemma shl_align_min (m : positive) (e e' : Z) :
  e' <= e -> Zpos (fst (shl_align m e e')) = Zpos m * 2 ^ (e - e').
Proof.
  intros Hle. unfold shl_align.
  destruct (e' - e) as [|p|p] eqn:E.
  - replace (e - e') with 0 by lia. cbn [fst]. simpl. lia.
  - lia.
  - cbn [fst]. destruct (iter_xO_spec m p) as [-> _].
    f_equal. f_equal. lia.
Qed.

(** Rounding an integer multiple of [2^e]: the result is canonical and
    its error is at most [2^-52] of the value. *)
Lemma normalize_spec (S e : Z) :
  -1074 <= e ->
  Z.abs S * 2 ^ (e + 1074) < 2 ^ 1022 * K ->
  let X := S * 2 ^ (e + 1074) in
  fin (binary_normalize 53 1024 S e false)
  /\ Z.abs (iv (binary_normalize 53 1024 S e false) - X) * 2 ^ 52 <= Z.abs X.
Proof.
  intros He Hb X.
  assert (H2e : 0 < 2 ^ (e + 1074)) by (apply pow2_pos; lia).
  assert (Hcore : forall (s : bool) (P : positive),
            Zpos P * 2 ^ (e + 1074) < 2 ^ 1022 * K ->
            fin (binary_round 53 1024 s P e)
            /\ exists V, iv (binary_round 53 1024 s P e) = cond_Zopp s V
                         /\ Z.abs (V - Zpos P * 2 ^ (e + 1074)) * 2 ^ 52
                            <= Zpos P * 2 ^ (e + 1074)).
  { intros s P HP.
    pose proof (digits2_pos_bounds P) as [Blo Bhi].
    set (d := Zpos (digits2_pos P)) in *.
    assert (Hd1 : 1 <= d) by (unfold d; lia).
    assert (Hde : d + e <= 1022).
    { assert (2 ^ (d - 1) * 2 ^ (e + 1074) < 2 ^ 1022 * K) by nia.
      unfold K in H. rewrite <- !pow2_split in H by lia.
      apply pow2_lt_inv in H; lia. }
    destruct (binary_round_spec s P e He ltac:(fold d; lia))
      as (m' & e' & -> & Hc & Hbr & Hex).
    fold d in Hbr, Hex.
    set (Y := Zpos P * 2 ^ (e + 1074)) in *.
    set (V := Zpos m' * 2 ^ (e' + 1074)) in *.
    split; [exact Hc|]. exists V. split; [reflexivity|].
    destruct (Z_le_gt_dec (d + e - 53) (-1074)) as [Hsub|Hnorm].
    - rewrite Z.max_r in Hex by lia.
      change (2 ^ (-1074 + 1074)) with 1 in Hex.
      rewrite Hex by apply Z.mod_1_r.
      replace (Y - Y) with 0 by lia. simpl. lia.
    - rewrite Z.max_l in Hbr by lia.
      set (g := 2 ^ (d + e - 53 + 1074)) in *.
      assert (Hg : 0 < g) by (apply pow2_pos; lia).
      assert (HgY : g * 2 ^ 52 <= Y).
      { unfold g, Y. rewrite <- pow2_split by lia.
        replace (d + e - 53 + 1074 + 52) with ((d - 1) + (e + 1074)) by lia.
        rewrite pow2_split by lia. apply Z.mul_le_mono_nonneg_r; lia. }
      pose proof (Z.mul_div_le Y g Hg).
      pose proof (Z.mod_pos_bound Y g Hg).
      pose proof (Z.div_mod Y g ltac:(lia)).
      assert (Z.abs (V - Y) <= g) by (destruct Hbr; lia).
      nia. }
  unfold binary_normalize.
  destruct S as [|P|P].
  - split; [exact I|]. subst X. simpl. lia.
  - destruct (Hcore false P ltac:(exact Hb)) as (F & V & EV & HV).
    split; [exact F|]. rewrite EV. cbn [cond_Zopp]. subst X.
    rewrite (Z.abs_eq (Zpos P * _)) by lia. exact HV.
  - change (Z.abs (Zneg P)) with (Zpos P) in Hb.
    destruct (Hcore true P ltac:(exact Hb)) as (F & V & EV & HV).
    split; [exact F|]. rewrite EV. cbn [cond_Zopp]. subst X.
    change (Zneg P) with (- Zpos P).
    replace (- V - - Zpos P * 2 ^ (e + 1074))
      with (- (V - Zpos P * 2 ^ (e + 1074))) by lia.
    rewrite Z.abs_opp.
    replace (- Zpos P * 2 ^ (e + 1074)) with (- (Zpos P * 2 ^ (e + 1074))) by lia.
    rewrite Z.abs_opp, (Z.abs_eq (Zpos P * _)) by lia. exact HV.
Qed.

Lemma iv_align (s : bool) (m : positive) (e e' : Z) :
  -1074 <= e' -> e' <= e ->
  iv (S754_finite s m e)
  = cond_Zopp s (Zpos (fst (shl_align m e e'))) * 2 ^ (e' + 1074).
Proof.
  intros H1 H2. rewrite shl_align_min by exact H2. cbn [iv].
  replace (e + 1074) with ((e - e') + (e' + 1074)) by lia.
  rewrite pow2_split by lia. destruct s; cbn [cond_Zopp]; lia.
Qed.

Lemma fin_exp (s : bool) (m : positive) (e : Z) :
  fin (S754_finite s m e) -> -1074 <= e.
Proof. intros [H _]. lia. Qed.

(** Addition and subtraction of the source, away from overflow: the
    result is canonical and within [2^-52] of the exact value. *)
Lemma add_spec (x y : num) :
  fin x -> fin y -> Z.abs (iv x + iv y) < 2 ^ 1022 * K ->
  fin (Num.add x y)
  /\ Z.abs (iv (Num.add x y) - (iv x + iv y)) * 2 ^ 52 <= Z.abs (iv x + iv y).
Proof.
  intros Fx Fy Hb.
  destruct x as [sx|sx| |sx mx ex]; try contradiction;
    destruct y as [sy|sy| |sy my ey]; try contradiction.
  - split; [destruct sx, sy; exact I|].
    destruct sx, sy; simpl; lia.
  - split; [exact Fy|]. cbn [Num.add SFadd iv].
    generalize (cond_Zopp sy (Zpos my * 2 ^ (ey + 1074))). intros a. lia.
  - split; [exact Fx|]. cbn [Num.add SFadd iv].
    generalize (cond_Zopp sx (Zpos mx * 2 ^ (ex + 1074))). intros a. lia.
  - pose proof (fin_exp _ _ _ Fx) as Ex. pose proof (fin_exp _ _ _ Fy) as Ey.
    set (ez := Z.min ex ey).
    rewrite (iv_align sx mx ex ez), (iv_align sy my ey ez) in * by (unfold ez; lia).
    rewrite <- Z.mul_add_distr_r in *.
    unfold Num.add, SFadd, Num.prec, Num.emax. fold ez.
    apply normalize_spec; [unfold ez; lia|].
    rewrite Z.abs_mul in Hb.
    rewrite (Z.abs_eq (2 ^ (ez + 1074))) in Hb
      by (apply Z.lt_le_incl, pow2_pos; unfold ez; lia).
    exact Hb.
Qed.

Lemma sub_spec (x y : num) :
  fin x -> fin y -> Z.abs (iv x - iv y) < 2 ^ 1022 * K ->
  fin (Num.sub x y)
  /\ Z.abs (iv (Num.sub x y) - (iv x - iv y)) * 2 ^ 52 <= Z.abs (iv x - iv y).
Proof.
  intros Fx Fy Hb.
  destruct x as [sx|sx| |sx mx ex]; try contradiction;
    destruct y as [sy|sy| |sy my ey]; try contradiction.
  - split; [destruct sx, sy; exact I|].
    destruct sx, sy; simpl; lia.
  - split; [exact Fy|]. cbn [Num.sub SFsub iv].
    generalize (Zpos my * 2 ^ (ey + 1074)). intros a.
    destruct sy; cbn [negb cond_Zopp]; lia.
  - split; [exact Fx|]. cbn [Num.sub SFsub iv].
    generalize (cond_Zopp sx (Zpos mx * 2 ^ (ex + 1074))). intros a. lia.
  - pose proof (fin_exp _ _ _ Fx) as Ex. pose proof (fin_exp _ _ _ Fy) as Ey.
    set (ez := Z.min ex ey).
    rewrite (iv_align sx mx ex ez), (iv_align sy my ey ez) in * by (unfold ez; lia).
    rewrite <- Z.mul_sub_distr_r in *.
    unfold Num.sub, SFsub, Num.prec, Num.emax. fold ez.
    apply normalize_spec; [unfold ez; lia|].
    rewrite Z.abs_mul in Hb.
    rewrite (Z.abs_eq (2 ^ (ez + 1074))) in Hb
      by (apply Z.lt_le_incl, pow2_pos; unfold ez; lia).
    exact Hb.
Qed.

Lemma full_mantissa_canon (m : positive) (e : Z) :
  Zpos (digits2_pos m) = 53 -> -1074 <= e <= 971 -> canon_me m e.
Proof. intros Hd He. split; [exact He | now left]. Qed.

(** The exponent of a positive number with a full mantissa, from a
    bracket of its value. *)
Lemma exp_bounds (m : positive) (e a b : Z) :
  Zpos (digits2_pos m) = 53 -> -1074 <= e -> 0 <= a -> 0 <= b ->
  2 ^ a * K <= Zpos m * 2 ^ (e + 1074) < 2 ^ b * K ->
  a - 53 < e < b - 52.
Proof.
  intros Hd He Ha Hb [Hlo Hhi].
  pose proof (digits2_pos_bounds m) as B. rewrite Hd in B.
  change (2 ^ (53 - 1)) with (2 ^ 52) in B.
  assert (P : 0 < 2 ^ (e + 1074)) by (apply pow2_pos; lia).
  split.
  - assert (H : 2 ^ (a + 1074) < 2 ^ (53 + (e + 1074))).
    { rewrite (pow2_split 53 (e + 1074)) by lia.
      unfold K in Hlo.
      assert (Ea : 2 ^ (a + 1074) <= 2 ^ a * 2 ^ 1074)
        by (rewrite pow2_split by lia; lia).
      apply Z.le_lt_trans with (Zpos m * 2 ^ (e + 1074)); [lia|].
      apply Z.mul_lt_mono_pos_r; lia. }
    apply pow2_lt_inv in H; lia.
  - assert (H : 2 ^ (52 + (e + 1074)) < 2 ^ (b + 1074)).
    { rewrite (pow2_split 52 (e + 1074)), (pow2_split b 1074) by lia.
      unfold K in Hhi.
      apply Z.le_lt_trans with (Zpos m * 2 ^ (e + 1074)); [|lia].
      apply Z.mul_le_mono_nonneg_r; lia. }
    apply pow2_lt_inv in H; lia.
Qed.

(** The product of an integer and a positive constant again, as an
    error bound. *)
Lemma mul_int_err (n : Z) (mc : positive) (ec : Z) :
  0 < n < 2 ^ 53 -> Zpos (digits2_pos mc) = 53 -> -1022 <= ec <= 900 ->
  let X := n * (Zpos mc * 2 ^ (ec + 1074)) in
  X < 2 ^ 52 * K ->
  exists (m' : positive) (e' : Z),
    Num.mul (Num.of_Z n) (S754_finite false mc ec) = S754_finite false m' e'
    /\ Zpos (digits2_pos m') = 53 /\ -1074 <= e' <= 971
    /\ Z.abs (Zpos m' * 2 ^ (e' + 1074) - X) * 2 ^ 52 <= X.
Proof.
  intros Hn Dc Hec X HX.
  destruct (mul_int_spec n mc ec Hn Dc Hec HX)
    as (m' & e' & j & Emul & D' & He' & Hj & HjX & Hbr & _).
  exists m', e'. split; [exact Emul|]. split; [exact D'|]. split; [exact He'|].
  fold X in HjX, Hbr.
  set (V := Zpos m' * 2 ^ (e' + 1074)) in *.
  assert (Hg : 0 < 2 ^ j) by (apply pow2_pos; lia).
  rewrite pow2_split in HjX by lia.
  pose proof (Z.mul_div_le X (2 ^ j) Hg).
  pose proof (Z.mod_pos_bound X (2 ^ j) Hg).
  pose proof (Z.div_mod X (2 ^ j) ltac:(lia)).
  assert (Z.abs (V - X) <= 2 ^ j) by (destruct Hbr; lia).
  nia.
Qed.

(** *** Sums and differences below [2^41] *)

Lemma mul_between (a lo hi x : Z) :
  0 <= x -> lo <= a <= hi -> lo * x <= a * x <= hi * x.
Proof. intros Hx Ha. split; apply Z.mul_le_mono_nonneg_r; lia. Qed.

Lemma K_eps : K = 2048 * eps.
Proof. reflexivity. Qed.

Lemma eps_pos : 0 < eps.
Proof. reflexivity. Qed.

(** Turning the relative bound of one operation into an absolute one. *)
Lemma abs_err (v x : Z) :
  Z.abs (v - x) * 2 ^ 52 <= Z.abs x -> Z.abs x <= 2 ^ 41 * K ->
  Z.abs (v - x) <= eps.
Proof. unfold K, eps. lia. Qed.

Lemma below_overflow (x : Z) : Z.abs x <= 2 ^ 41 * K -> Z.abs x < 2 ^ 1022 * K.
Proof. unfold K. lia. Qed.

Lemma add_err (x y : num) :
  fin x -> fin y -> Z.abs (iv x + iv y) <= 2 ^ 41 * K ->
  fin (Num.add x y) /\ Z.abs (iv (Num.add x y) - (iv x + iv y)) <= eps.
Proof.
  intros Fx Fy Hb.
  destruct (add_spec x y Fx Fy (below_overflow _ Hb)) as [F E].
  split; [exact F | now apply abs_err].
Qed.

Lemma sub_err (x y : num) :
  fin x -> fin y -> Z.abs (iv x - iv y) <= 2 ^ 41 * K ->
  fin (Num.sub x y) /\ Z.abs (iv (Num.sub x y) - (iv x - iv y)) <= eps.
Proof.
  intros Fx Fy Hb.
  destruct (sub_spec x y Fx Fy (below_overflow _ Hb)) as [F E].
  split; [exact F | now apply abs_err].
Qed.

(** [k] steps of [currentY -= lh], each within [eps] of exact while the
    values stay below [2^41]. *)
Lemma stepUp_spec (lh : num) :
  fin lh -> 0 <= iv lh ->
  forall (k : nat) (y : num),
    fin y ->
    Z.abs (iv y) + Z.of_nat k * (iv lh + eps) <= 2 ^ 41 * K ->
    fin (stepUp y lh k)
    /\ Z.abs (iv (stepUp y lh k) - (iv y - Z.of_nat k * iv lh))
       <= Z.of_nat k * eps.
Proof.
  intros Flh Hlh. pose proof eps_pos as He.
  induction k as [|k IH]; intros y Fy Hb.
  - cbn [stepUp]. split; [exact Fy|].
    change (Z.of_nat 0) with 0. rewrite !Z.mul_0_l, Z.sub_0_r, Z.sub_diag.
    simpl. lia.
  - cbn [stepUp].
    rewrite Nat2Z.inj_succ, Z.mul_succ_l in Hb.
    rewrite Nat2Z.inj_succ, !Z.mul_succ_l.
    rewrite Z.mul_add_distr_l in Hb.
    assert (Hk : 0 <= Z.of_nat k) by lia.
    set (kl := Z.of_nat k * iv lh) in *.
    assert (Hkl : 0 <= kl) by (unfold kl; apply Z.mul_nonneg_nonneg; lia).
    set (ke := Z.of_nat k * eps) in *.
    assert (Hke : 0 <= ke) by (unfold ke; apply Z.mul_nonneg_nonneg; lia).
    destruct (sub_err y lh Fy Flh) as [Fy' Hy']; [lia|].
    destruct (IH (Num.sub y lh) Fy') as [F Hs].
    { rewrite Z.mul_add_distr_l. fold kl ke. lia. }
    split; [exact F|]. fold kl in Hs. fold ke in Hs. lia.
Qed.

Lemma fin_of_Z (n : Z) : 0 <= n < 2 ^ 53 -> fin (Num.of_Z n).
Proof.
  intros Hn. destruct (Z.eq_dec n 0) as [->|N]; [exact I|].
  destruct (of_Z_pos n ltac:(lia)) as (m & d & -> & D & Hd & _).
  apply full_mantissa_canon; [exact D | lia].
Qed.

(** The product of an integer and a positive constant, packaged: it is
    canonical, positive with a full mantissa, and within [2^-52] of the
    exact product [X]. *)
Lemma mul_int_fin (n : Z) (mc : positive) (ec : Z) :
  0 < n < 2 ^ 53 -> Zpos (digits2_pos mc) = 53 -> -1022 <= ec <= 900 ->
  let X := n * (Zpos mc * 2 ^ (ec + 1074)) in
  X < 2 ^ 52 * K ->
  let z := Num.mul (Num.of_Z n) (S754_finite false mc ec) in
  fin z
  /\ Z.abs (iv z - X) * 2 ^ 52 <= X
  /\ exists (m' : positive) (e' : Z),
       z = S754_finite false m' e'
       /\ Zpos (digits2_pos m') = 53 /\ -1074 <= e'.
Proof.
  intros Hn Dc Hec X HX z.
  destruct (mul_int_err n mc ec Hn Dc Hec HX) as (m' & e' & Ez & D' & R' & Herr).
  subst z. rewrite Ez. split; [now apply full_mantissa_canon|].
  split; [exact Herr|]. exists m', e'. repeat split; [exact D' | lia].
Qed.

(** *** The line heights *)

(** [baseFontSize * 1.3]. *)
Lemma lineHeight_bounds (b : Z) :
  24 <= b < 2 ^ 28 ->
  let z := Num.mul (Num.of_Z b) c1_3 in
  fin z /\ b * K <= iv z <= 2 * (b * K)
  /\ exists (m : positive) (e : Z),
       z = S754_finite false m e
       /\ Zpos (digits2_pos m) = 53 /\ -1022 <= e <= 900.
Proof.
  intros Hb z.
  destruct (mul_int_fin b 5854679515581645 (-52))
    as (F & E & m & e & Eq & D & R);
    [lia | reflexivity | lia | unfold K; lia |].
  change (Num.mul (Num.of_Z b) (S754_finite false 5854679515581645 (-52)))
    with z in *.
  change (-52 + 1074) with 1022 in E.
  assert (B : b * K <= iv z <= 2 * (b * K)) by (unfold K; lia).
  split; [exact F|]. split; [exact B|].
  exists m, e. split; [exact Eq|]. split; [exact D|].
  assert (EV : iv z = Zpos m * 2 ^ (e + 1074)) by (rewrite Eq; reflexivity).
  destruct (exp_bounds m e 0 40 D R ltac:(lia) ltac:(lia)) as [X1 X2]; [|lia].
  rewrite <- EV. change (2 ^ 0) with 1. unfold K in *. lia.
Qed.

(** [smallFontSize * 1.4] and [timeFontSize * 1.4]. *)
Lemma times_1_4_bounds (s : Z) :
  0 < s < 2 ^ 30 ->
  let z := Num.mul (Num.of_Z s) c1_4 in
  fin z /\ 0 < iv z <= 2 * (s * K).
Proof.
  intros Hs z.
  destruct (mul_int_fin s 6305039478318694 (-52)) as (F & E & _);
    [lia | reflexivity | lia | unfold K; lia |].
  change (Num.mul (Num.of_Z s) (S754_finite false 6305039478318694 (-52)))
    with z in *.
  change (-52 + 1074) with 1022 in E.
  split; [exact F|]. unfold K. lia.
Qed.

(** [baseFontSize * 0.2]. *)
Lemma times_0_2_bounds (b : Z) :
  0 < b < 2 ^ 30 ->
  let z := Num.mul (Num.of_Z b) c0_2 in
  fin z /\ 0 < iv z /\ 4 * iv z <= b * K.
Proof.
  intros Hb z.
  destruct (mul_int_fin b 7205759403792794 (-55)) as (F & E & _);
    [lia | reflexivity | lia | unfold K; lia |].
  change (Num.mul (Num.of_Z b) (S754_finite false 7205759403792794 (-55)))
    with z in *.
  change (-55 + 1074) with 1019 in E.
  split; [exact F|]. unfold K. lia.
Qed.

(** [padding * 2]. *)
Lemma times_2_bounds (b : Z) :
  0 < b < 2 ^ 30 ->
  let z := Num.mul (Num.of_Z b) c2 in
  fin z /\ Z.abs (iv z - 2 * (b * K)) <= eps.
Proof.
  intros Hb z.
  destruct (mul_int_fin b 4503599627370496 (-51)) as (F & E & _);
    [lia | reflexivity | lia | unfold K; lia |].
  change (Num.mul (Num.of_Z b) (S754_finite false 4503599627370496 (-51)))
    with z in *.
  change (-51 + 1074) with 1023 in E.
  split; [exact F|]. unfold K, eps. lia.
Qed.

(** [addressLines.length * lineHeight]. *)
Lemma lines_height_bounds (n : Z) (m : positive) (e : Z) :
  1 <= n <= 1024 ->
  Zpos (digits2_pos m) = 53 -> -1022 <= e <= 900 ->
  let lh := S754_finite false m e in
  iv lh <= 2 ^ 29 * K ->
  let z := Num.mul (Num.of_Z n) lh in
  fin z /\ Z.abs (iv z - n * iv lh) <= eps.
Proof.
  intros Hn D R lh Hlh z.
  assert (HV : iv lh = Zpos m * 2 ^ (e + 1074)) by reflexivity.
  assert (Hpos : 0 < iv lh) by (rewrite HV; apply mag_pos; lia).
  assert (HQ : iv lh <= n * iv lh <= 1024 * iv lh).
  { pose proof (mul_between n 1 1024 (iv lh) ltac:(lia) Hn). lia. }
  destruct (mul_int_fin n m e) as (F & E & _);
    [lia | exact D | exact R | rewrite <- HV; unfold K in *; lia |].
  rewrite <- HV in E. fold lh in F, E. fold z in F, E.
  split; [exact F|].
  set (Q := n * iv lh) in *. unfold K, eps in *. lia.
Qed.

(** *** The panel and the lines, as numbers

    [b], [t] and [s] are the base, time and small sizes, [H] the height
    of the image and [n] the number of address lines. *)

Section Panel.

Variables (b t s H : Z) (n : nat).
Hypothesis Hb : 24 <= b < 2 ^ 28.
Hypothesis Ht : 0 < t <= 2 * b.
Hypothesis Hs : 0 < s <= b.
Hypothesis HH : 0 < H < 2 ^ 32.
Hypothesis Hn : (1 <= n <= 1024)%nat.

Let lh := Num.mul (Num.of_Z b) c1_3.
Let slh := Num.mul (Num.of_Z s) c1_4.
Let th := Num.mul (Num.of_Z t) c1_4.
Let m02 := Num.mul (Num.of_Z b) c0_2.
Let p := Num.of_Z b.
Let h := Num.of_Z H.
Let G :=
  Num.add
    (Num.add
       (Num.add
          (Num.add (Num.add th slh) (Num.mul (Num.of_Z (Z.of_nat n)) lh))
          slh)
       (Num.mul p c2))
    p.
Let top := Num.sub h G.
Let y1 := Num.sub (Num.sub h p) slh.
Let yT := Num.sub (Num.sub (stepUp y1 lh n) slh) m02.

(** The heights and their sum [G], the height of the painted panel. *)
Lemma panel_facts :
  exists VL VS VT VM Q : Z,
    fin lh /\ fin slh /\ fin th /\ fin m02 /\ fin p /\ fin h
    /\ iv lh = VL /\ iv slh = VS /\ iv th = VT /\ iv m02 = VM
    /\ iv p = b * K /\ iv h = H * K
    /\ Q = Z.of_nat n * VL
    /\ 24 * K <= b * K <= 2 ^ 28 * K
    /\ 0 < H * K <= 2 ^ 32 * K
    /\ b * K <= VL <= 2 * (b * K)
    /\ 0 < VS <= 2 * (b * K)
    /\ 0 < VT <= 4 * (b * K)
    /\ 0 < VM /\ 4 * VM <= b * K
    /\ VL <= Q <= 1024 * VL
    /\ fin G /\ Z.abs (iv G - (VT + VS + Q + VS + 3 * (b * K))) <= 7 * eps.
Proof.
  pose proof K_eps as HK. pose proof eps_pos as He.
  assert (HbK : 24 * K <= b * K <= 2 ^ 28 * K)
    by (apply mul_between; lia).
  assert (HHK : 0 < H * K <= 2 ^ 32 * K).
  { pose proof (mul_between H 1 (2 ^ 32) K ltac:(lia) ltac:(lia)). lia. }
  assert (HsK : 0 < s * K <= b * K).
  { pose proof (mul_between s 1 b K ltac:(lia) ltac:(lia)). lia. }
  assert (HtK : 0 < t * K <= 2 * (b * K)).
  { pose proof (mul_between t 1 (2 * b) K ltac:(lia) ltac:(lia)). lia. }
  destruct (lineHeight_bounds b Hb) as (FL & BL & mL & eL & EqL & DL & RL).
  destruct (times_1_4_bounds s ltac:(lia)) as (FS & BS).
  destruct (times_1_4_bounds t ltac:(lia)) as (FT & BT).
  destruct (times_0_2_bounds b ltac:(lia)) as (FM & BM0 & BM).
  destruct (times_2_bounds b ltac:(lia)) as (FP2 & BP).
  fold lh in FL, BL, EqL. fold slh in FS, BS. fold th in FT, BT.
  fold m02 in FM, BM0, BM. fold p in FP2, BP.
  assert (Fp : fin p) by (apply fin_of_Z; lia).
  assert (Fh : fin h) by (apply fin_of_Z; lia).
  assert (Ip : iv p = b * K) by (apply of_Z_iv; lia).
  assert (Ih : iv h = H * K) by (apply of_Z_iv; lia).
  destruct (lines_height_bounds (Z.of_nat n) mL eL ltac:(lia) DL RL)
    as (FN & BN).
  { rewrite <- EqL. lia. }
  rewrite <- EqL in FN, BN.
  set (nlh := Num.mul (Num.of_Z (Z.of_nat n)) lh) in *.
  set (VL := iv lh) in *. set (VS := iv slh) in *. set (VT := iv th) in *.
  set (VM := iv m02) in *. set (VP := iv (Num.mul p c2)) in *.
  set (VN := iv nlh) in *.
  assert (HQ : VL <= Z.of_nat n * VL <= 1024 * VL).
  { pose proof (mul_between (Z.of_nat n) 1 1024 VL ltac:(lia) ltac:(lia)).
    lia. }
  set (Q := Z.of_nat n * VL) in *.
  set (bK := b * K) in *. set (HK_ := H * K) in *.
  set (sK := s * K) in *. set (tK := t * K) in *.
  clear EqL DL RL.
  (* the sums *)
  destruct (add_err th slh FT FS) as [F1 E1]; [fold VT VS; lia|].
  fold VT VS in E1. set (a1 := Num.add th slh) in *. set (A1 := iv a1) in *.
  destruct (add_err a1 nlh F1 FN) as [F2 E2]; [fold A1 VN; lia|].
  fold A1 VN in E2. set (a2 := Num.add a1 nlh) in *. set (A2 := iv a2) in *.
  destruct (add_err a2 slh F2 FS) as [F3 E3]; [fold A2 VS; lia|].
  fold A2 VS in E3. set (a3 := Num.add a2 slh) in *. set (A3 := iv a3) in *.
  destruct (add_err a3 (Num.mul p c2) F3 FP2) as [F4 E4]; [fold A3 VP; lia|].
  fold A3 VP in E4. set (a4 := Num.add a3 (Num.mul p c2)) in *.
  set (A4 := iv a4) in *.
  destruct (add_err a4 p F4 Fp) as [F5 E5]; [fold A4; rewrite Ip; lia|].
  fold A4 in E5. rewrite Ip in E5.
  change (Num.add a4 p) with G in E5, F5.
  exists VL, VS, VT, VM, Q.
  repeat split; try assumption; try reflexivity; lia.
Qed.

(** Every baseline from the lowest address line up, the baseline of
    the time line and the top of its slot lie between the top of the
    painted panel and the bottom of the canvas. *)
Lemma panel_contains :
  Num.leb top (Num.sub h p) = true
  /\ Num.leb (Num.sub h p) h = true
  /\ (forall k, (k <= n)%nat ->
        Num.leb top (stepUp y1 lh k) = true
        /\ Num.leb (stepUp y1 lh k) h = true)
  /\ Num.leb top yT = true
  /\ Num.leb yT h = true
  /\ Num.leb top (Num.sub yT th) = true.
Proof.
  pose proof K_eps as HK. pose proof eps_pos as He.
  destruct panel_facts
    as (VL & VS & VT & VM & Q & FL & FS & FT & FM & Fp & Fh
        & IL & IS & IT & IM & Ip & Ih & EQ & HbK & HHK & BL & BS & BT
        & BM0 & BM & BQ & FG & EG).
  set (bK := b * K) in *. set (HK_ := H * K) in *.
  (* the top of the panel *)
  destruct (sub_err h G Fh FG) as [Ftop Etop]; [rewrite Ih; lia|].
  rewrite Ih in Etop. fold top in Ftop, Etop.
  (* the coordinates line and the lowest address line *)
  destruct (sub_err h p Fh Fp) as [F0 E0]; [rewrite Ih, Ip; lia|].
  rewrite Ih, Ip in E0.
  set (y0 := Num.sub h p) in *.
  destruct (sub_err y0 slh F0 FS) as [F1 E1]; [rewrite IS; lia|].
  rewrite IS in E1. fold y1 in F1, E1.
  (* the address lines *)
  assert (Hstep : forall k, (k <= n)%nat ->
            fin (stepUp y1 lh k)
            /\ Z.abs (iv (stepUp y1 lh k) - (iv y1 - Z.of_nat k * VL))
               <= 1024 * eps
            /\ 0 <= Z.of_nat k * VL <= Q).
  { intros k Hk.
    assert (Hkl : 0 <= Z.of_nat k * VL <= Q).
    { rewrite EQ.
      pose proof (mul_between (Z.of_nat k) 0 (Z.of_nat n) VL
                    ltac:(lia) ltac:(lia)). lia. }
    assert (Hke : 0 <= Z.of_nat k * eps <= 1024 * eps).
    { pose proof (mul_between (Z.of_nat k) 0 1024 eps
                    ltac:(lia) ltac:(lia)). lia. }
    destruct (stepUp_spec lh FL ltac:(rewrite IL; lia) k y1 F1) as [Fk Ek].
    - rewrite IL, Z.mul_add_distr_l. lia.
    - rewrite IL in Ek. split; [exact Fk|]. split; [lia | exact Hkl]. }
  destruct (Hstep n ltac:(lia)) as (FP & EP & _). rewrite <- EQ in EP.
  set (yP := stepUp y1 lh n) in *.
  (* the person line is at [yP]; the time line above it *)
  destruct (sub_err yP slh FP FS) as [Fq Eq]; [rewrite IS; lia|].
  rewrite IS in Eq.
  set (yq := Num.sub yP slh) in *.
  destruct (sub_err yq m02 Fq FM) as [FT' ET']; [rewrite IM; lia|].
  rewrite IM in ET'. fold yT in FT', ET'.
  destruct (sub_err yT th FT' FT) as [Fz Ez]; [rewrite IT; lia|].
  rewrite IT in Ez.
  rewrite !fin_leb by assumption.
  split; [apply Z.leb_le; lia|].
  split; [apply Z.leb_le; rewrite Ih; lia|].
  split.
  { intros k Hk. destruct (Hstep k Hk) as (Fk & Ek & Hkl).
    rewrite !fin_leb by assumption.
    split; apply Z.leb_le; rewrite ?Ih; lia. }
  split; [apply Z.leb_le; lia|].
  split; [apply Z.leb_le; rewrite Ih; lia|].
  apply Z.leb_le. lia.
Qed.

End Panel.

(** ** The canvas after an invocation *)

Section Trace.

Context (E : Engine).

Lemma wrapLoop_font (maxW : num) (words lines : list string)
      (cur : string) (cv cv' : Canvas) :
  cv_font cv = cv_font cv' ->
  fst (wrapLoop E maxW words lines cur cv)
  = fst (wrapLoop E maxW words lines cur cv').
Proof.
  intros Hf. revert lines cur.
  induction words as [|w rest IH]; intros lines cur; [reflexivity|].
  rewrite !wrapLoop_cons, Hf.
  destruct (Num.ltb _ maxW); apply IH.
Qed.

(** [wrapText] only sets the font of the canvas it is given, and its
    lines do not depend on that canvas. *)
Lemma wrapText_run (maxW : num) (text : string) (fontSize : num)
      (isBold : bool) (cv : Canvas) :
  wrapText E maxW text fontSize isBold cv
  = (fst (wrapText E maxW text fontSize isBold blank),
     snd (setFont (Inter isBold fontSize) cv)).
Proof.
  unfold wrapText, bind.
  destruct (setFont (Inter isBold fontSize) cv) as [[] cv1] eqn:H1.
  destruct (setFont (Inter isBold fontSize) blank) as [[] cv2] eqn:H2.
  assert (Hf : cv_font cv1 = cv_font cv2).
  { unfold setFont in H1, H2. inversion H1; inversion H2; reflexivity. }
  destruct (split_space text) as [|w0 rest].
  - reflexivity.
  - rewrite (surjective_pairing (wrapLoop E maxW rest [] w0 cv1)).
    rewrite wrapLoop_canvas, (wrapLoop_font _ _ _ _ _ _ Hf).
    reflexivity.
Qed.

Lemma wrapText_lines (maxW : num) (text : string) (fontSize : num)
      (isBold : bool) (cv : Canvas) :
  fst (wrapText E maxW text fontSize isBold cv)
  = fst (wrapLoop E maxW (tl (split_space text)) []
                  (hd "" (split_space text))
                  (snd (setFont (Inter isBold fontSize) cv))).
Proof.
  unfold wrapText, bind.
  destruct (setFont (Inter isBold fontSize) cv) as [[] cv1].
  pose proof (split_space_not_nil text) as Hne.
  destruct (split_space text) as [|w0 rest]; [congruence | reflexivity].
Qed.

(** The address loop paints its lines from [y] upwards and leaves
    [currentY] one step above the last of them. *)
Lemma drawAddress_run (revLines : list string) (x lh : num) :
  forall (y : num) (cv : Canvas),
    drawAddress revLines x y lh cv
    = (stepUp y lh (List.length revLines),
       {| cv_width := cv_width cv; cv_height := cv_height cv;
          cv_font := cv_font cv; cv_fillStyle := cv_fillStyle cv;
          cv_textAlign := cv_textAlign cv;
          cv_textBaseline := cv_textBaseline cv;
          cv_ops := (cv_ops cv
                     ++ map (fun c => OpFillText (fst (fst c)) (snd (fst c))
                                        (snd c) (cv_font cv) (cv_fillStyle cv)
                                        (cv_textAlign cv) (cv_textBaseline cv))
                            (stack revLines x y lh))%list |}).
Proof.
  induction revLines as [|l rest IH]; intros y cv.
  - simpl. rewrite app_nil_r. now destruct cv.
  - cbn [drawAddress stack stepUp List.length map].
    unfold bind, fillText, paint. rewrite IH. cbn.
    now rewrite <- app_assoc.
Qed.

(** One invocation, start to end: the canvas is reset first, so what
    it held before plays no part. *)
Lemma onload_run (img : Bitmap) (image : CapturedImage) (cv : Canvas) :
  onload E img image cv
  = (toDataURL E (composite E img image) "image/jpeg" c0_85,
     composite E img image).
Proof.
  unfold onload, bind.
  cbn [resetCanvas drawImage paint setTextAlign setTextBaseline
       canvasWidth canvasHeight setFont setFillStyle fillRect fillText
       cv_width cv_height cv_font cv_fillStyle cv_textAlign
       cv_textBaseline cv_ops].
  rewrite wrapText_run.
  cbn [fst snd setFont setFillStyle fillRect fillText paint
       cv_width cv_height cv_font cv_fillStyle cv_textAlign
       cv_textBaseline cv_ops].
  rewrite drawAddress_run.
  cbn [fst snd setFont setFillStyle fillRect fillText paint
       cv_width cv_height cv_font cv_fillStyle cv_textAlign
       cv_textBaseline cv_ops].
  unfold composite, addressLines, textOp.
  rewrite length_rev.
  cbn [app]. rewrite <- !app_assoc. reflexivity.
Qed.

End Trace.

(** ** The claims on the wrapper *)

(** C3. Every line [wrapText] returns either measures at most
    [maxWidth], or is a single word of the text that is wider than
    [maxWidth] on its own; and words are never split: the lines are
    consecutive groups of whole words of the text, in order. *)
Theorem C3_wrap_width (E : Engine) (maxW : num) (text : string)
        (fontSize : num) (isBold : bool) (cv : Canvas) :
  let lines := fst (wrapText E maxW text fontSize isBold cv) in
  let width line := measureText E (Inter isBold fontSize) line in
  (forall line, In line lines ->
     Num.leb (width line) maxW = true
     \/ (In line (split_space text) /\ Num.leb (width line) maxW = false))
  /\ exists groups,
       lines = map join_space groups
       /\ List.concat groups = split_space text
       /\ Forall (fun g => g <> []) groups.
Proof.
  intros lines width. subst lines. rewrite wrapText_lines.
  pose proof (split_space_not_nil text) as Hne.
  destruct (split_space text) as [|w0 rest] eqn:Hs; [congruence|].
  cbn [hd tl]. split.
  - intros line Hin.
    pose proof (wrapLoop_width E maxW (w0 :: rest)
                  (snd (setFont (Inter isBold fontSize) cv)) rest [] w0) as H.
    cbn zeta in H.
    assert (Hall := H (incl_tl _ (incl_refl _)) (Forall_nil _)
                      (or_intror (or_introl eq_refl))).
    rewrite Forall_forall in Hall. specialize (Hall line Hin).
    change (cv_font (snd (setFont (Inter isBold fontSize) cv)))
      with (Inter isBold fontSize) in Hall.
    destruct Hall as [Hlt | Hw].
    + left. now apply ltb_leb.
    + destruct (Num.leb (width line) maxW) eqn:Hle; [now left | now right].
  - destruct (wrapLoop_groups E maxW rest
                (snd (setFont (Inter isBold fontSize) cv)) [] [w0])
      as (gs & H1 & H2 & H3); [discriminate | constructor |].
    exists gs. split; [exact H1|]. split; [exact H2 | exact H3].
Qed.

(** C4, as stated, fails: on ["a  b"], with two spaces, the lines join
    back to ["a  b"], which is not the whitespace-normalized ["a b"]. *)
Lemma C4_counterexample :
  join_space (fst (wrapText sampleEngine (maxWidth (Num.of_Z 1000))
                            "a  b" (baseFontSize (Num.of_Z 1000)) true blank))
  <> normalize_space "a  b".
Proof. vm_compute. discriminate. Qed.

(** C4, amended. Joining the returned lines with single spaces gives back
    the input string itself, character for character; it is the
    whitespace-normalized string exactly when the input was
    whitespace-normalized already. *)
Theorem C4_rejoin_exact (E : Engine) (maxW : num) (text : string)
        (fontSize : num) (isBold : bool) (cv : Canvas) :
  let lines := fst (wrapText E maxW text fontSize isBold cv) in
  join_space lines = text
  /\ (join_space lines = normalize_space text <-> normalize_space text = text).
Proof.
  intros lines.
  assert (H : join_space lines = text).
  { subst lines. rewrite wrapText_lines, wrapLoop_join.
    pose proof (split_space_not_nil text) as Hne.
    pose proof (join_split text) as Hj.
    destruct (split_space text) as [|w0 rest]; [congruence | exact Hj]. }
  split; [exact H|]. rewrite H. split; congruence.
Qed.

(** C9. On the empty string [wrapText] returns one line, the empty
    string; nothing is measured on the way. *)
Theorem C9_wrap_empty (E : Engine) (maxW fontSize : num) (isBold : bool)
        (cv : Canvas) :
  wrapText E maxW "" fontSize isBold cv
  = ([""], snd (setFont (Inter isBold fontSize) cv)).
Proof. reflexivity. Qed.

(** ** The claims on an invocation *)

Lemma stack_length (lines : list string) (x lh : num) :
  forall y, List.length (stack lines x y lh) = List.length lines.
Proof.
  induction lines as [|l rest IH]; intros y; [reflexivity|].
  simpl. now rewrite IH.
Qed.

Lemma stack_nth (lines : list string) (x lh : num) :
  forall (y : num) (k : nat),
    (k < List.length lines)%nat ->
    nth_error (stack lines x y lh) k = Some (nth k lines "", x, stepUp y lh k).
Proof.
  induction lines as [|l rest IH]; intros y k Hk; simpl in Hk; [lia|].
  destruct k as [|k]; [reflexivity|].
  simpl. apply IH. lia.
Qed.

Lemma textCalls_app (a b : list DrawOp) :
  textCalls (a ++ b) = (textCalls a ++ textCalls b)%list.
Proof.
  induction a as [|op a IH]; [reflexivity|].
  destruct op; simpl; now rewrite IH.
Qed.

Lemma textCalls_textOp (font : Font) (css : string)
      (l : list (string * num * num)) :
  textCalls (map (textOp font css) l) = l.
Proof.
  induction l as [|[[t x] y] l IH]; [reflexivity|].
  simpl. now rewrite IH.
Qed.

Lemma rectCalls_app (a b : list DrawOp) :
  rectCalls (a ++ b) = (rectCalls a ++ rectCalls b)%list.
Proof.
  induction a as [|op a IH]; [reflexivity|].
  destruct op; simpl; now rewrite IH.
Qed.

Lemma rectCalls_textOp (font : Font) (css : string)
      (l : list (string * num * num)) :
  rectCalls (map (textOp font css) l) = [].
Proof.
  induction l as [|c l IH]; [reflexivity | exact IH].
Qed.

(** The one rectangle an invocation paints. *)
Lemma onload_rect (E : Engine) (img : Bitmap) (image : CapturedImage)
      (cv : Canvas) :
  rectCalls (cv_ops (snd (onload E img image cv)))
  = [(Num.sub (Num.of_Z (bm_height img)) (paintedHeight E img image),
      paintedHeight E img image)].
Proof.
  rewrite onload_run. cbn [snd]. unfold composite. cbn [cv_ops].
  rewrite !rectCalls_app, rectCalls_textOp.
  unfold paintedHeight, textOp. cbn [rectCalls app]. reflexivity.
Qed.

(** The texts an invocation paints. *)
Lemma onload_texts (E : Engine) (img : Bitmap) (image : CapturedImage)
      (cv : Canvas) :
  let w := Num.of_Z (bm_width img) in
  let h := Num.of_Z (bm_height img) in
  let lines := addressLines E img image in
  let x := Num.sub w (padding w) in
  let y0 := Num.sub h (padding w) in
  let y1 := Num.sub y0 (smallLineHeight w) in
  let yP := stepUp y1 (lineHeight w) (List.length lines) in
  textCalls (cv_ops (snd (onload E img image cv)))
  = ((coordsStr E image, x, y0)
     :: stack (rev lines) x y1 (lineHeight w)
     ++ [((personStr image ++ " | " ++ deviceStr image)%string, x, yP);
         (fullTimeStr E image, x, timeBaseline E img image)])%list.
Proof.
  intros. rewrite onload_run. cbn [snd]. unfold composite. cbn [cv_ops].
  rewrite !textCalls_app, textCalls_textOp. reflexivity.
Qed.

(** C2. Two invocations on the same image and record paint the same
    canvas and hand out the same data URL, whatever the canvas held
    before; an invocation leaves the decoded image and the record as
    they were and delivers its result as a new value. *)
Theorem C2_deterministic (E : Engine) (img : Bitmap) (image : CapturedImage)
        (cv1 cv2 : Canvas) (done : list string) :
  let pg := {| pg_img := img; pg_image := image;
               pg_canvas := cv1; pg_processed := done |} in
  onload E img image cv1 = onload E img image cv2
  /\ pg_img (invoke E pg) = img
  /\ pg_image (invoke E pg) = image
  /\ pg_canvas (invoke E pg) = composite E img image
  /\ pg_processed (invoke E pg)
     = (done ++ [toDataURL E (composite E img image) "image/jpeg" c0_85])%list.
Proof.
  intros pg. split; [now rewrite !onload_run|].
  unfold invoke. subst pg. cbn [pg_img pg_image pg_canvas pg_processed].
  rewrite onload_run. repeat split.
Qed.

(** C5, as stated, fails: on a 1000 x 750 image with a one-line address
    the texts are not where the wording puts them (the address line is
    one [smallLineHeight] above the coordinates, not one [lineHeight]). *)
Lemma C5_counterexample :
  textCalls (cv_ops (snd (onload sampleEngine img1000 scenarioA blank)))
  <> wordedStack sampleEngine img1000 scenarioA.
Proof. vm_compute. intros H. inversion H. Qed.

Lemma textAligns_app (a b : list DrawOp) :
  textAligns (a ++ b) = (textAligns a ++ textAligns b)%list.
Proof.
  induction a as [|op a IH]; [reflexivity|].
  destruct op; simpl; now rewrite IH.
Qed.

Lemma textAligns_textOp (font : Font) (css : string)
      (l : list (string * num * num)) :
  textAligns (map (textOp font css) l)
  = repeat ("right", "bottom") (List.length l).
Proof.
  induction l as [|c l IH]; [reflexivity|].
  simpl. now rewrite IH.
Qed.

(** Every text of an invocation is painted right-aligned, anchored at
    its bottom edge. *)
Lemma onload_aligns (E : Engine) (img : Bitmap) (image : CapturedImage)
      (cv : Canvas) :
  textAligns (cv_ops (snd (onload E img image cv)))
  = repeat ("right", "bottom") (List.length (addressLines E img image) + 3).
Proof.
  rewrite onload_run. cbn [snd]. unfold composite. cbn [cv_ops].
  rewrite !textAligns_app, textAligns_textOp, stack_length, length_rev.
  cbn [textAligns textOp app].
  set (n := List.length (addressLines E img image)).
  replace (n + 3)%nat with (1 + (n + 2))%nat by lia.
  rewrite (repeat_app _ 1 (n + 2)), (repeat_app _ n 2). reflexivity.
Qed.

(** C5, amended. The texts are painted bottom-up, all right-aligned and
    anchored at [x = W - padding]: the coordinates at [H - padding]; the
    address lines in reverse order, the last wrapped line one
    [smallLineHeight] above the coordinates and each further line one
    [lineHeight] above the line before; the person | device line one
    [lineHeight] above the topmost address line; the time line one
    [smallLineHeight] and then [baseFontSize * 0.2] above the
    person | device line. *)
Theorem C5_stack_positions (E : Engine) (img : Bitmap)
        (image : CapturedImage) (cv : Canvas) :
  let w := Num.of_Z (bm_width img) in
  let h := Num.of_Z (bm_height img) in
  let lines := addressLines E img image in
  let n := List.length lines in
  let x := Num.sub w (padding w) in
  let y0 := Num.sub h (padding w) in
  let y1 := Num.sub y0 (smallLineHeight w) in
  let yP := stepUp y1 (lineHeight w) n in
  let yT := Num.sub (Num.sub yP (smallLineHeight w))
                    (Num.mul (baseFontSize w) c0_2) in
  textCalls (cv_ops (snd (onload E img image cv)))
  = ((coordsStr E image, x, y0)
     :: stack (rev lines) x y1 (lineHeight w)
     ++ [((personStr image ++ " | " ++ deviceStr image)%string, x, yP);
         (fullTimeStr E image, x, yT)])%list
  /\ (forall k, (k < n)%nat ->
        nth_error (stack (rev lines) x y1 (lineHeight w)) k
        = Some (nth (n - 1 - k) lines "", x, stepUp y1 (lineHeight w) k))
  /\ textAligns (cv_ops (snd (onload E img image cv)))
     = repeat ("right", "bottom") (n + 3).
Proof.
  intros. split; [apply onload_texts|]. split; [|apply onload_aligns].
  intros k Hk. rewrite stack_nth by (now rewrite length_rev).
  rewrite rev_nth by exact Hk.
  replace (n - 1 - k)%nat with (List.length lines - S k)%nat
    by (subst n; lia).
  reflexivity.
Qed.

(** C8, as stated, fails in its last part: on a 500 pixel wide image the
    resolved address of scenario A wraps to two lines and the
    placeholder, shown once the location is gone, to one, so the panel
    height and the painted panel change with the presence of the
    location. *)
Lemma C8_counterexample :
  panelHeight sampleEngine img500 scenarioA
  <> panelHeight sampleEngine img500 (withoutLocation scenarioA)
  /\ rectCalls (cv_ops (snd (onload sampleEngine img500 scenarioA blank)))
     <> rectCalls (cv_ops (snd (onload sampleEngine img500
                                       (withoutLocation scenarioA) blank))).
Proof. vm_compute. split; intros H; inversion H. Qed.

(** C8, amended. With a location the coordinates text is the latitude to
    six decimals, a comma and a space, and the longitude to six decimals;
    without one it is empty. The panel height reserves the
    [smallFontSize * 1.4] slot of the coordinates line either way, so it
    is the same for two records whose address texts wrap to the same
    number of lines, and in particular for a record whose address is not
    resolved and the same record without its location. *)
Theorem C8_coordinates_slot (E : Engine) (img : Bitmap)
        (image : CapturedImage) :
  let w := Num.of_Z (bm_width img) in
  (forall loc, location image = Some loc ->
     coordsStr E image
     = (toFixed E (lat loc) 6 ++ ", " ++ toFixed E (lng loc) 6)%string)
  /\ (location image = None -> coordsStr E image = "")
  /\ panelHeight E img image
     = Num.add
         (Num.add
            (Num.add
               (Num.add (Num.mul (timeFontSize w) c1_4)
                        (Num.mul (smallFontSize w) c1_4))
               (Num.mul (Num.of_Z (Z.of_nat (List.length (addressLines E img image))))
                        (Num.mul (baseFontSize w) c1_3)))
            (Num.mul (smallFontSize w) c1_4))
         (Num.mul (padding w) c2)
  /\ (forall image',
        List.length (addressLines E img image')
        = List.length (addressLines E img image) ->
        panelHeight E img image' = panelHeight E img image)
  /\ (addressStr image = placeholder ->
      panelHeight E img (withoutLocation image) = panelHeight E img image).
Proof.
  intros w. repeat split.
  - intros loc Hloc. unfold coordsStr. now rewrite Hloc.
  - intros Hloc. unfold coordsStr. now rewrite Hloc.
  - intros image' Hn. unfold panelHeight. now rewrite Hn.
  - intros Ha. unfold panelHeight, addressLines. now rewrite Ha.
Qed.

(** The lines of a wrapped text, joined, are the text. *)
Lemma wrapText_join (E : Engine) (maxW : num) (text : string)
      (fontSize : num) (isBold : bool) (cv : Canvas) :
  join_space (fst (wrapText E maxW text fontSize isBold cv)) = text.
Proof.
  rewrite wrapText_lines, wrapLoop_join.
  pose proof (split_space_not_nil text) as Hne.
  pose proof (join_split text) as Hj.
  destruct (split_space text) as [|w0 rest]; [congruence | exact Hj].
Qed.

(** C10. A record whose location is present and whose address is the
    empty string gets the placeholder in the address slot: its address
    text is the placeholder; the texts painted between the coordinates
    and the person | device line are the wrapped lines of the
    placeholder, which join to the placeholder; and the whole invocation
    is the one of the same record with the placeholder as its address,
    and the one of the same record with no address at all. *)
Theorem C10_empty_address (E : Engine) (img : Bitmap)
        (image : CapturedImage) (loc : GeoLocation) (cv : Canvas) :
  location image = Some loc ->
  address loc = Some "" ->
  let w := Num.of_Z (bm_width img) in
  let h := Num.of_Z (bm_height img) in
  let shown :=
    fst (wrapText E (maxWidth w) placeholder (baseFontSize w) true blank) in
  let x := Num.sub w (padding w) in
  let y0 := Num.sub h (padding w) in
  let y1 := Num.sub y0 (smallLineHeight w) in
  let yP := stepUp y1 (lineHeight w) (List.length shown) in
  let yT := Num.sub (Num.sub yP (smallLineHeight w))
                    (Num.mul (baseFontSize w) c0_2) in
  addressStr image = placeholder
  /\ addressLines E img image = shown
  /\ join_space shown = placeholder
  /\ textCalls (cv_ops (snd (onload E img image cv)))
     = ((coordsStr E image, x, y0)
        :: stack (rev shown) x y1 (lineHeight w)
        ++ [((personStr image ++ " | " ++ deviceStr image)%string, x, yP);
            (fullTimeStr E image, x, yT)])%list
  /\ onload E img image cv
     = onload E img (withAddress image (Some placeholder)) cv
  /\ onload E img image cv = onload E img (withAddress image None) cv.
Proof.
  intros Hloc Ha w h shown x y0 y1 yP yT.
  assert (H1 : addressStr image = placeholder).
  { unfold addressStr. now rewrite Hloc, Ha. }
  assert (H2 : addressStr (withAddress image None) = placeholder).
  { unfold addressStr, withAddress. cbn. now rewrite Hloc. }
  assert (H3 : forall a, coordsStr E (withAddress image a) = coordsStr E image).
  { intros a. unfold coordsStr, withAddress. cbn. now rewrite Hloc. }
  assert (H4 : addressStr (withAddress image (Some placeholder)) = placeholder).
  { unfold addressStr, withAddress. cbn. now rewrite Hloc. }
  assert (HL : addressLines E img image = shown).
  { unfold addressLines. now rewrite H1. }
  split; [exact H1|]. split; [exact HL|].
  split; [apply wrapText_join|]. split.
  - rewrite onload_texts. unfold timeBaseline. rewrite HL. reflexivity.
  - split; rewrite !onload_run; unfold composite, addressLines;
      rewrite H1, ?H2, ?H4, !H3; reflexivity.
Qed.

Lemma C10_empty_address_witness :
  let image := withAddress scenarioA (Some "") in
  let w := Num.of_Z (bm_width img1000) in
  let h := Num.of_Z (bm_height img1000) in
  let shown :=
    fst (wrapText sampleEngine (maxWidth w) placeholder (baseFontSize w)
                  true blank) in
  let x := Num.sub w (padding w) in
  let y0 := Num.sub h (padding w) in
  let y1 := Num.sub y0 (smallLineHeight w) in
  let yP := stepUp y1 (lineHeight w) (List.length shown) in
  let yT := Num.sub (Num.sub yP (smallLineHeight w))
                    (Num.mul (baseFontSize w) c0_2) in
  addressStr image = placeholder
  /\ addressLines sampleEngine img1000 image = shown
  /\ join_space shown = placeholder
  /\ textCalls (cv_ops (snd (onload sampleEngine img1000 image blank)))
     = ((coordsStr sampleEngine image, x, y0)
        :: stack (rev shown) x y1 (lineHeight w)
        ++ [((personStr image ++ " | " ++ deviceStr image)%string, x, yP);
            (fullTimeStr sampleEngine image, x, yT)])%list
  /\ onload sampleEngine img1000 image blank
     = onload sampleEngine img1000 (withAddress image (Some placeholder)) blank
  /\ onload sampleEngine img1000 image blank
     = onload sampleEngine img1000 (withAddress image None) blank.
Proof.
  apply (C10_empty_address sampleEngine img1000
           (withAddress scenarioA (Some ""))
           {| lat := Num.lit 10762622 1000000;
              lng := Num.lit 106660172 1000000;
              accuracy := Num.of_Z 5;
              loc_timestamp := Num.of_Z 1709276700000;
              address := Some "" |} blank); reflexivity.
Defined.

(** C1, as stated, fails: on a 1000 x 750 image with a one-line address
    the gradient rectangle is not [totalTextHeight] high, and the span of
    the drawn lines plus twice the padding is not its height either. *)
Lemma C1_counterexample :
  rectCalls (cv_ops (snd (onload sampleEngine img1000 scenarioA blank)))
  <> [(Num.sub (Num.of_Z 750) (panelHeight sampleEngine img1000 scenarioA),
       panelHeight sampleEngine img1000 scenarioA)]
  /\ Num.add (drawnSpan sampleEngine img1000 scenarioA)
             (Num.mul (padding (Num.of_Z 1000)) c2)
     <> paintedHeight sampleEngine img1000 scenarioA.
Proof. vm_compute. split; intros H; inversion H. Qed.

(** ** The claims on the sizes *)

Lemma baseFontSize_int (W : Z) :
  0 < W < 2 ^ 32 ->
  baseFontSize (Num.of_Z W) = Num.of_Z (Z.max 24 (35 * W / 1000)).
Proof.
  intros HW. unfold baseFontSize. rewrite floor_mul_035 by exact HW.
  change c24 with (Num.of_Z 24).
  assert (0 <= 35 * W / 1000 < 2 ^ 32).
  { split; [apply Z.div_pos; lia|].
    apply Z.div_lt_upper_bound; lia. }
  apply of_Z_max; lia.
Qed.

Lemma base_range (W : Z) :
  0 < W < 2 ^ 32 -> 24 <= Z.max 24 (35 * W / 1000) < 2 ^ 32.
Proof.
  intros HW.
  assert (35 * W / 1000 < 2 ^ 32) by (apply Z.div_lt_upper_bound; lia).
  lia.
Qed.

(** [smallFontSize]: the floor of the double product, which is
    [7 * b / 10] or one less. *)
Lemma smallFontSize_int (W : Z) :
  0 < W < 2 ^ 32 ->
  let b := Z.max 24 (35 * W / 1000) in
  exists s : Z,
    smallFontSize (Num.of_Z W) = Num.of_Z s
    /\ 7 * b / 10 - 1 <= s <= 7 * b / 10.
Proof.
  intros HW b. pose proof (base_range W HW) as Hb. fold b in Hb.
  unfold smallFontSize. rewrite baseFontSize_int by exact HW. fold b.
  destruct (floor_mul_0_7 b ltac:(lia)) as (V & -> & HV & HVl).
  exists (V / K). split; [reflexivity|].
  set (X := b * (6305039478318694 * 2 ^ 1021)) in *.
  assert (HK : 0 < K) by (apply pow2_pos; lia).
  pose proof (Z.div_mod (7 * b) 10 ltac:(lia)) as Hdm.
  pose proof (Z.mod_pos_bound (7 * b) 10 ltac:(lia)) as Hr.
  set (a := 7 * b / 10) in *. set (r := (7 * b) mod 10) in *.
  split.
  - apply Z.div_le_lower_bound; [exact HK|].
    unfold X, K in *. lia.
  - assert (V / K < a + 1); [|lia].
    apply Z.div_lt_upper_bound; [exact HK|].
    unfold X, K in *. lia.
Qed.

(** At a width of 2592 pixels the base size is 90 and the double product
    [90 * 0.7] is just below 63: the small size is 62. *)
Example smallFontSize_2592 :
  baseFontSize (Num.of_Z 2592) = Num.of_Z 90
  /\ smallFontSize (Num.of_Z 2592) = Num.of_Z 62.
Proof. split; reflexivity. Qed.

(** The four sizes as integers. *)
Lemma sizes_int (W : Z) :
  0 < W < 2 ^ 32 ->
  let w := Num.of_Z W in
  let b := Z.max 24 (35 * W / 1000) in
  baseFontSize w = Num.of_Z b
  /\ timeFontSize w = Num.of_Z (3 * b / 2)
  /\ smallFontSize w = Num.floor (Num.mul (Num.of_Z b) c0_7)
  /\ (exists s : Z,
        smallFontSize w = Num.of_Z s /\ 7 * b / 10 - 1 <= s <= 7 * b / 10)
  /\ padding w = Num.of_Z b.
Proof.
  intros HW w b. pose proof (base_range W HW) as Hb. fold b in Hb.
  assert (Hbase : baseFontSize w = Num.of_Z b) by (now apply baseFontSize_int).
  split; [exact Hbase|]. split.
  { unfold timeFontSize. rewrite Hbase. apply floor_mul_1_5. lia. }
  split.
  { unfold smallFontSize. now rewrite Hbase. }
  split.
  { now apply smallFontSize_int. }
  unfold padding. rewrite Hbase. apply floor_mul_1_0. lia.
Qed.

(** ** Numbers: the direction of rounding *)

(** [n] steps of the right shift keep, beside the quotient, the last bit
    shifted out and whether anything was shifted out before it. *)
Lemma shr_iter_loc (m : Z) (p : positive) :
  0 <= m ->
  let r := iter_pos shr_1 p (Build_shr_record m false false) in
  shr_m r = m / 2 ^ Zpos p
  /\ shr_r r = Z.odd (m / 2 ^ (Zpos p - 1))
  /\ shr_s r = negb (m mod 2 ^ (Zpos p - 1) =? 0)%Z.
Proof.
  intros Hm r.
  pose (I := fun (k : Z) (x : shr_record) =>
               shr_m x = m / 2 ^ k
               /\ ((k = 0 /\ shr_r x = false /\ shr_s x = false)
                   \/ (1 <= k /\ shr_r x = Z.odd (m / 2 ^ (k - 1))
                       /\ shr_s x = negb (m mod 2 ^ (k - 1) =? 0)%Z))).
  assert (HI : I (0 + Zpos p) r).
  { apply (iter_pos_inv shr_1 I); [|lia|].
    - intros k x Hk [Hx1 Hx2].
      assert (H2k : 0 < 2 ^ k) by (apply Z.pow_pos_nonneg; lia).
      assert (Hpos : 0 <= shr_m x).
      { rewrite Hx1. apply Z.div_pos; lia. }
      destruct (shr_1_spec x Hpos) as (H1 & H2 & H3).
      assert (Hpow : 2 ^ (k + 1) = 2 ^ k * 2) by (rewrite Z.pow_add_r; lia).
      split.
      + rewrite H1, Hx1, Hpow. rewrite Z.div_div by lia. reflexivity.
      + right. split; [lia|]. replace (k + 1 - 1) with k by lia.
        split; [now rewrite H2, Hx1|].
        rewrite H3.
        destruct Hx2 as [(-> & -> & ->)|(Hk1 & -> & ->)].
        * change (2 ^ 0) with 1. rewrite Z.mod_1_r. reflexivity.
        * assert (H2k1 : 0 < 2 ^ (k - 1)) by (apply Z.pow_pos_nonneg; lia).
          assert (Ek : 2 ^ k = 2 ^ (k - 1) * 2).
          { replace k with ((k - 1) + 1) at 1 by lia.
            rewrite Z.pow_add_r by lia. reflexivity. }
          rewrite Ek, Z.rem_mul_r by lia.
          pose proof (Z.mod_pos_bound m (2 ^ (k - 1)) H2k1) as B1.
          rewrite Zmod_odd.
          destruct (Z.odd (m / 2 ^ (k - 1))); cbn [orb].
          -- symmetry. apply negb_true_iff, Z.eqb_neq. lia.
          -- rewrite Z.mul_0_r, Z.add_0_r. reflexivity.
    - split; [change (2 ^ 0) with 1; now rewrite Z.div_1_r|].
      left. repeat split. }
  destruct HI as [H1 [(H0 & _)|(_ & H2 & H3)]]; [lia|].
  replace (0 + Zpos p) with (Zpos p) in * by lia.
  repeat split; assumption.
Qed.

(** What is kept decides the rounding as the remainder does. *)
Lemma shr_round (m : Z) (p : positive) :
  0 <= m ->
  let r := iter_pos shr_1 p (Build_shr_record m false false) in
  round_nearest_even (shr_m r) (loc_of_shr_record r)
  = nearest_even m (Zpos p).
Proof.
  intros Hm r. destruct (shr_iter_loc m p Hm) as (H1 & H2 & H3).
  fold r in H1, H2, H3.
  set (n := Zpos p) in *.
  assert (H2h : 0 < 2 ^ (n - 1)) by (apply Z.pow_pos_nonneg; lia).
  assert (En : 2 ^ n = 2 ^ (n - 1) * 2).
  { replace n with ((n - 1) + 1) at 1 by lia.
    rewrite Z.pow_add_r by lia. reflexivity. }
  pose proof (Z.mod_pos_bound m (2 ^ (n - 1)) H2h) as B1.
  assert (Erem : m mod 2 ^ n
                 = m mod 2 ^ (n - 1)
                   + 2 ^ (n - 1) * ((m / 2 ^ (n - 1)) mod 2)).
  { rewrite En at 1. rewrite Z.rem_mul_r by lia. reflexivity. }
  rewrite Zmod_odd in Erem.
  unfold nearest_even. rewrite <- H1.
  destruct r as [mm rr ss]. cbn [shr_m shr_r shr_s] in *. subst rr ss.
  unfold loc_of_shr_record.
  destruct (Z.odd (m / 2 ^ (n - 1))) eqn:Ho;
    destruct (Z.eqb_spec (m mod 2 ^ (n - 1)) 0) as [E0|N0];
    cbn [negb round_nearest_even].
  - (* the remainder is one half *)
    replace (2 * (m mod 2 ^ n) ?= 2 ^ n)%Z with Eq
      by (symmetry; apply Z.compare_eq_iff; lia).
    reflexivity.
  - replace (2 * (m mod 2 ^ n) ?= 2 ^ n)%Z with Gt
      by (symmetry; apply Z.compare_gt_iff; lia).
    reflexivity.
  - replace (2 * (m mod 2 ^ n) ?= 2 ^ n)%Z with Lt
      by (symmetry; apply Z.compare_lt_iff; lia).
    reflexivity.
  - replace (2 * (m mod 2 ^ n) ?= 2 ^ n)%Z with Lt
      by (symmetry; apply Z.compare_lt_iff; lia).
    reflexivity.
Qed.

Lemma nearest_even_cases (m n : Z) :
  nearest_even m n = m / 2 ^ n \/ nearest_even m n = m / 2 ^ n + 1.
Proof.
  unfold nearest_even.
  destruct (2 * (m mod 2 ^ n) ?= 2 ^ n)%Z; auto.
  destruct (Z.even (m / 2 ^ n)); auto.
Qed.

(** Scaling the number and the grid alike does not change the choice. *)
Lemma nearest_even_scale (m n a : Z) :
  0 <= n -> 0 <= a ->
  nearest_even (m * 2 ^ a) (n + a) = nearest_even m n.
Proof.
  intros Hn Ha.
  assert (H2n : 0 < 2 ^ n) by (apply Z.pow_pos_nonneg; lia).
  assert (H2a : 0 < 2 ^ a) by (apply Z.pow_pos_nonneg; lia).
  unfold nearest_even.
  rewrite Z.pow_add_r by lia.
  rewrite Z.div_mul_cancel_r by lia.
  rewrite Z.mul_mod_distr_r by lia.
  replace (2 * (m mod 2 ^ n * 2 ^ a)) with (2 * (m mod 2 ^ n) * 2 ^ a) by ring.
  rewrite <- Zmult_compare_compat_r by lia. reflexivity.
Qed.

(** A mantissa of more than 53 digits is rounded to the nearest one of
    53 digits, ties to even. *)
Lemma binary_round_aux_nearest (s : bool) (P : positive) (e : Z) :
  let d := Zpos (digits2_pos P) in
  let n := d - 53 in
  53 < d -> -1074 <= e + n -> e + d <= 1023 ->
  exists m' e',
    binary_round_aux 53 1024 s (Zpos P) e loc_Exact = S754_finite s m' e'
    /\ Zpos m' * 2 ^ (e' - e - n) = nearest_even (Zpos P) n.
Proof.
  intros d n Hd Hlo Hhi.
  set (q := Zpos P / 2 ^ n).
  assert (Hn : 0 < n) by (unfold n in *; lia).
  set (p := Z.to_pos n).
  assert (En : Zpos p = n) by (unfold p; rewrite Z2Pos.id; lia).
  pose proof (digits2_pos_bounds P) as [Blo Bhi]. fold d in Blo, Bhi.
  assert (H2n : 0 < 2 ^ n) by (apply pow2_pos; lia).
  assert (Hq : 2 ^ 52 <= q < 2 ^ 53).
  { unfold q. split.
    - apply Z.div_le_lower_bound; [lia|].
      replace (d - 1) with (n + 52) in Blo by (unfold n; lia).
      rewrite pow2_split in Blo by lia. lia.
    - apply Z.div_lt_upper_bound; [lia|].
      replace d with (n + 53) in Bhi by (unfold n; lia).
      rewrite pow2_split in Bhi by lia. lia. }
  (* the first shift *)
  pose proof (shr_round (Zpos P) p ltac:(lia)) as Hr.
  cbv zeta in Hr. rewrite En in Hr.
  set (r1 := iter_pos shr_1 p (Build_shr_record (Zpos P) false false)) in *.
  assert (Hshr1 : shr_fexp 53 1024 (Zpos P) e loc_Exact = (r1, e + n)).
  { unfold shr_fexp, fexp, emin. cbn [Zdigits2 shr_record_of_loc]. fold d.
    replace (Z.max (d + e - 53) (3 - 1024 - 53) - e) with (Zpos p)
      by (rewrite En; unfold n in *; lia).
    cbn [shr]. now rewrite En. }
  (* the rounded mantissa *)
  set (m1 := round_nearest_even (shr_m r1) (loc_of_shr_record r1)) in *.
  assert (Hm1 : m1 = q \/ m1 = q + 1).
  { rewrite Hr. apply nearest_even_cases. }
  unfold binary_round_aux. rewrite Hshr1. fold m1.
  destruct (Z_lt_le_dec m1 (2 ^ 53)) as [Hsmall|Hbig].
  - (* no carry *)
    destruct m1 as [|m1p|m1p] eqn:Em1; try lia.
    assert (Hd1 : Zpos (digits2_pos m1p) = 53)
      by (apply digits2_pos_unique; lia).
    assert (Hshr2 : shr_fexp 53 1024 (Zpos m1p) (e + n) loc_Exact
                    = (Build_shr_record (Zpos m1p) false false, e + n)).
    { unfold shr_fexp, fexp, emin. cbn [Zdigits2 shr_record_of_loc].
      rewrite Hd1.
      destruct (Z.max (53 + (e + n) - 53) (3 - 1024 - 53) - (e + n))
        as [|p'|p'] eqn:Hn'; try reflexivity. lia. }
    rewrite Hshr2. cbn [shr_m].
    destruct (Z.leb_spec (e + n) (1024 - 53)); [|unfold n in *; lia].
    exists m1p, (e + n). split; [reflexivity|].
    replace (e + n - e - n) with 0 by lia.
    rewrite Z.mul_1_r. exact Hr.
  - (* carry: the mantissa is 2^53 *)
    assert (Em1 : m1 = 2 ^ 53) by lia.
    rewrite Em1 in *.
    assert (Hshr2 : shr_fexp 53 1024 (2 ^ 53) (e + n) loc_Exact
                    = (Build_shr_record (2 ^ 52) false false, e + n + 1)).
    { unfold shr_fexp, fexp, emin.
      change (Zdigits2 (2 ^ 53)) with 54.
      replace (Z.max (54 + (e + n) - 53) (3 - 1024 - 53) - (e + n)) with 1
        by lia.
      reflexivity. }
    rewrite Hshr2. cbn [shr_m].
    change (2 ^ 52) with (Zpos (2 ^ 52)%positive).
    cbv iota beta.
    destruct (Z.leb_spec (e + n + 1) (1024 - 53)); [|unfold n in *; lia].
    exists (2 ^ 52)%positive, (e + n + 1).
    split; [reflexivity|].
    replace (e + n + 1 - e - n) with 1 by lia.
    rewrite <- Hr. reflexivity.
Qed.

(** The product of two positive numbers with full mantissas: the exact
    product [X], rounded to the nearest multiple of the spacing [2^j] of
    the doubles around it, ties to even. *)
Lemma mul_nearest (m1 m2 : positive) (e1 e2 : Z) :
  Zpos (digits2_pos m1) = 53 -> Zpos (digits2_pos m2) = 53 ->
  -1074 <= e1 + e2 -> e1 + e2 <= 917 ->
  let X := Zpos m1 * Zpos m2 * 2 ^ (e1 + e2 + 1074) in
  exists j : Z,
    0 <= j /\ 2 ^ (j + 52) <= X < 2 ^ (j + 53)
    /\ iv (Num.mul (S754_finite false m1 e1) (S754_finite false m2 e2))
       = nearest_even X j * 2 ^ j.
Proof.
  intros D1 D2 Hlo Hhi X.
  pose proof (digits2_pos_bounds m1) as B1. rewrite D1 in B1.
  pose proof (digits2_pos_bounds m2) as B2. rewrite D2 in B2.
  pose proof (digits2_pos_bounds (m1 * m2)) as BP.
  set (d := Zpos (digits2_pos (m1 * m2))) in *.
  rewrite Pos2Z.inj_mul in BP.
  assert (Hd : 105 <= d <= 106).
  { change (2 ^ (53 - 1)) with (2 ^ 52) in *.
    assert (L : 2 ^ 104 <= Zpos m1 * Zpos m2).
    { change (2 ^ 104) with (2 ^ 52 * 2 ^ 52). nia. }
    assert (U : Zpos m1 * Zpos m2 < 2 ^ 106).
    { change (2 ^ 106) with (2 ^ 53 * 2 ^ 53). nia. }
    split.
    - destruct (Z_le_gt_dec 105 d); [assumption|].
      assert (2 ^ d <= 2 ^ 104) by (apply Z.pow_le_mono_r; lia). lia.
    - destruct (Z_le_gt_dec d 106); [assumption|].
      assert (2 ^ 106 <= 2 ^ (d - 1)) by (apply Z.pow_le_mono_r; lia). lia. }
  destruct (binary_round_aux_nearest false (m1 * m2) (e1 + e2))
    as (m' & e' & H1 & H4); fold d; try lia.
  fold d in H4. rewrite Pos2Z.inj_mul in H4.
  destruct (binary_round_aux_round false (m1 * m2) (e1 + e2))
    as (m'' & e'' & H1' & _ & H3 & _); fold d; try lia.
  fold d in H3.
  assert (Ee : e'' = e') by congruence. subst e''. clear H1' m''.
  set (n := d - 53) in *. set (e := e1 + e2) in *.
  set (j := e + n + 1074).
  assert (H2n : 0 < 2 ^ n) by (apply pow2_pos; unfold n; lia).
  assert (H2e : 0 < 2 ^ (e + 1074)) by (apply pow2_pos; lia).
  exists j. split; [unfold j, n; lia|]. split.
  { unfold X. fold e.
    replace (j + 52) with ((d - 1) + (e + 1074)) by (unfold j, n; lia).
    replace (j + 53) with (d + (e + 1074)) by (unfold j, n; lia).
    rewrite (pow2_split (d - 1) (e + 1074)), (pow2_split d (e + 1074)) by lia.
    split.
    - apply Z.mul_le_mono_nonneg_r; lia.
    - apply Z.mul_lt_mono_pos_r; lia. }
  change (Num.mul (S754_finite false m1 e1) (S754_finite false m2 e2))
    with (binary_round_aux 53 1024 false (Zpos (m1 * m2)) (e1 + e2) loc_Exact).
  fold e. rewrite H1. cbn [iv cond_Zopp].
  unfold X. fold e. unfold j.
  replace (e + n + 1074) with (n + (e + 1074)) by lia.
  rewrite nearest_even_scale by (unfold n; lia).
  rewrite <- H4.
  replace (e' + 1074) with ((e' - e - n) + (n + (e + 1074))) by lia.
  rewrite (pow2_split (e' - e - n)) by (unfold n in *; lia). ring.
Qed.

Lemma mul_int_nearest (n : Z) (mc : positive) (ec : Z) :
  0 < n < 2 ^ 53 -> Zpos (digits2_pos mc) = 53 -> -1022 <= ec <= 900 ->
  let X := n * (Zpos mc * 2 ^ (ec + 1074)) in
  exists j : Z,
    0 <= j /\ 2 ^ (j + 52) <= X < 2 ^ (j + 53)
    /\ iv (Num.mul (Num.of_Z n) (S754_finite false mc ec))
       = nearest_even X j * 2 ^ j.
Proof.
  intros Hn Dc Hec X.
  destruct (of_Z_pos n Hn) as (mn & dn & En & Dn & Hdn & Bn & Hmn).
  destruct (mul_nearest mn mc (dn - 53) ec Dn Dc ltac:(lia) ltac:(lia))
    as (j & Hj & HjX & Hv).
  assert (EX : Zpos mn * Zpos mc * 2 ^ (dn - 53 + ec + 1074) = X).
  { unfold X. rewrite Hmn.
    replace (ec + 1074) with ((53 - dn) + (dn - 53 + ec + 1074)) by lia.
    rewrite (pow2_split (53 - dn) (dn - 53 + ec + 1074)) by lia. ring. }
  rewrite EX in HjX, Hv. exists j. rewrite En.
  split; [exact Hj|]. split; [exact HjX | exact Hv].
Qed.

Lemma pow2_mod_7 (E : Z) :
  0 <= E -> 2 ^ E mod 7 = 1 \/ 2 ^ E mod 7 = 2 \/ 2 ^ E mod 7 = 4.
Proof.
  revert E. apply natlike_ind; [now left|].
  intros E HE IH. rewrite Z.pow_succ_r by exact HE.
  rewrite Z.mul_mod by lia.
  destruct IH as [->|[->| ->]]; cbn; auto.
Qed.

Lemma seven_not_pow2 (k E : Z) : 0 <= E -> 7 * k <> 2 ^ E.
Proof.
  intros HE H. pose proof (pow2_mod_7 E HE) as Hm.
  rewrite <- H, Z.mul_comm, Z.mod_mul in Hm by lia. lia.
Qed.

(** [Math.floor(b * 0.7)] where [b] is not a multiple of ten. *)
Lemma floor_0_7_off (b : Z) :
  0 < b < 2 ^ 32 -> (7 * b) mod 10 <> 0 ->
  Num.floor (Num.mul (Num.of_Z b) c0_7) = Num.of_Z (7 * b / 10).
Proof.
  intros Hb Hr.
  destruct (floor_mul_0_7 b Hb) as (V & -> & HV & HVl).
  f_equal.
  set (X := b * (6305039478318694 * 2 ^ 1021)) in *.
  assert (HK : 0 < K) by (apply pow2_pos; lia).
  pose proof (Z.div_mod (7 * b) 10 ltac:(lia)) as Hdm.
  pose proof (Z.mod_pos_bound (7 * b) 10 ltac:(lia)) as Hr'.
  set (a := 7 * b / 10) in *. set (r := (7 * b) mod 10) in *.
  assert (HXa : a * K <= X).
  { unfold X, K in *. lia. }
  assert (HXK : a <= X / K) by (apply Z.div_le_lower_bound; lia).
  assert (Ha : a * K <= V).
  { pose proof (Z.mul_le_mono_nonneg_r a (X / K) K ltac:(lia) HXK). lia. }
  symmetry. apply (Z.div_unique_pos V K a (V - a * K)); [|lia].
  split; [lia|]. unfold X, K in *. lia.
Qed.

(** [Math.floor(b * 0.7)] where [b] is a multiple of ten. *)
Lemma floor_0_7_tens (k : Z) :
  3 <= k -> 10 * k < 2 ^ 32 ->
  Num.floor (Num.mul (Num.of_Z (10 * k)) c0_7)
  = Num.of_Z (if (2 ^ Z.log2 (7 * k) <? 4 * k)%Z then 7 * k - 1 else 7 * k).
Proof.
  intros Hk Hk32. unfold c0_7.
  destruct (mul_int_spec (10 * k) 6305039478318694 (-53))
    as (m' & e' & j0 & Emul & _ & _ & _ & _ & _ & _ & _ & Hfl);
    [lia | reflexivity | lia
     | unfold K; change (-53 + 1074) with 1021; lia |].
  destruct (mul_int_nearest (10 * k) 6305039478318694 (-53))
    as (j & Hj0 & HjX & Hv); [lia | reflexivity | lia |].
  rewrite Emul in Hv. cbn [iv cond_Zopp] in Hv.
  rewrite Hfl, Hv. clear Hfl Hv Emul m' e' j0. f_equal.
  change (-53 + 1074) with 1021 in *.
  set (X := 10 * k * (6305039478318694 * 2 ^ 1021)) in *.
  set (T := 2 ^ 1023).
  assert (HT : 0 < T) by reflexivity.
  assert (HKT : K = 2 ^ 51 * T) by reflexivity.
  assert (HX : X = (7 * k * 2 ^ 51 - k) * T).
  { unfold X, T. lia. }
  (* the binade of [7 * k] *)
  set (E := Z.log2 (7 * k)).
  destruct (Z.log2_spec (7 * k) ltac:(lia)) as [EL EU]. fold E in EL, EU.
  assert (HE0 : 0 <= E) by apply Z.log2_nonneg.
  assert (HE4 : 4 <= E).
  { destruct (Z_le_gt_dec 4 E); [assumption|].
    assert (2 ^ Z.succ E <= 2 ^ 4) by (apply Z.pow_le_mono_r; lia). lia. }
  assert (HE31 : E <= 31).
  { assert (E < 32); [|lia]. apply pow2_lt_inv; lia. }
  set (a := 2 ^ (E - 1)). set (c := 2 ^ (52 - E)).
  assert (Ha : 0 < a) by (apply pow2_pos; lia).
  assert (Hc : 0 < c) by (apply pow2_pos; lia).
  assert (HEa : 2 ^ E = 2 * a).
  { unfold a. replace E with (1 + (E - 1)) at 1 by lia.
    rewrite pow2_split by lia. reflexivity. }
  assert (Hac : a * c = 2 ^ 51).
  { unfold a, c. rewrite <- pow2_split by lia. f_equal. lia. }
  assert (Hc2 : c = 2 * 2 ^ (51 - E)).
  { unfold c. replace (52 - E) with (1 + (51 - E)) by lia.
    rewrite pow2_split by lia. reflexivity. }
  assert (Ha30 : a <= 2 ^ 30).
  { unfold a. apply Z.pow_le_mono_r; lia. }
  rewrite HEa in EL. replace (2 ^ Z.succ E) with (4 * a) in EU
    by (unfold Z.succ; rewrite pow2_split, HEa by lia; lia).
  pose proof (seven_not_pow2 k E HE0) as Hne. rewrite HEa in Hne.
  (* the spacing *)
  assert (Hj : j = E + 1022).
  { assert (L : 2 ^ (E + 1074) <= X).
    { rewrite pow2_split, HEa by lia. fold K. rewrite HX, HKT. unfold T. lia. }
    assert (U : X < 2 ^ (E + 1075)).
    { replace (E + 1075) with (Z.succ E + 1074) by lia.
      rewrite pow2_split by lia. fold K.
      replace (2 ^ Z.succ E) with (4 * a)
        by (unfold Z.succ; rewrite pow2_split, HEa by lia; lia).
      rewrite HX, HKT. unfold T. lia. }
    assert (j + 52 < E + 1075) by (apply pow2_lt_inv; lia).
    assert (E + 1074 < j + 53) by (apply pow2_lt_inv; lia).
    lia. }
  subst j. clear HjX.
  assert (H2j : 2 ^ (E + 1022) = a * T).
  { replace (E + 1022) with ((E - 1) + 1023) by lia.
    rewrite pow2_split by lia. reflexivity. }
  rewrite H2j, HX. unfold T at 1.
  replace (E + 1022) with ((E - 1) + 1023) by lia.
  rewrite nearest_even_scale by lia.
  (* the quotient and the remainder *)
  set (M := 7 * k * 2 ^ 51 - k).
  assert (HM : M = a * (7 * k * c - 1) + (a - k)).
  { unfold M. rewrite <- Hac. ring. }
  assert (Hq : M / a = 7 * k * c - 1).
  { symmetry. apply (Z.div_unique_pos M a _ (a - k)); [lia | exact HM]. }
  assert (Hrm : M mod a = a - k).
  { symmetry. apply (Z.mod_unique_pos M a (7 * k * c - 1)); [lia | exact HM]. }
  assert (Hodd : Z.even (7 * k * c - 1) = false).
  { rewrite Hc2.
    replace (7 * k * (2 * 2 ^ (51 - E)) - 1)
      with (1 + 2 * (7 * k * 2 ^ (51 - E) - 1)) by ring.
    rewrite Z.even_add_mul_2. reflexivity. }
  assert (HupV : 7 * k * c * (a * T) = 7 * k * K).
  { rewrite HKT, <- Hac. ring. }
  assert (HdnV : (7 * k * c - 1) * (a * T) = (7 * k - 1) * K + (K - a * T)).
  { rewrite HKT, <- Hac. ring. }
  assert (HaT : 0 < a * T <= K).
  { rewrite HKT. unfold T. lia. }
  assert (HK : 0 < K) by (apply pow2_pos; lia).
  unfold nearest_even. fold a. rewrite Hq, Hrm, HEa.
  destruct (Z.ltb_spec (2 * a) (4 * k)) as [Hlt|Hge].
  - replace (2 * (a - k) ?= a)%Z with Lt
      by (symmetry; apply Z.compare_lt_iff; lia).
    rewrite HdnV. symmetry.
    apply (Z.div_unique_pos _ K (7 * k - 1) (K - a * T)); [lia | ring].
  - assert (Hup : match (2 * (a - k) ?= a)%Z with
                  | Lt => 7 * k * c - 1
                  | Eq => if Z.even (7 * k * c - 1)
                          then 7 * k * c - 1 else 7 * k * c - 1 + 1
                  | Gt => 7 * k * c - 1 + 1
                  end = 7 * k * c).
    { destruct (Z.compare_spec (2 * (a - k)) a) as [He|Hl|Hg].
      - rewrite Hodd. lia.
      - lia.
      - lia. }
    rewrite Hup, HupV. apply Z.div_mul. lia.
Qed.

(** [Math.floor(b * 0.7)] for every base size. *)
Lemma floor_0_7_exact (b : Z) :
  24 <= b < 2 ^ 32 ->
  Num.floor (Num.mul (Num.of_Z b) c0_7) = Num.of_Z (floor_0_7 b).
Proof.
  intros Hb. unfold floor_0_7.
  pose proof (Z.div_mod b 10 ltac:(lia)) as Hdm.
  pose proof (Z.mod_pos_bound b 10 ltac:(lia)) as Hr.
  destruct (Z.eqb_spec (b mod 10) 0) as [H0|H0]; cbn [andb].
  - rewrite H0, Z.add_0_r in Hdm. set (k := b / 10) in *.
    assert (E7 : 7 * b / 10 = 7 * k).
    { rewrite Hdm. replace (7 * (10 * k)) with (7 * k * 10) by ring.
      apply Z.div_mul. lia. }
    rewrite E7. rewrite Hdm at 1. apply floor_0_7_tens; lia.
  - apply floor_0_7_off; [lia|].
    intros H7.
    pose proof (Z.div_mod (7 * b) 10 ltac:(lia)) as Hdm7.
    rewrite H7, Z.add_0_r in Hdm7.
    set (u := 7 * b / 10) in *. set (q := b / 10) in *.
    set (r := b mod 10) in *. lia.
Qed.

(** [canvas.width * 0.9]: the double product and the exact one. *)
Lemma maxWidth_near (W : Z) :
  0 < W < 2 ^ 32 ->
  Z.abs (10 * iv (maxWidth (Num.of_Z W)) - 9 * (W * K)) * 2 ^ 52
  <= 11 * (W * K).
Proof.
  intros HW. unfold maxWidth.
  destruct (mul_int_fin W 8106479329266893 (-53)) as (_ & E & _);
    [lia | reflexivity | lia | unfold K; lia |].
  change (S754_finite false 8106479329266893 (-53)) with c0_9 in E.
  change (-53 + 1074) with 1021 in E.
  unfold K. lia.
Qed.

(** C6, as stated, fails for the small size: at a width of 2592 pixels
    the base size is 90 and [floor(90 * 0.7)] is 63, while the double
    product [90 * 0.7] is just below 63 and the code gives 62. *)
Lemma C6_counterexample :
  smallFontSize (Num.of_Z 2592) <> Num.of_Z (wordedSmallFontSize 2592).
Proof. vm_compute. discriminate. Qed.

(** C6, amended. For a width [W] of up to 32 bits, with
    [b = max(24, floor(W * 0.035))] in exact arithmetic:
    [baseFontSize = b], [timeFontSize = floor(3 * b / 2)] and
    [padding = b]; [smallFontSize] is the floor of the double product
    [b * 0.7], which is [floor(7 * b / 10)] unless [b] is a multiple of
    ten and [2 ^ floor(log2(7 * b / 10)) < 4 * (b / 10)], when it is one
    less; [maxWidth] is the double product [W * 0.9], which is within
    [1.1 * W * 2^-52] of [0.9 * W]. *)
Theorem C6_sizes (W : Z) :
  0 < W < 2 ^ 32 ->
  let w := Num.of_Z W in
  let b := Z.max 24 (35 * W / 1000) in
  baseFontSize w = Num.of_Z b
  /\ timeFontSize w = Num.of_Z (3 * b / 2)
  /\ smallFontSize w = Num.floor (Num.mul (Num.of_Z b) c0_7)
  /\ smallFontSize w = Num.of_Z (floor_0_7 b)
  /\ (b mod 10 <> 0 -> smallFontSize w = Num.of_Z (7 * b / 10))
  /\ 7 * b / 10 - 1 <= floor_0_7 b <= 7 * b / 10
  /\ padding w = Num.of_Z b
  /\ maxWidth w = Num.mul w c0_9
  /\ Z.abs (10 * iv (maxWidth w) - 9 * (W * K)) * 2 ^ 52 <= 11 * (W * K).
Proof.
  intros HW w b.
  destruct (sizes_int W HW) as (HB & HT & HS & _ & HP).
  fold w in HB, HT, HS, HP. fold b in HB, HT, HS, HP.
  pose proof (base_range W HW) as Hb. fold b in Hb.
  assert (HS' : smallFontSize w = Num.of_Z (floor_0_7 b)).
  { rewrite HS. apply floor_0_7_exact. lia. }
  split; [exact HB|]. split; [exact HT|]. split; [exact HS|].
  split; [exact HS'|]. split.
  { intros Hm. rewrite HS'. unfold floor_0_7.
    destruct (Z.eqb_spec (b mod 10) 0); [contradiction | reflexivity]. }
  split.
  { unfold floor_0_7.
    destruct ((b mod 10 =? 0)%Z && (2 ^ Z.log2 (7 * b / 10) <? 4 * (b / 10))%Z);
      lia. }
  split; [exact HP|]. split; [reflexivity|].
  apply maxWidth_near. exact HW.
Qed.

Lemma C6_sizes_witness :
  let w := Num.of_Z 2592 in
  let b := Z.max 24 (35 * 2592 / 1000) in
  baseFontSize w = Num.of_Z b
  /\ timeFontSize w = Num.of_Z (3 * b / 2)
  /\ smallFontSize w = Num.floor (Num.mul (Num.of_Z b) c0_7)
  /\ smallFontSize w = Num.of_Z (floor_0_7 b)
  /\ (b mod 10 <> 0 -> smallFontSize w = Num.of_Z (7 * b / 10))
  /\ 7 * b / 10 - 1 <= floor_0_7 b <= 7 * b / 10
  /\ padding w = Num.of_Z b
  /\ maxWidth w = Num.mul w c0_9
  /\ Z.abs (10 * iv (maxWidth w) - 9 * (2592 * K)) * 2 ^ 52
     <= 11 * (2592 * K).
Proof. apply (C6_sizes 2592). vm_compute. split; reflexivity. Defined.

(** C7. Between two widths [W1 <= W2] of up to 32 bits none of the four
    sizes goes down. *)
Theorem C7_sizes_monotone (W1 W2 : Z) :
  0 < W1 -> W1 <= W2 -> W2 < 2 ^ 32 ->
  let w1 := Num.of_Z W1 in
  let w2 := Num.of_Z W2 in
  Num.leb (baseFontSize w1) (baseFontSize w2) = true
  /\ Num.leb (timeFontSize w1) (timeFontSize w2) = true
  /\ Num.leb (smallFontSize w1) (smallFontSize w2) = true
  /\ Num.leb (padding w1) (padding w2) = true.
Proof.
  intros H1 H12 H2 w1 w2.
  destruct (sizes_int W1 ltac:(lia)) as (B1 & T1 & S1 & _ & P1).
  destruct (sizes_int W2 ltac:(lia)) as (B2 & T2 & S2 & _ & P2).
  pose proof (base_range W1 ltac:(lia)) as R1.
  pose proof (base_range W2 ltac:(lia)) as R2.
  set (b1 := Z.max 24 (35 * W1 / 1000)) in *.
  set (b2 := Z.max 24 (35 * W2 / 1000)) in *.
  assert (Hb : b1 <= b2).
  { assert (35 * W1 / 1000 <= 35 * W2 / 1000)
      by (apply Z.div_le_mono; lia).
    unfold b1, b2. lia. }
  fold w1 in B1, T1, S1, P1. fold w2 in B2, T2, S2, P2.
  assert (HK : 0 < K) by (apply pow2_pos; lia).
  split; [|split; [|split]].
  - rewrite B1, B2, of_Z_leb by lia. now apply Z.leb_le.
  - assert (3 * b1 / 2 <= 3 * b2 / 2) by (apply Z.div_le_mono; lia).
    assert (3 * b2 / 2 < 2 ^ 53) by (apply Z.div_lt_upper_bound; lia).
    assert (0 <= 3 * b1 / 2) by (apply Z.div_pos; lia).
    rewrite T1, T2, of_Z_leb by lia. now apply Z.leb_le.
  - rewrite S1, S2.
    assert (Hs : forall b V, 0 < b < 2 ^ 32 ->
              b * (6305039478318694 * 2 ^ 1021) - 2 ^ 1053 <= V
              <= b * (6305039478318694 * 2 ^ 1021) + 2 ^ 1053 ->
              0 <= V / K < 2 ^ 53).
    { intros b V Hb' HV. split.
      - apply Z.div_pos; [lia | exact HK].
      - apply Z.div_lt_upper_bound; [exact HK|]. unfold K. lia. }
    destruct (Z.eq_dec b1 b2) as [E|N].
    + rewrite E.
      destruct (floor_mul_0_7 b2 ltac:(lia)) as (V2 & -> & HV2 & _).
      pose proof (Hs b2 V2 ltac:(lia) HV2).
      rewrite of_Z_leb by lia. apply Z.leb_refl.
    + destruct (floor_mul_0_7 b1 ltac:(lia)) as (V1 & -> & HV1 & _).
      destruct (floor_mul_0_7 b2 ltac:(lia)) as (V2 & -> & HV2 & _).
      pose proof (Hs b1 V1 ltac:(lia) HV1).
      pose proof (Hs b2 V2 ltac:(lia) HV2).
      rewrite of_Z_leb by lia. apply Z.leb_le.
      apply Z.div_le_mono; [exact HK | lia].
  - rewrite P1, P2, of_Z_leb by lia. now apply Z.leb_le.
Qed.

Lemma C7_sizes_monotone_witness :
  Num.leb (baseFontSize (Num.of_Z 800)) (baseFontSize (Num.of_Z 2592)) = true
  /\ Num.leb (timeFontSize (Num.of_Z 800)) (timeFontSize (Num.of_Z 2592)) = true
  /\ Num.leb (smallFontSize (Num.of_Z 800)) (smallFontSize (Num.of_Z 2592)) = true
  /\ Num.leb (padding (Num.of_Z 800)) (padding (Num.of_Z 2592)) = true.
Proof. apply (C7_sizes_monotone 800 2592); vm_compute; congruence. Defined.


(** ** The claim on the panel *)

Lemma wrapLoop_not_nil (E : Engine) (maxW : num) (words lines : list string)
      (cur : string) (cv : Canvas) :
  fst (wrapLoop E maxW words lines cur cv) <> [].
Proof.
  revert lines cur.
  induction words as [|w rest IH]; intros lines cur.
  - simpl. destruct lines; discriminate.
  - rewrite wrapLoop_cons. destruct (Num.ltb _ maxW); apply IH.
Qed.

Lemma addressLines_not_nil (E : Engine) (img : Bitmap)
      (image : CapturedImage) :
  (1 <= List.length (addressLines E img image))%nat.
Proof.
  unfold addressLines. rewrite wrapText_lines.
  pose proof (wrapLoop_not_nil E
                (maxWidth (Num.of_Z (bm_width img)))
                (tl (split_space (addressStr image))) []
                (hd "" (split_space (addressStr image)))
                (snd (setFont (Inter true (baseFontSize (Num.of_Z (bm_width img))))
                              blank))) as H.
  destruct (fst (wrapLoop _ _ _ _ _ _)); [congruence | simpl; lia].
Qed.

Lemma stack_In (lines : list string) (x lh : num) :
  forall (y0 : num) (l : string) (x' y : num),
    In (l, x', y) (stack lines x y0 lh) ->
    exists k, (k < List.length lines)%nat /\ y = stepUp y0 lh k.
Proof.
  induction lines as [|l0 rest IH]; intros y0 l x' y Hin; [contradiction|].
  destruct Hin as [Heq | Hin].
  - inversion Heq; subst. exists 0%nat. split; [simpl; lia | reflexivity].
  - destruct (IH _ _ _ _ Hin) as (k & Hk & ->).
    exists (S k). split; [simpl; lia | reflexivity].
Qed.

(** C1, amended. The panel height the handler computes is the sum of the
    reserved line heights (the time line at [timeFontSize * 1.4], the
    person line at [smallFontSize * 1.4], each address line at
    [baseFontSize * 1.3], the coordinates line at [smallFontSize * 1.4])
    plus twice the padding. The gradient rectangle it paints is one
    padding higher than that, from [H - gradientHeight] down to [H]. For
    an image of up to 32 bits a side and up to 1024 address lines every
    drawn line lies inside the painted rectangle: each baseline, and the
    top of the slot of the time line above its baseline, is between the
    top of the rectangle and the bottom of the image. *)
Theorem C1_panel (E : Engine) (img : Bitmap) (image : CapturedImage)
        (cv : Canvas) :
  0 < bm_width img < 2 ^ 32 ->
  0 < bm_height img < 2 ^ 32 ->
  (List.length (addressLines E img image) <= 1024)%nat ->
  let w := Num.of_Z (bm_width img) in
  let h := Num.of_Z (bm_height img) in
  let n := List.length (addressLines E img image) in
  let ops := cv_ops (snd (onload E img image cv)) in
  let panelTop := Num.sub h (paintedHeight E img image) in
  panelHeight E img image
  = Num.add
      (Num.add
         (Num.add
            (Num.add (Num.mul (timeFontSize w) c1_4)
                     (Num.mul (smallFontSize w) c1_4))
            (Num.mul (Num.of_Z (Z.of_nat n)) (Num.mul (baseFontSize w) c1_3)))
         (Num.mul (smallFontSize w) c1_4))
      (Num.mul (padding w) c2)
  /\ paintedHeight E img image
     = Num.add (panelHeight E img image) (padding w)
  /\ rectCalls ops = [(panelTop, paintedHeight E img image)]
  /\ (forall text x y,
        In (text, x, y) (textCalls ops) ->
        Num.leb panelTop y = true /\ Num.leb y h = true)
  /\ Num.leb panelTop
             (Num.sub (timeBaseline E img image)
                      (Num.mul (timeFontSize w) c1_4)) = true.
Proof.
  intros HW HH Hn w h n ops panelTop.
  split; [reflexivity|]. split; [reflexivity|].
  split; [apply onload_rect|].
  destruct (sizes_int (bm_width img) HW) as (HB & HT & _ & (s & HS & Hs) & HP).
  fold w in HB, HT, HS, HP.
  pose proof (base_range (bm_width img) HW) as Hb.
  set (b := Z.max 24 (35 * bm_width img / 1000)) in *.
  assert (Hb28 : 24 <= b < 2 ^ 28).
  { assert (35 * bm_width img / 1000 < 2 ^ 28)
      by (apply Z.div_lt_upper_bound; lia).
    unfold b. lia. }
  assert (Ht : 0 < 3 * b / 2 <= 2 * b).
  { split.
    - apply Z.div_str_pos. lia.
    - apply Z.div_le_upper_bound; lia. }
  assert (Hs' : 0 < s <= b).
  { assert (7 * b / 10 <= b) by (apply Z.div_le_upper_bound; lia).
    assert (16 <= 7 * b / 10) by (apply Z.div_le_lower_bound; lia).
    lia. }
  pose proof (addressLines_not_nil E img image) as Hn1. fold n in Hn, Hn1.
  destruct (panel_contains b (3 * b / 2) s (bm_height img) n
              Hb28 Ht Hs' HH (conj Hn1 Hn))
    as (P0 & P0h & Pk & PT & PTh & Ptop).
  assert (Etop : panelTop
                 = Num.sub h
                     (Num.add
                        (Num.add
                           (Num.add
                              (Num.add
                                 (Num.add (Num.mul (Num.of_Z (3 * b / 2)) c1_4)
                                          (Num.mul (Num.of_Z s) c1_4))
                                 (Num.mul (Num.of_Z (Z.of_nat n))
                                          (Num.mul (Num.of_Z b) c1_3)))
                              (Num.mul (Num.of_Z s) c1_4))
                           (Num.mul (Num.of_Z b) c2))
                        (Num.of_Z b))).
  { unfold panelTop, paintedHeight, gradientHeight, totalTextHeight,
      lineHeight, smallLineHeight. fold w n.
    now rewrite HB, HT, HS, HP. }
  assert (ET : timeBaseline E img image
               = Num.sub
                   (Num.sub
                      (stepUp (Num.sub (Num.sub h (Num.of_Z b))
                                       (Num.mul (Num.of_Z s) c1_4))
                              (Num.mul (Num.of_Z b) c1_3) n)
                      (Num.mul (Num.of_Z s) c1_4))
                   (Num.mul (Num.of_Z b) c0_2)).
  { unfold timeBaseline, lineHeight, smallLineHeight. fold w h n.
    now rewrite HB, HS, HP. }
  rewrite Etop. split.
  - intros text x y Hin. unfold ops in Hin. rewrite onload_texts in Hin.
    fold w h n in Hin. rewrite ET in Hin.
    unfold lineHeight, smallLineHeight in Hin.
    rewrite HB, HS, HP in Hin.
    destruct Hin as [Heq | Hin].
    { inversion Heq; subst. split; assumption. }
    apply in_app_or in Hin. destruct Hin as [Hin | Hin].
    { apply stack_In in Hin. destruct Hin as (k & Hk & ->).
      rewrite length_rev in Hk. apply Pk. fold n in Hk. lia. }
    destruct Hin as [Heq | [Heq | []]].
    + inversion Heq; subst. apply Pk. lia.
    + inversion Heq; subst. split; assumption.
  - rewrite ET, HT. exact Ptop.
Qed.

Lemma C1_panel_witness :
  let w := Num.of_Z (bm_width img1000) in
  let h := Num.of_Z (bm_height img1000) in
  let n := List.length (addressLines sampleEngine img1000 scenarioA) in
  let ops := cv_ops (snd (onload sampleEngine img1000 scenarioA blank)) in
  let panelTop := Num.sub h (paintedHeight sampleEngine img1000 scenarioA) in
  panelHeight sampleEngine img1000 scenarioA
  = Num.add
      (Num.add
         (Num.add
            (Num.add (Num.mul (timeFontSize w) c1_4)
                     (Num.mul (smallFontSize w) c1_4))
            (Num.mul (Num.of_Z (Z.of_nat n)) (Num.mul (baseFontSize w) c1_3)))
         (Num.mul (smallFontSize w) c1_4))
      (Num.mul (padding w) c2)
  /\ paintedHeight sampleEngine img1000 scenarioA
     = Num.add (panelHeight sampleEngine img1000 scenarioA) (padding w)
  /\ rectCalls ops = [(panelTop, paintedHeight sampleEngine img1000 scenarioA)]
  /\ (forall text x y,
        In (text, x, y) (textCalls ops) ->
        Num.leb panelTop y = true /\ Num.leb y h = true)
  /\ Num.leb panelTop
             (Num.sub (timeBaseline sampleEngine img1000 scenarioA)
                      (Num.mul (timeFontSize w) c1_4)) = true.
Proof.
  apply (C1_panel sampleEngine img1000 scenarioA blank).
  - vm_compute. split; reflexivity.
  - vm_compute. split; reflexivity.
  - vm_compute. lia.
Defined.

(** ** More on the wrapper *)

Lemma length_concat_groups (gs : list (list string)) :
  Forall (fun g => g <> []) gs ->
  (List.length gs <= List.length (List.concat gs))%nat.
Proof.
  induction 1 as [|g gs Hg _ IH]; [simpl; lia|].
  simpl. rewrite length_app. destruct g; [congruence | simpl; lia].
Qed.

(** X1. [wrapText] returns at least one line and at most as many lines
    as the text has words. *)
Theorem X1_wrap_line_count (E : Engine) (maxW : num) (text : string)
        (fontSize : num) (isBold : bool) (cv : Canvas) :
  let lines := fst (wrapText E maxW text fontSize isBold cv) in
  (1 <= List.length lines <= List.length (split_space text))%nat.
Proof.
  intros lines. subst lines. rewrite wrapText_lines.
  pose proof (split_space_not_nil text) as Hne.
  destruct (split_space text) as [|w0 rest] eqn:Hs; [congruence|].
  cbn [hd tl]. split.
  - pose proof (wrapLoop_not_nil E maxW rest [] w0
                  (snd (setFont (Inter isBold fontSize) cv))) as H.
    destruct (fst (wrapLoop _ _ _ _ _ _)); [congruence | simpl; lia].
  - destruct (wrapLoop_groups E maxW rest
                (snd (setFont (Inter isBold fontSize) cv)) [] [w0])
      as (gs & H1 & H2 & H3); [discriminate | constructor |].
    change (fst (wrapLoop E maxW rest [] w0
                   (snd (setFont (Inter isBold fontSize) cv)))
            = map join_space gs) in H1.
    rewrite H1, length_map.
    apply length_concat_groups in H3. rewrite H2 in H3. exact H3.
Qed.

Lemma split_space_head_append (a b : string) :
  hd "" (split_space (a ++ " " ++ b)) = hd "" (split_space a).
Proof.
  induction a as [|c a IH]; [reflexivity|].
  change ((String c a ++ " " ++ b)) with (String c (a ++ " " ++ b)).
  cbn [split_space]. destruct (Ascii.eqb c " "); [reflexivity|].
  pose proof (split_space_not_nil (a ++ " " ++ b)) as H1.
  pose proof (split_space_not_nil a) as H2.
  destruct (split_space (a ++ " " ++ b)) as [|x xs]; [congruence|].
  destruct (split_space a) as [|y ys]; [congruence|].
  cbn [hd] in *. now rewrite IH.
Qed.

Lemma split_space_noSpace (s : string) :
  noSpace s = true -> split_space s = [s].
Proof.
  induction s as [|c s IH]; [reflexivity|].
  cbn [noSpace split_space]. intros H. apply andb_true_iff in H.
  destruct H as [Hc Hs]. apply negb_true_iff in Hc. rewrite Hc.
  now rewrite (IH Hs).
Qed.

Lemma split_space_words (s : string) :
  Forall (fun w => noSpace w = true) (split_space s).
Proof.
  induction s as [|c s IH]; [repeat constructor|].
  cbn [split_space]. destruct (Ascii.eqb c " ") eqn:Hc.
  - constructor; [reflexivity | exact IH].
  - destruct (split_space s) as [|w ws]; [repeat constructor; cbn; now rewrite Hc|].
    inversion IH; subst. constructor; [|assumption].
    cbn [noSpace]. now rewrite Hc.
Qed.

Lemma forcedBreaks_snoc (E : Engine) (font : Font) (maxW : num)
      (ls : list string) (a b : string) :
  forcedBreaks E font maxW (ls ++ [a])%list ->
  Num.ltb (measureText E font (a ++ " " ++ hd "" (split_space b))) maxW = false ->
  forcedBreaks E font maxW ((ls ++ [a]) ++ [b])%list.
Proof.
  induction ls as [|l ls IH]; intros H Hab.
  - cbn. split; [exact Hab | exact I].
  - destruct ls as [|l' ls].
    + cbn in *. destruct H as [H1 _]. repeat split; assumption.
    + rewrite <- !app_comm_cons in H |- *. rewrite <- !app_comm_cons in IH.
      cbn [forcedBreaks] in H |- *. destruct H as [H1 H2].
      split; [exact H1|]. apply IH; assumption.
Qed.

Lemma forcedBreaks_last (E : Engine) (font : Font) (maxW : num)
      (ls : list string) (a a' : string) :
  hd "" (split_space a') = hd "" (split_space a) ->
  forcedBreaks E font maxW (ls ++ [a])%list ->
  forcedBreaks E font maxW (ls ++ [a'])%list.
Proof.
  intros Hh. induction ls as [|l ls IH]; intros H; [exact I|].
  destruct ls as [|l' ls].
  - cbn in *. rewrite Hh. exact H.
  - rewrite <- !app_comm_cons in H |- *. rewrite <- !app_comm_cons in IH.
    cbn [forcedBreaks] in H |- *. destruct H as [H1 H2].
    split; [exact H1 | now apply IH].
Qed.

Lemma wrapLoop_forced (E : Engine) (maxW : num) (cv : Canvas)
      (words : list string) :
  Forall (fun w => noSpace w = true) words ->
  forall (lines : list string) (cur : string),
    forcedBreaks E (cv_font cv) maxW (lines ++ [cur])%list ->
    forcedBreaks E (cv_font cv) maxW (fst (wrapLoop E maxW words lines cur cv)).
Proof.
  induction 1 as [|w rest Hw _ IH]; intros lines cur H; [exact H|].
  rewrite wrapLoop_cons.
  destruct (Num.ltb _ maxW) eqn:Hlt.
  - apply IH. apply (forcedBreaks_last E _ _ lines cur); [|exact H].
    apply split_space_head_append.
  - apply IH. apply forcedBreaks_snoc; [exact H|].
    rewrite (split_space_noSpace w Hw). exact Hlt.
Qed.

Lemma forcedBreaks_nth (E : Engine) (font : Font) (maxW : num)
      (ls : list string) :
  forcedBreaks E font maxW ls ->
  forall (i : nat) (l l' : string),
    nth_error ls i = Some l -> nth_error ls (S i) = Some l' ->
    Num.ltb (measureText E font (l ++ " " ++ hd "" (split_space l'))) maxW
    = false.
Proof.
  induction ls as [|a ls IH]; intros H i l l' H1 H2; [destruct i; discriminate|].
  destruct ls as [|b ls]; [destruct i; discriminate|].
  cbn [forcedBreaks] in H. destruct H as [Hab Hrest].
  destruct i as [|i].
  - cbn in H1, H2. inversion H1; inversion H2; subst. exact Hab.
  - apply (IH Hrest i); assumption.
Qed.

(** X2. The wrap is greedy: wherever [wrapText] breaks, the next word did
    not fit. For two consecutive lines, the earlier line followed by a
    space and the first word of the later line does not measure below
    [maxWidth] in the font of the call. *)
Theorem X2_wrap_greedy (E : Engine) (maxW : num) (text : string)
        (fontSize : num) (isBold : bool) (cv : Canvas) :
  let lines := fst (wrapText E maxW text fontSize isBold cv) in
  forall (i : nat) (line next : string),
    nth_error lines i = Some line ->
    nth_error lines (S i) = Some next ->
    Num.ltb (measureText E (Inter isBold fontSize)
                         (line ++ " " ++ hd "" (split_space next))) maxW
    = false.
Proof.
  intros lines. subst lines. rewrite wrapText_lines.
  pose proof (split_space_not_nil text) as Hne.
  pose proof (split_space_words text) as Hw.
  destruct (split_space text) as [|w0 rest]; [congruence|].
  cbn [hd tl]. inversion Hw; subst.
  apply (forcedBreaks_nth E (Inter isBold fontSize) maxW).
  apply (wrapLoop_forced E maxW (snd (setFont (Inter isBold fontSize) cv)));
    [assumption | exact I].
Qed.

Lemma X2_wrap_greedy_witness :
  Num.ltb (measureText sampleEngine (Inter true (Num.of_Z 24))
                       ("Nguyen Hue" ++ " " ++ hd "" (split_space "Street")))
          (Num.of_Z 200)
  = false.
Proof.
  apply (X2_wrap_greedy sampleEngine (Num.of_Z 200) "Nguyen Hue Street"
           (Num.of_Z 24) true blank 0 "Nguyen Hue" "Street");
    reflexivity.
Defined.

(** X3. A text that holds no space is returned as its only line,
    however wide it is. *)
Theorem X3_wrap_single_word (E : Engine) (maxW : num) (text : string)
        (fontSize : num) (isBold : bool) (cv : Canvas) :
  noSpace text = true ->
  fst (wrapText E maxW text fontSize isBold cv) = [text].
Proof.
  intros H. rewrite wrapText_lines, (split_space_noSpace text H). reflexivity.
Qed.

Lemma X3_wrap_single_word_witness :
  fst (wrapText sampleEngine (Num.of_Z 10) "Ho-Chi-Minh-City,Vietnam"
                (Num.of_Z 24) true blank)
  = ["Ho-Chi-Minh-City,Vietnam"].
Proof.
  apply (X3_wrap_single_word sampleEngine (Num.of_Z 10)
           "Ho-Chi-Minh-City,Vietnam" (Num.of_Z 24) true blank).
  reflexivity.
Defined.

(** X4. [wrapText] paints nothing: of the canvas it changes the font,
    which it leaves at the font it measured with, and nothing else. *)
Theorem X4_wrap_canvas (E : Engine) (maxW : num) (text : string)
        (fontSize : num) (isBold : bool) (cv : Canvas) :
  let cv' := snd (wrapText E maxW text fontSize isBold cv) in
  cv_ops cv' = cv_ops cv
  /\ cv_font cv' = Inter isBold fontSize
  /\ cv_fillStyle cv' = cv_fillStyle cv
  /\ cv_textAlign cv' = cv_textAlign cv
  /\ cv_textBaseline cv' = cv_textBaseline cv
  /\ cv_width cv' = cv_width cv
  /\ cv_height cv' = cv_height cv.
Proof.
  intros cv'. subst cv'. rewrite wrapText_run. cbn. repeat split.
Qed.

(** ** More on the panel *)

Lemma fin_ltb (x y : num) :
  fin x -> fin y -> Num.ltb x y = (iv x <? iv y)%Z.
Proof.
  intros Fx Fy. unfold Num.ltb, SFltb. rewrite fin_compare by assumption.
  unfold Z.ltb. destruct (iv x ?= iv y)%Z; reflexivity.
Qed.

(** The sizes of an image of up to 32 bits a side, as the integers the
    panel lemmas take. *)
Lemma sizes_panel (W : Z) :
  0 < W < 2 ^ 32 ->
  let w := Num.of_Z W in
  exists b s : Z,
    baseFontSize w = Num.of_Z b
    /\ timeFontSize w = Num.of_Z (3 * b / 2)
    /\ smallFontSize w = Num.of_Z s
    /\ padding w = Num.of_Z b
    /\ b = Z.max 24 (35 * W / 1000)
    /\ 24 <= b < 2 ^ 28
    /\ 3 * b - 1 <= 2 * (3 * b / 2) /\ 0 < 3 * b / 2 <= 2 * b
    /\ 7 * b - 19 <= 10 * s /\ 0 < s <= b.
Proof.
  intros HW w.
  destruct (sizes_int W HW) as (HB & HT & _ & (s & HS & Hs) & HP).
  exists (Z.max 24 (35 * W / 1000)), s.
  set (b := Z.max 24 (35 * W / 1000)) in *.
  assert (Hb28 : 24 <= b < 2 ^ 28).
  { assert (35 * W / 1000 < 2 ^ 28) by (apply Z.div_lt_upper_bound; lia).
    unfold b. lia. }
  pose proof (Z.div_mod (3 * b) 2 ltac:(lia)) as D2.
  pose proof (Z.mod_pos_bound (3 * b) 2 ltac:(lia)) as M2.
  pose proof (Z.div_mod (7 * b) 10 ltac:(lia)) as D10.
  pose proof (Z.mod_pos_bound (7 * b) 10 ltac:(lia)) as M10.
  repeat split; try assumption; try reflexivity; lia.
Qed.

(** X7. The painted panel grows with the address: for an image up to
    32 bits wide, more address lines (up to 1024) give a strictly higher
    gradient rectangle. *)
Theorem X7_panel_grows (W : Z) (n m : nat) :
  0 < W < 2 ^ 32 ->
  (1 <= n)%nat -> (n < m)%nat -> (m <= 1024)%nat ->
  Num.ltb (gradientHeight (Num.of_Z W) n) (gradientHeight (Num.of_Z W) m)
  = true.
Proof.
  intros HW Hn Hnm Hm.
  destruct (sizes_panel W HW)
    as (b & s & HB & HT & HS & HP & _ & Hb & _ & Ht & _ & Hs).
  unfold gradientHeight, totalTextHeight, lineHeight, smallLineHeight.
  rewrite HB, HT, HS, HP.
  pose proof eps_pos as He. pose proof K_eps as HK.
  destruct (panel_facts b (3 * b / 2) s 1 n Hb Ht Hs ltac:(lia) ltac:(lia))
    as (VL & VS & VT & VM & Q & _ & _ & _ & _ & _ & _
        & IL & IS & IT & _ & _ & _ & EQ & HbK & _ & BL & _ & _
        & _ & _ & _ & FG & EG).
  destruct (panel_facts b (3 * b / 2) s 1 m Hb Ht Hs ltac:(lia) ltac:(lia))
    as (VL' & VS' & VT' & VM' & Q' & _ & _ & _ & _ & _ & _
        & IL' & IS' & IT' & _ & _ & _ & EQ' & _ & _ & _ & _ & _
        & _ & _ & _ & FG' & EG').
  rewrite fin_ltb by assumption. apply Z.ltb_lt.
  subst VL VS VT VL' VS' VT'.
  set (VL := iv (Num.mul (Num.of_Z b) c1_3)) in *.
  set (VS := iv (Num.mul (Num.of_Z s) c1_4)) in *.
  set (VT := iv (Num.mul (Num.of_Z (3 * b / 2)) c1_4)) in *.
  assert (HQ : Q + VL <= Q').
  { rewrite EQ, EQ'.
    replace (Z.of_nat n * VL + VL) with ((Z.of_nat n + 1) * VL) by ring.
    apply Z.mul_le_mono_nonneg_r; lia. }
  lia.
Qed.

Lemma X7_panel_grows_witness :
  Num.ltb (gradientHeight (Num.of_Z 1000) 1) (gradientHeight (Num.of_Z 1000) 2)
  = true.
Proof. apply (X7_panel_grows 1000 1 2); lia. Defined.

Lemma times_1_4_lower (s : Z) :
  0 < s < 2 ^ 30 ->
  100 * iv (Num.mul (Num.of_Z s) c1_4) >= 139 * (s * K).
Proof.
  intros Hs.
  destruct (mul_int_fin s 6305039478318694 (-52)) as (_ & E & _);
    [lia | reflexivity | lia | unfold K; lia |].
  change (S754_finite false 6305039478318694 (-52)) with c1_4 in E.
  change (-52 + 1074) with 1022 in E.
  unfold K. lia.
Qed.

Lemma times_1_3_lower (b : Z) :
  0 < b < 2 ^ 30 ->
  100 * iv (Num.mul (Num.of_Z b) c1_3) >= 129 * (b * K).
Proof.
  intros Hb.
  destruct (mul_int_fin b 5854679515581645 (-52)) as (_ & E & _);
    [lia | reflexivity | lia | unfold K; lia |].
  change (S754_finite false 5854679515581645 (-52)) with c1_3 in E.
  change (-52 + 1074) with 1022 in E.
  unfold K. lia.
Qed.

Lemma times_0_2_lower (b : Z) :
  0 < b < 2 ^ 30 ->
  100 * iv (Num.mul (Num.of_Z b) c0_2) >= 19 * (b * K).
Proof.
  intros Hb.
  destruct (mul_int_fin b 7205759403792794 (-55)) as (_ & E & _);
    [lia | reflexivity | lia | unfold K; lia |].
  change (S754_finite false 7205759403792794 (-55)) with c0_2 in E.
  change (-55 + 1074) with 1019 in E.
  unfold K. lia.
Qed.

Lemma stepUp_succ (y lh : num) (k : nat) :
  stepUp y lh (S k) = Num.sub (stepUp y lh k) lh.
Proof.
  revert y. induction k as [|k IH]; intros y; [reflexivity|].
  change (stepUp y lh (S (S k))) with (stepUp (Num.sub y lh) lh (S k)).
  now rewrite IH.
Qed.

(** *** The baselines, bottom up *)

Section Baselines.

Variables (b t s H : Z) (n : nat).
Hypothesis Hb : 24 <= b < 2 ^ 28.
Hypothesis Ht : 0 < t <= 2 * b.
Hypothesis Hs : 0 < s <= b.
Hypothesis HH : 0 < H < 2 ^ 32.
Hypothesis Hn : (1 <= n <= 1024)%nat.

Let lh := Num.mul (Num.of_Z b) c1_3.
Let slh := Num.mul (Num.of_Z s) c1_4.
Let th := Num.mul (Num.of_Z t) c1_4.
Let m02 := Num.mul (Num.of_Z b) c0_2.
Let p := Num.of_Z b.
Let h := Num.of_Z H.
Let y0 := Num.sub h p.
Let y1 := Num.sub y0 slh.
Let yT := Num.sub (Num.sub (stepUp y1 lh n) slh) m02.

(** The baselines and the top of the slot of the time line, as numbers:
    each is within [(n + 5) * eps] of its exact value. *)
Lemma baselines_facts :
  exists VL VS VT VM : Z,
    iv lh = VL /\ iv slh = VS /\ iv th = VT /\ iv m02 = VM
    /\ 100 * VL >= 129 * (b * K) /\ VL <= 2 * (b * K)
    /\ 100 * VS >= 139 * (s * K)
    /\ 100 * VT >= 139 * (t * K)
    /\ 100 * VM >= 19 * (b * K)
    /\ fin h /\ iv h = H * K
    /\ fin y0 /\ Z.abs (iv y0 - (H * K - b * K)) <= eps
    /\ fin y1 /\ Z.abs (iv y1 - (H * K - b * K - VS)) <= 2 * eps
    /\ (forall k, (k <= n)%nat ->
          fin (stepUp y1 lh k)
          /\ Z.abs (iv (stepUp y1 lh k)
                    - (H * K - b * K - VS - Z.of_nat k * VL))
             <= (Z.of_nat k + 2) * eps
          /\ Z.abs (iv (stepUp y1 lh k)) <= 2 ^ 40 * K)
    /\ fin yT
    /\ Z.abs (iv yT - (H * K - b * K - VS - Z.of_nat n * VL - VS - VM))
       <= (Z.of_nat n + 4) * eps
    /\ fin (Num.sub yT th)
    /\ Z.abs (iv (Num.sub yT th)
              - (H * K - b * K - VS - Z.of_nat n * VL - VS - VM - VT))
       <= (Z.of_nat n + 5) * eps.
Proof.
  pose proof K_eps as HK. pose proof eps_pos as He.
  destruct (panel_facts b t s H n Hb Ht Hs HH Hn)
    as (VL & VS & VT & VM & Q & FL & FS & FT & FM & Fp & Fh
        & IL & IS & IT & IM & Ip & Ih & EQ & HbK & HHK & BL & BS & BT
        & BM0 & BM & BQ & _).
  fold lh in FL, IL. fold slh in FS, IS. fold th in FT, IT.
  fold m02 in FM, IM. fold p in Fp, Ip. fold h in Fh, Ih.
  pose proof (times_1_3_lower b ltac:(lia)) as LL. fold lh in LL.
  pose proof (times_1_4_lower s ltac:(lia)) as LS. fold slh in LS.
  pose proof (times_1_4_lower t ltac:(lia)) as LT. fold th in LT.
  pose proof (times_0_2_lower b ltac:(lia)) as LM. fold m02 in LM.
  rewrite IL in LL. rewrite IS in LS. rewrite IT in LT. rewrite IM in LM.
  set (bK := b * K) in *. set (HK_ := H * K) in *.
  set (sK := s * K) in *. set (tK := t * K) in *.
  destruct (sub_err h p Fh Fp) as [F0 E0]; [rewrite Ih, Ip; lia|].
  rewrite Ih, Ip in E0. fold y0 in F0, E0.
  destruct (sub_err y0 slh F0 FS) as [F1 E1]; [rewrite IS; lia|].
  rewrite IS in E1. fold y1 in F1, E1.
  assert (Hstep : forall k, (k <= n)%nat ->
            fin (stepUp y1 lh k)
            /\ Z.abs (iv (stepUp y1 lh k)
                      - (HK_ - bK - VS - Z.of_nat k * VL))
               <= (Z.of_nat k + 2) * eps
            /\ Z.abs (iv (stepUp y1 lh k)) <= 2 ^ 40 * K).
  { intros k Hk.
    assert (Hkl : 0 <= Z.of_nat k * VL <= Q).
    { rewrite EQ.
      pose proof (mul_between (Z.of_nat k) 0 (Z.of_nat n) VL
                    ltac:(lia) ltac:(lia)). lia. }
    assert (Hke : 0 <= Z.of_nat k * eps <= 1024 * eps).
    { pose proof (mul_between (Z.of_nat k) 0 1024 eps
                    ltac:(lia) ltac:(lia)). lia. }
    destruct (stepUp_spec lh FL ltac:(rewrite IL; lia) k y1 F1) as [Fk Ek].
    - rewrite IL, Z.mul_add_distr_l. lia.
    - rewrite IL in Ek. split; [exact Fk|].
      rewrite Z.mul_add_distr_r. split; lia. }
  destruct (Hstep n ltac:(lia)) as (FP & EP & BP).
  rewrite <- EQ in EP.
  assert (Hne : 0 <= Z.of_nat n * eps <= 1024 * eps).
  { pose proof (mul_between (Z.of_nat n) 0 1024 eps ltac:(lia) ltac:(lia)).
    lia. }
  rewrite Z.mul_add_distr_r in EP.
  set (yP := stepUp y1 lh n) in *.
  destruct (sub_err yP slh FP FS) as [Fq Eq]; [rewrite IS; lia|].
  rewrite IS in Eq.
  set (yq := Num.sub yP slh) in *.
  destruct (sub_err yq m02 Fq FM) as [FT' ET']; [rewrite IM; lia|].
  rewrite IM in ET'. fold yT in FT', ET'.
  destruct (sub_err yT th FT' FT) as [Fz Ez]; [rewrite IT; lia|].
  rewrite IT in Ez.
  assert (ET2 : Z.abs (iv yT - (HK_ - bK - VS - Q - VS - VM))
                <= (Z.of_nat n + 4) * eps)
    by (rewrite Z.mul_add_distr_r; lia).
  assert (EZ2 : Z.abs (iv (Num.sub yT th)
                       - (HK_ - bK - VS - Q - VS - VM - VT))
                <= (Z.of_nat n + 5) * eps)
    by (rewrite Z.mul_add_distr_r; lia).
  assert (E12 : Z.abs (iv y1 - (HK_ - bK - VS)) <= 2 * eps) by lia.
  assert (UL : VL <= 2 * bK) by lia.
  exists VL, VS, VT, VM. rewrite <- EQ.
  split; [exact IL|]. split; [exact IS|]. split; [exact IT|].
  split; [exact IM|]. split; [exact LL|]. split; [exact UL|].
  split; [exact LS|]. split; [exact LT|]. split; [exact LM|].
  split; [exact Fh|]. split; [exact Ih|]. split; [exact F0|].
  split; [exact E0|]. split; [exact F1|]. split; [exact E12|].
  split; [exact Hstep|]. split; [exact FT'|]. split; [exact ET2|].
  split; [exact Fz | exact EZ2].
Qed.

(** Every baseline lies strictly above the one painted before it. *)
Lemma baselines_descend :
  Num.ltb y1 y0 = true
  /\ (forall k, (k < n)%nat ->
        Num.ltb (stepUp y1 lh (S k)) (stepUp y1 lh k) = true)
  /\ Num.ltb yT (stepUp y1 lh n) = true.
Proof.
  pose proof K_eps as HK. pose proof eps_pos as He.
  destruct baselines_facts
    as (VL & VS & VT & VM & IL & IS & IT & IM & LL & UL & LS & LT & LM
        & Fh & Ih & F0 & E0 & F1 & E1 & Hstep & FT & ET & _).
  assert (HbK : 24 * K <= b * K <= 2 ^ 28 * K) by (apply mul_between; lia).
  assert (HsK : K <= s * K).
  { pose proof (mul_between s 1 b K ltac:(lia) ltac:(lia)). lia. }
  set (bK := b * K) in *. set (HK_ := H * K) in *. set (sK := s * K) in *.
  split; [rewrite fin_ltb by assumption; apply Z.ltb_lt; lia|].
  split.
  - intros k Hk.
    destruct (Hstep k ltac:(lia)) as (Fk & Ek & Bk).
    rewrite stepUp_succ.
    assert (FL : fin lh).
    { destruct (lineHeight_bounds b Hb) as (FL & _). exact FL. }
    destruct (sub_err (stepUp y1 lh k) lh Fk FL) as [Fk' Ek'];
      [rewrite IL; lia|].
    rewrite IL in Ek'.
    rewrite fin_ltb by assumption. apply Z.ltb_lt. lia.
  - destruct (Hstep n ltac:(lia)) as (Fk & Ek & Bk).
    rewrite fin_ltb by assumption. apply Z.ltb_lt.
    rewrite Z.mul_add_distr_r in Ek, ET.
    set (ne := Z.of_nat n * eps) in *.
    assert (0 <= ne <= 1024 * eps).
    { unfold ne.
      pose proof (mul_between (Z.of_nat n) 0 1024 eps ltac:(lia) ltac:(lia)).
      lia. }
    lia.
Qed.

End Baselines.

Lemma last_cons_default (A : Type) (l : list A) (a d d' : A) :
  last (a :: l) d = last (a :: l) d'.
Proof.
  revert a. induction l as [|c l IH]; intros a; [reflexivity|].
  change (last (c :: l) d = last (c :: l) d'). apply IH.
Qed.

Lemma descendingFrom_app (y : num) (l1 l2 : list num) :
  descendingFrom y (l1 ++ l2)%list
  = descendingFrom y l1 && descendingFrom (last l1 y) l2.
Proof.
  revert y. induction l1 as [|a l1 IH]; intros y; [reflexivity|].
  rewrite <- app_comm_cons. cbn [descendingFrom]. rewrite IH, andb_assoc.
  destruct l1 as [|c l1]; [reflexivity|].
  f_equal. f_equal. change (last (a :: c :: l1) y) with (last (c :: l1) y).
  apply last_cons_default.
Qed.

Lemma descendingFrom_steps (f : nat -> num) (m a : nat) :
  (forall k, (a <= k < a + m)%nat -> Num.ltb (f (S k)) (f k) = true) ->
  descendingFrom (f a) (map f (seq (S a) m)) = true
  /\ last (map f (seq (S a) m)) (f a) = f (a + m)%nat.
Proof.
  revert a. induction m as [|m IH]; intros a Hf.
  - cbn. split; [reflexivity | f_equal; lia].
  - cbn [seq map descendingFrom].
    destruct (IH (S a)) as [I1 I2]; [intros k Hk; apply Hf; lia|].
    rewrite (Hf a) by lia. rewrite I1. split; [reflexivity|].
    replace (a + S m)%nat with (S a + m)%nat by lia. rewrite <- I2.
    destruct (map f (seq (S (S a)) m)) as [|c l]; [reflexivity|].
    change (last (f (S a) :: c :: l) (f a)) with (last (c :: l) (f a)).
    apply last_cons_default.
Qed.

Lemma stack_baselines (lines : list string) (x lh : num) :
  forall y : num,
    map snd (stack lines x y lh)
    = map (stepUp y lh) (seq 0 (List.length lines)).
Proof.
  induction lines as [|l rest IH]; intros y; [reflexivity|].
  cbn [stack map List.length seq snd]. rewrite IH.
  rewrite <- seq_shift, map_map. reflexivity.
Qed.

(** X6. For an image of up to 32 bits a side and up to 1024 address
    lines the texts are painted strictly bottom-up: every text has its
    baseline strictly above the baseline of the text painted before it,
    so no two texts share a baseline. *)
Theorem X6_baselines_descend (E : Engine) (img : Bitmap)
        (image : CapturedImage) (cv : Canvas) :
  0 < bm_width img < 2 ^ 32 ->
  0 < bm_height img < 2 ^ 32 ->
  (List.length (addressLines E img image) <= 1024)%nat ->
  descending (map snd (textCalls (cv_ops (snd (onload E img image cv)))))
  = true.
Proof.
  intros HW HH Hn.
  destruct (sizes_panel (bm_width img) HW)
    as (b & s & HB & HT & HS & HP & _ & Hb & _ & Ht & _ & Hs).
  pose proof (addressLines_not_nil E img image) as Hn1.
  destruct (baselines_descend b (3 * b / 2) s (bm_height img)
              (List.length (addressLines E img image))
              Hb Ht Hs HH (conj Hn1 Hn))
    as (D0 & Dk & DT).
  rewrite onload_texts. unfold timeBaseline, lineHeight, smallLineHeight.
  rewrite HB, HS, HP.
  set (n := List.length (addressLines E img image)) in *.
  set (lh := Num.mul (Num.of_Z b) c1_3) in *.
  set (y0 := Num.sub (Num.of_Z (bm_height img)) (Num.of_Z b)) in *.
  set (y1 := Num.sub y0 (Num.mul (Num.of_Z s) c1_4)) in *.
  cbn [map snd descending]. rewrite map_app, stack_baselines, length_rev.
  fold n. cbn [map snd].
  destruct n as [|n']; [lia|].
  destruct (descendingFrom_steps (stepUp y1 lh) n' 0) as [S1 S2];
    [intros k Hk; apply Dk; lia|].
  change (0 + n')%nat with n' in S2.
  cbn [seq map app descendingFrom].
  change (stepUp y1 lh 0) with y1 in *.
  rewrite D0. cbn [andb].
  rewrite descendingFrom_app, S1, S2. cbn [andb descendingFrom].
  rewrite Dk by lia. rewrite DT. reflexivity.
Qed.

Lemma X6_baselines_descend_witness :
  descending
    (map snd
         (textCalls (cv_ops (snd (onload sampleEngine img1000 scenarioA blank)))))
  = true.
Proof.
  apply (X6_baselines_descend sampleEngine img1000 scenarioA blank).
  - vm_compute. split; reflexivity.
  - vm_compute. split; reflexivity.
  - vm_compute. lia.
Defined.

(** X8. The overlay is not fitted to a low image. For a width of up to
    32 bits and up to 1024 address lines, when the image is at most six
    base font sizes high (a 4000 x 800 strip, say), the gradient
    rectangle starts above the top edge of the canvas and so does the
    slot of the time line: both tops are negative. *)
Theorem X8_low_image_overflow (E : Engine) (img : Bitmap)
        (image : CapturedImage) :
  0 < bm_width img < 2 ^ 32 ->
  0 < bm_height img <= 6 * Z.max 24 (35 * bm_width img / 1000) ->
  (List.length (addressLines E img image) <= 1024)%nat ->
  let w := Num.of_Z (bm_width img) in
  let h := Num.of_Z (bm_height img) in
  Num.ltb (Num.sub h (paintedHeight E img image)) c0 = true
  /\ Num.ltb (Num.sub (timeBaseline E img image)
                      (Num.mul (timeFontSize w) c1_4)) c0 = true.
Proof.
  intros HW HH Hn w h.
  destruct (sizes_panel (bm_width img) HW)
    as (b & s & HB & HT & HS & HP & Eb & Hb & Lt & Ht & Ls & Hs).
  fold w in HB, HT, HS, HP. rewrite <- Eb in HH.
  pose proof (addressLines_not_nil E img image) as Hn1.
  assert (HH' : 0 < bm_height img < 2 ^ 32) by lia.
  unfold paintedHeight, gradientHeight, totalTextHeight, timeBaseline,
    lineHeight, smallLineHeight.
  fold w h. rewrite HB, HT, HS, HP.
  set (n := List.length (addressLines E img image)) in *.
  pose proof K_eps as HK. pose proof eps_pos as He.
  destruct (panel_facts b (3 * b / 2) s (bm_height img) n
              Hb Ht Hs HH' (conj Hn1 Hn))
    as (VL0 & VS0 & VT0 & VM0 & Q & _ & _ & _ & _ & _ & Fh
        & IL0 & IS0 & IT0 & _ & _ & Ih & EQ & HbK & HHK & BL & BS & BT
        & _ & _ & BQ & FG & EG).
  destruct (baselines_facts b (3 * b / 2) s (bm_height img) n
              Hb Ht Hs HH' (conj Hn1 Hn))
    as (VL & VS & VT & VM & IL & IS & IT & IM & LL & UL & LS & LT & LM
        & _ & _ & _ & _ & _ & _ & _ & _ & _ & Fz & Ez).
  subst VL0 VS0 VT0 VL VS VT VM. fold h in Fh, Ih, Fz, Ez.
  set (VL := iv (Num.mul (Num.of_Z b) c1_3)) in *.
  set (VS := iv (Num.mul (Num.of_Z s) c1_4)) in *.
  set (VT := iv (Num.mul (Num.of_Z (3 * b / 2)) c1_4)) in *.
  set (VM := iv (Num.mul (Num.of_Z b) c0_2)) in *.
  rewrite <- EQ in Ez.
  assert (Hne : 0 <= Z.of_nat n * eps <= 1024 * eps).
  { pose proof (mul_between (Z.of_nat n) 0 1024 eps ltac:(lia) ltac:(lia)).
    lia. }
  rewrite Z.mul_add_distr_r in Ez.
  assert (HsK : 10 * (s * K) >= 7 * (b * K) - 19 * K).
  { pose proof (Z.mul_le_mono_nonneg_r (7 * b - 19) (10 * s) K
                  ltac:(lia) ltac:(lia)). lia. }
  assert (HtK : 2 * (3 * b / 2 * K) >= 3 * (b * K) - K).
  { pose proof (Z.mul_le_mono_nonneg_r (3 * b - 1) (2 * (3 * b / 2)) K
                  ltac:(lia) ltac:(lia)). lia. }
  assert (HhK : bm_height img * K <= 6 * (b * K)).
  { pose proof (Z.mul_le_mono_nonneg_r (bm_height img) (6 * b) K
                  ltac:(lia) ltac:(lia)). lia. }
  set (bK := b * K) in *. set (sK := s * K) in *.
  set (tK := 3 * b / 2 * K) in *. set (HK_ := bm_height img * K) in *.
  set (ne := Z.of_nat n * eps) in *.
  assert (F0 : fin c0) by exact I.
  assert (I0 : iv c0 = 0) by reflexivity.
  split.
  - destruct (sub_err h _ Fh FG) as [Ftop Etop]; [rewrite Ih; lia|].
    rewrite Ih in Etop.
    rewrite fin_ltb by assumption. apply Z.ltb_lt. rewrite I0. lia.
  - rewrite fin_ltb by assumption. apply Z.ltb_lt. rewrite I0. lia.
Qed.

Lemma X8_low_image_overflow_witness :
  let w := Num.of_Z (bm_width imgStrip) in
  let h := Num.of_Z (bm_height imgStrip) in
  Num.ltb (Num.sub h (paintedHeight sampleEngine imgStrip scenarioA)) c0 = true
  /\ Num.ltb (Num.sub (timeBaseline sampleEngine imgStrip scenarioA)
                      (Num.mul (timeFontSize w) c1_4)) c0 = true.
Proof.
  apply (X8_low_image_overflow sampleEngine imgStrip scenarioA).
  - vm_compute. split; reflexivity.
  - vm_compute. split; [reflexivity | discriminate].
  - vm_compute. lia.
Defined.

(** [canvas.width * 0.9]. *)
Lemma maxWidth_bounds (W : Z) :
  0 < W < 2 ^ 32 ->
  fin (maxWidth (Num.of_Z W))
  /\ Z.abs (10 * iv (maxWidth (Num.of_Z W)) - 9 * (W * K)) <= eps.
Proof.
  intros HW. unfold maxWidth.
  destruct (mul_int_fin W 8106479329266893 (-53)) as (F & E & _);
    [lia | reflexivity | lia | unfold K; lia |].
  change (S754_finite false 8106479329266893 (-53)) with c0_9 in F, E.
  change (-53 + 1074) with 1021 in E.
  split; [exact F|]. unfold K, eps. lia.
Qed.

(** X9. The width limit of the wrapper and the right anchor: for a
    width [W] of up to 32 bits the anchor [W - padding] is at least
    [maxWidth = W * 0.9] exactly when [W >= 240]; on a narrower image
    [maxWidth] exceeds the anchor. *)
Theorem X9_wrap_margin (W : Z) :
  0 < W < 2 ^ 32 ->
  let w := Num.of_Z W in
  Num.leb (maxWidth w) (Num.sub w (padding w)) = (240 <=? W)%Z.
Proof.
  intros HW w.
  destruct (Z.eq_dec W 240) as [->|N]; [vm_compute; reflexivity|].
  destruct (sizes_panel W HW)
    as (b & s & _ & _ & _ & HP & Eb & Hb & _).
  fold w in HP. rewrite HP.
  destruct (maxWidth_bounds W HW) as [FM EM]. fold w in FM, EM.
  pose proof K_eps as HK. pose proof eps_pos as He.
  assert (Fw : fin w) by (apply fin_of_Z; lia).
  assert (Fb : fin (Num.of_Z b)) by (apply fin_of_Z; lia).
  assert (Iw : iv w = W * K) by (apply of_Z_iv; lia).
  assert (Ib : iv (Num.of_Z b) = b * K) by (apply of_Z_iv; lia).
  assert (HWK : K <= W * K <= 2 ^ 32 * K).
  { pose proof (mul_between W 1 (2 ^ 32) K ltac:(lia) ltac:(lia)). lia. }
  assert (HbK : 24 * K <= b * K <= 2 ^ 28 * K) by (apply mul_between; lia).
  destruct (sub_err w (Num.of_Z b) Fw Fb) as [Fx Ex]; [rewrite Iw, Ib; lia|].
  rewrite Iw, Ib in Ex.
  rewrite fin_leb by assumption.
  pose proof (Z.mul_div_le (35 * W) 1000 ltac:(lia)) as Hq.
  set (q := 35 * W / 1000) in *.
  destruct (Z.leb_spec 240 W) as [Hge|Hlt].
  - apply Z.leb_le.
    assert (Hm : 10 * (W * K) - 10 * (b * K) >= 9 * (W * K) + K).
    { assert (10 * W - 10 * b >= 9 * W + 1) by lia.
      pose proof (Z.mul_le_mono_nonneg_r (9 * W + 1) (10 * W - 10 * b) K
                    ltac:(lia) ltac:(lia)). lia. }
    lia.
  - apply Z.leb_gt.
    assert (Hm : 10 * (W * K) - 10 * (b * K) <= 9 * (W * K) - K).
    { assert (10 * W - 10 * b <= 9 * W - 1) by lia.
      pose proof (Z.mul_le_mono_nonneg_r (10 * W - 10 * b) (9 * W - 1) K
                    ltac:(lia) ltac:(lia)). lia. }
    lia.
Qed.

Lemma X9_wrap_margin_witness :
  let w := Num.of_Z 1000 in
  Num.leb (maxWidth w) (Num.sub w (padding w)) = (240 <=? 1000)%Z.
Proof. apply (X9_wrap_margin 1000). lia. Defined.

(** ** The page state *)

Lemma composite_sameStamp (E : Engine) (img : Bitmap) (a b : CapturedImage) :
  sameStamp a b -> composite E img a = composite E img b.
Proof.
  intros (_ & Ht & Hp & Hd & Hl).
  assert (Hc : coordsStr E a = coordsStr E b).
  { unfold coordsStr. destruct (location a) as [la|], (location b) as [lb|];
      try contradiction; [|reflexivity].
    destruct Hl as (-> & -> & _). reflexivity. }
  assert (Ha : addressStr a = addressStr b).
  { unfold addressStr. destruct (location a) as [la|], (location b) as [lb|];
      try contradiction; [|reflexivity].
    destruct Hl as (_ & _ & ->). reflexivity. }
  unfold composite, addressLines, fullTimeStr, personStr, deviceStr.
  now rewrite Hc, Ha, Ht, Hp, Hd.
Qed.

(** X5. The watermark shows the photo, the time, the names, the
    coordinates and the address, and nothing else of the record: the
    photo is decoded from [originalDataUrl], and two records that agree
    on these give the same canvas and the same data URL, whatever their
    [processedDataUrl], the accuracy and the time of the fix are, and
    whatever the canvases held before. *)
Theorem X5_stamp_only (E : Engine) (decode : string -> Bitmap)
        (a b : CapturedImage) (cv1 cv2 : Canvas) :
  sameStamp a b ->
  onload E (decode (originalDataUrl a)) a cv1
  = onload E (decode (originalDataUrl b)) b cv2.
Proof.
  intros H. rewrite !onload_run.
  destruct H as (Hu & H). rewrite <- Hu.
  now rewrite (composite_sameStamp E (decode (originalDataUrl a)) a b
                 (conj Hu H)).
Qed.

Lemma X5_stamp_only_witness :
  onload sampleEngine img1000 scenarioA blank
  = onload sampleEngine img1000
           {| originalDataUrl := "data:image/jpeg;base64,";
              processedDataUrl := Some "data:,";
              location := Some {| lat := Num.lit 10762622 1000000;
                                  lng := Num.lit 106660172 1000000;
                                  accuracy := Num.of_Z 50;
                                  loc_timestamp := Num.of_Z 0;
                                  address := Some "123 Nguyen Hue, District 1, Ho Chi Minh City" |};
              timestamp := 1709276700000;
              personnelName := "An";
              deviceName := "iPhone" |}
           (composite sampleEngine img500 scenarioA).
Proof.
  apply (X5_stamp_only sampleEngine (fun _ => img1000)).
  repeat split; reflexivity.
Defined.

(** X10. Storing the result does not change the next result. After
    [handleProcessedImage] has stored the data URL of an invocation, the
    record has the same [originalDataUrl], and an invocation on the
    stored record paints the same canvas and hands out the same data
    URL, so storing that one again leaves the record as it is. *)
Theorem X10_store_result (E : Engine) (img : Bitmap) (image : CapturedImage)
        (cv cv' : Canvas) :
  let url := fst (onload E img image cv) in
  exists stored : CapturedImage,
    handleProcessedImage url (Some image) = Some stored
    /\ originalDataUrl stored = originalDataUrl image
    /\ processedDataUrl stored = Some url
    /\ onload E img stored cv' = onload E img image cv
    /\ handleProcessedImage (fst (onload E img stored cv')) (Some stored)
       = Some stored.
Proof.
  intros url. eexists. split; [reflexivity|].
  split; [reflexivity|]. split; [reflexivity|].
  match goal with
  | |- onload E img ?s cv' = _ /\ _ =>
      assert (Hs : onload E img s cv' = onload E img image cv)
  end.
  { rewrite !onload_run.
    rewrite (composite_sameStamp E img _ image); [reflexivity|].
    unfold sameStamp.
    cbn [originalDataUrl timestamp personnelName deviceName location].
    destruct (location image); repeat split. }
  split; [exact Hs|]. rewrite Hs. reflexivity.
Qed.

Lemma watched_snoc (fixes : list Position) (pos : Position) :
  watched (fixes ++ [pos]) = onPosition pos (watched fixes).
Proof. unfold watched. now rewrite fold_left_app. Qed.

Lemma watched_address (fixes : list Position) :
  match watched fixes with
  | Some loc => address loc = None
  | None => fixes = []
  end.
Proof.
  induction fixes as [|pos fixes IH] using rev_ind; [reflexivity|].
  rewrite watched_snoc. cbn [onPosition address].
  destruct (watched fixes); [exact IH | reflexivity].
Qed.

(** X11. A photo is first stamped with the placeholder. Whatever fixes
    [watchPosition] has reported, the [location] state carries no
    address, so the record [capturePhoto] stores has the placeholder as
    its address text; its coordinates are those of the last fix. *)
Theorem X11_first_stamp (E : Engine) (fixes : list Position)
        (dataUrl : string) (now : Z) (name device : string) :
  let image := capturePhoto dataUrl (watched fixes) now name device in
  addressStr image = placeholder
  /\ coordsStr E image
     = match rev fixes with
       | pos :: _ => toFixed E (latitude pos) 6 ++ ", "
                     ++ toFixed E (longitude pos) 6
       | [] => ""
       end.
Proof.
  intros image. subst image. unfold addressStr, coordsStr.
  cbn [capturePhoto location].
  pose proof (watched_address fixes) as Ha. split.
  - destruct (watched fixes) as [loc|]; [now rewrite Ha | reflexivity].
  - destruct fixes as [|pos fixes] using rev_ind; [reflexivity|].
    rewrite watched_snoc, rev_app_distr. reflexivity.
Qed.

(** ** Reverse geocoding *)

Lemma truthy_cases (o : option string) :
  (truthy o = false /\ forall parts, pushIf o parts = parts)
  \/ (exists (c : ascii) (s : string),
        o = Some (String c s) /\ truthy o = true
        /\ forall parts, pushIf o parts = (parts ++ [String c s])%list).
Proof.
  destruct o as [[|c s]|].
  - left. split; [reflexivity | intros; reflexivity].
  - right. exists c, s. repeat split.
  - left. split; [reflexivity | intros; reflexivity].
Qed.

Lemma join_snoc_truthy (sep : string) (parts : list string) (c : ascii)
      (s : string) :
  join sep (parts ++ [String c s]) <> "".
Proof.
  induction parts as [|p parts IH]; [discriminate|].
  rewrite <- app_comm_cons. cbn [join].
  destruct (parts ++ [String c s])%list eqn:E.
  - destruct parts; discriminate.
  - destruct p; [|discriminate]. cbn. destruct sep; [|discriminate].
    cbn. exact IH.
Qed.

Lemma truthy_Some (s : string) : truthy (Some s) = true <-> s <> "".
Proof.
  cbn. destruct s; cbn; split; congruence.
Qed.

Lemma addressParts_truthy (a : GeoAddress) :
  truthy (Some (join ", " (addressParts a))) = anyPart a.
Proof.
  unfold addressParts, anyPart, orElse.
  destruct (truthy_cases (town a)) as [[T1 T2]|(c1 & s1 & E1 & T1 & T2)];
  destruct (truthy_cases (city a)) as [[C1 C2]|(c2 & s2 & E2 & C1 & C2)];
  destruct (truthy_cases (neighbourhood a))
    as [[N1 N2]|(c3 & s3 & E3 & N1 & N2)];
  destruct (truthy_cases (suburb a)) as [[S1 S2]|(c4 & s4 & E4 & S1 & S2)];
  destruct (truthy_cases (road a)) as [[R1 R2]|(c5 & s5 & E5 & R1 & R2)];
  destruct (truthy_cases (house_number a))
    as [[H1 H2]|(c6 & s6 & E6 & H1 & H2)];
  rewrite ?T1, ?C1, ?N1, ?S1, ?R1, ?H1, ?T2, ?C2, ?N2, ?S2, ?R2, ?H2;
  cbn [orb];
  try reflexivity;
  apply truthy_Some, join_snoc_truthy.
Qed.

(** X12. When [fetchAddress] hands back a usable address. Its result is
    truthy, so that [capturePhoto] stores it, exactly when the request
    came back with a body that holds an address object and either that
    object has one of the parts (house number, road, suburb,
    neighbourhood, city, town) or the answer has a display name. *)
Theorem X12_fetchAddress_usable (r : Fetched) :
  truthy (fetchAddress r) = true <->
  exists (data : GeoData) (a : GeoAddress),
    r = FetchJson (Some data) /\ data_address data = Some a
    /\ (anyPart a = true \/ truthy (display_name data) = true).
Proof.
  assert (Hcore : forall data a, data_address data = Some a ->
            truthy (fetchAddress (FetchJson (Some data)))
            = anyPart a || truthy (display_name data)).
  { intros data a Ha. cbn [fetchAddress]. rewrite Ha. unfold orElse.
    pose proof (addressParts_truthy a) as Hj.
    destruct (truthy (Some (join ", " (addressParts a)))) eqn:Ht.
    - rewrite Ht, <- Hj. reflexivity.
    - rewrite <- Hj. reflexivity. }
  split.
  - intros H. destruct r as [|[data|]]; try discriminate.
    destruct (data_address data) as [a|] eqn:Ha.
    + exists data, a. rewrite (Hcore data a Ha) in H.
      apply orb_true_iff in H. repeat split; assumption.
    + cbn [fetchAddress] in H. rewrite Ha in H. discriminate.
  - intros (data & a & -> & Ha & H). rewrite (Hcore data a Ha).
    apply orb_true_iff. exact H.
Qed.

(** X13. What [fetchAddress] prefers. A neighbourhood counts only when
    there is no suburb, a town only when there is no city, and the
    display name only when none of the parts is there: changing the
    field that is passed over does not change the address. *)
Theorem X13_fetchAddress_precedence (a : GeoAddress) (d x : option string) :
  (truthy (suburb a) = true ->
   fetchAddress (answer (withNeighbourhood a x) d) = fetchAddress (answer a d))
  /\ (truthy (city a) = true ->
      fetchAddress (answer (withTown a x) d) = fetchAddress (answer a d))
  /\ (anyPart a = true ->
      fetchAddress (answer a x) = fetchAddress (answer a d)).
Proof.
  split; [|split].
  - intros H. cbn [answer fetchAddress data_address display_name].
    unfold addressParts. cbn [withNeighbourhood house_number road suburb
                               neighbourhood city town].
    now rewrite H.
  - intros H. cbn [answer fetchAddress data_address display_name].
    unfold addressParts, orElse at 2 4.
    cbn [withTown house_number road suburb neighbourhood city town].
    now rewrite H.
  - intros H. cbn [answer fetchAddress data_address display_name].
    unfold orElse. now rewrite addressParts_truthy, H.
Qed.

Lemma X13_fetchAddress_precedence_witness :
  let a := {| house_number := Some "12"; road := Some "Le Loi";
              suburb := Some "Ben Nghe"; neighbourhood := None;
              city := Some "Ho Chi Minh"; town := None |} in
  fetchAddress (answer (withNeighbourhood a (Some "Khu pho 4")) None)
  = fetchAddress (answer a None)
  /\ fetchAddress (answer (withTown a (Some "Thu Duc")) None)
     = fetchAddress (answer a None)
  /\ fetchAddress (answer a (Some "12, Le Loi, Viet Nam"))
     = fetchAddress (answer a None).
Proof.
  intros a.
  destruct (X13_fetchAddress_precedence a None (Some "Khu pho 4"))
    as (H1 & _ & _).
  destruct (X13_fetchAddress_precedence a None (Some "Thu Duc"))
    as (_ & H2 & _).
  destruct (X13_fetchAddress_precedence a None (Some "12, Le Loi, Viet Nam"))
    as (_ & _ & H3).
  split; [apply H1; reflexivity|].
  split; [apply H2; reflexivity | apply H3; reflexivity].
Defined.
